(** * pv-scanner: decoding of GS1 variable-weight barcode scans

    A shallow embedding of the decoding core of [pv-scanner.py]
    ([formater_ligne], [valeur_formatee_vers_float],
    [extraire_dlc_from_scan] and the loop of [mettre_a_jour_total]),
    together with the part of the Python runtime these functions rely on
    ([str] methods, [re.search] for the one pattern used, [int], [float],
    [datetime] validation and the two format specifications). *)

From Stdlib Require Import ZArith NArith String Ascii Lia SpecFloat.
From stdpp Require Import base decidable option list gmap.

Set Default Proof Using "Type".

(** ** Python strings

    A Python [str] is a sequence of Unicode code points; a code point is
    modelled as an [N] and a string as a list of them. *)

Abbreviation str := (list N).

(** [u "abc"] is the Python literal ["abc"] (ASCII literals only). *)
Definition u (s : string) : str :=
  N_of_ascii <$> list_ascii_of_string s.

(** [str.isspace] on one character: the code points CPython's
    [_PyUnicode_IsWhitespace] accepts. *)
Definition isspace (c : N) : bool :=
  ((9 <=? c) && (c <=? 13) || (28 <=? c) && (c <=? 32)
   || (c =? 133) || (c =? 160) || (c =? 5760)
   || (8192 <=? c) && (c <=? 8202)
   || (c =? 8232) || (c =? 8233) || (c =? 8239) || (c =? 8287)
   || (c =? 12288))%N.

(** Removal of the leading characters of a class, and of the characters of
    a class at both ends. *)
Fixpoint lstrip_of (f : N → bool) (s : str) : str :=
  match s with
  | c :: s' => if f c then lstrip_of f s' else s
  | [] => []
  end.

Definition strip_of (f : N → bool) (s : str) : str :=
  reverse (lstrip_of f (reverse (lstrip_of f s))).

(** [s.strip()] *)
Definition strip (s : str) : str := strip_of isspace s.

(** [s[a:b]] for non-negative literal bounds: out-of-range bounds are
    clamped, never an error. [s[a:]] is [drop a s], [s[:b]] is [take b s]. *)
Definition slice (a b : nat) (s : str) : str := drop a (take b s).

(** [s.startswith(p)] *)
Fixpoint startswith (p s : str) : bool :=
  match p, s with
  | [], _ => true
  | _ :: _, [] => false
  | a :: p', c :: s' => (a =? c)%N && startswith p' s'
  end.

(** [s.replace(old, new)] for one-character [old] and [new]. *)
Definition replace1 (old new : N) (s : str) : str :=
  (λ c, if (c =? old)%N then new else c) <$> s.

(** ** [formater_ligne] *)

(** The dictionary [formats_map] of the source: format code to rule. A rule
    returns [None] when the digit run is too short. *)
Definition formats_map : gmap (list N) (list N → option (list N)) :=
  <[u "3100" := λ n, Some n]>
  (<[u "3101" := λ n, if 5 <? length n
                      then Some (take 5 n ++ u "," ++ drop 5 n) else None]>
  (<[u "3102" := λ n, if 4 <? length n
                      then Some (take 4 n ++ u "," ++ drop 4 n) else None]>
  (<[u "3103" := λ n, if 3 <? length n
                      then Some (take 3 n ++ u "," ++ drop 3 n) else None]>
  (<[u "3104" := λ n, if 2 <? length n
                      then Some (take 2 n ++ u "," ++ drop 2 n) else None]>
  (<[u "3105" := λ n, if 1 <? length n
                      then Some (take 1 n ++ u "," ++ drop 1 n) else None]>
   ∅))))).

Definition formater_ligne (ligne : option str) : option str :=
  match ligne with
  | None => None
  | Some ligne =>
    let chaine := strip ligne in
    if length chaine =? 13 then
      let extrait := slice 7 12 chaine in
      if 5 <=? length extrait
      then Some (slice 0 2 extrait ++ u "," ++ drop 2 extrait)
      else None
    else if length chaine <? 26 then None
    else
      let sous_chaine := slice 16 26 chaine in
      if negb (startswith (u "310") sous_chaine) then None
      else
        let prefixe := slice 0 4 sous_chaine in
        let nombre := drop 4 sous_chaine in
        match formats_map !! prefixe with
        | None => None
        | Some fonction_fmt => fonction_fmt nombre
        end
  end.

(** ** The Python runtime used by the date decoder *)

(** Code points of the digit zero of every decimal-digit block (Unicode
    general category Nd, Unicode 14.0 as shipped with CPython 3.11); each of
    them starts a run of ten consecutive digits 0..9. *)
Definition nd_zeros : list N :=
  [48; 1632; 1776; 1984; 2406; 2534; 2662; 2790; 2918; 3046; 3174; 3302;
   3430; 3558; 3664; 3792; 3872; 4160; 4240; 6112; 6160; 6470; 6608; 6784;
   6800; 6992; 7088; 7232; 7248; 42528; 43216; 43264; 43472; 43504; 43600;
   44016; 65296; 66720; 68912; 69734; 69872; 69942; 70096; 70384; 70736;
   70864; 71248; 71360; 71472; 71904; 72016; 72784; 73040; 73120; 92768;
   92864; 93008; 120782; 120792; 120802; 120812; 120822; 123200; 123632;
   125264; 130032]%N.

(** [Py_UNICODE_TODECIMAL]: the value of a decimal digit, [None] for any
    other character. *)
Definition decimal (c : N) : option N :=
  (λ z, c - z)%N <$> find (λ z, (z <=? c) && (c <? z + 10))%N nd_zeros.

(** What [\d] matches in a [str] pattern. *)
Definition isdecimal (c : N) : bool :=
  match decimal c with Some _ => true | None => false end.

(** *** [re.search] for patterns made of single-character atoms *)

Inductive atom :=
  | Lit (c : N)   (* a literal character *)
  | Digit.        (* \d *)

Definition atom_matches (a : atom) (c : N) : bool :=
  match a with
  | Lit x => (x =? c)%N
  | Digit => isdecimal c
  end.

(** Does the pattern match at the start of [s]? *)
Fixpoint match_at (p : list atom) (s : str) : bool :=
  match p, s with
  | [], _ => true
  | _ :: _, [] => false
  | a :: p', c :: s' => atom_matches a c && match_at p' s'
  end.

(** Start index of the leftmost match, as [re.search] finds it. *)
Fixpoint search (p : list atom) (s : str) : option nat :=
  if match_at p s then Some 0
  else match s with
       | [] => None
       | _ :: s' => S <$> search p s'
       end.

(** The pattern [r"15(\d{6})"]; its group 1 spans offsets 2..8 of the
    match. *)
Definition motif_dlc : list atom :=
  [Lit 49; Lit 53] ++ replicate 6 Digit.

(** [re.search(r"15(\d{6})", reste)] followed by [match.group(1)]. *)
Definition re_search_dlc (reste : str) : option str :=
  i ← search motif_dlc reste;
  Some (slice (i + 2) (i + 8) reste).

(** *** [int(s)] in base 10 *)

(** [_PyUnicode_TransformDecimalAndSpaceToASCII], one character: ASCII is
    kept, other white space becomes a blank, other decimal digits become
    ASCII digits. CPython replaces any other character by ['?'] and cuts the
    string there, which no number syntax accepts: the model fails at once. *)
Definition to_ascii_char (c : N) : option N :=
  if (c <? 127)%N then Some c
  else if isspace c then Some 32%N
  else (λ d, 48 + d)%N <$> decimal c.

Definition to_ascii (s : str) : option str := mapM to_ascii_char s.

(** [Py_ISSPACE] *)
Definition ascii_isspace (c : N) : bool :=
  ((9 <=? c) && (c <=? 13) || (c =? 32))%N.

Definition ascii_strip (s : str) : str := strip_of ascii_isspace s.

Definition is_ascii_digit (c : N) : bool := ((48 <=? c) && (c <=? 57))%N.

(** Underscores in numeric literals: each one must stand between two digits;
    the result is the text without them. [prev] is the character before
    [s]. *)
Fixpoint strip_underscores_from (prev : option N) (s : str) : option str :=
  match s with
  | [] => if bool_decide (prev = Some 95%N) then None else Some []
  | c :: s' =>
    if (c =? 95)%N then
      match prev with
      | Some p => if is_ascii_digit p
                  then strip_underscores_from (Some c) s' else None
      | None => None
      end
    else if bool_decide (prev = Some 95%N) && negb (is_ascii_digit c)
    then None
    else (c ::.) <$> strip_underscores_from (Some c) s'
  end.

Definition strip_underscores (s : str) : option str :=
  strip_underscores_from None s.

(** A leading sign: [true] for ['-']. *)
Definition split_sign (s : str) : bool * str :=
  match s with
  | c :: s' =>
    if (c =? 45)%N then (true, s')
    else if (c =? 43)%N then (false, s')
    else (false, s)
  | [] => (false, s)
  end.

(** The longest prefix of ASCII digits, and the rest. *)
Fixpoint span_digits (s : str) : str * str :=
  match s with
  | c :: s' =>
    if is_ascii_digit c
    then let '(d, r) := span_digits s' in (c :: d, r)
    else ([], s)
  | [] => ([], [])
  end.

(** The number a run of ASCII digits denotes. *)
Definition digits_value (ds : str) : N :=
  foldl (λ acc c, 10 * acc + (c - 48))%N 0%N ds.

(** [int(s)]: [None] stands for [ValueError]. *)
Definition py_int (s : str) : option Z :=
  a ← to_ascii s;
  let '(neg, t) := split_sign (ascii_strip a) in
  d ← strip_underscores t;
  let '(ds, r) := span_digits d in
  if bool_decide (ds ≠ [] ∧ r = [])
  then Some (if neg then - Z.of_N (digits_value ds)
             else Z.of_N (digits_value ds))%Z
  else None.

(** *** [datetime(year, month, day)] *)

Record date := { year : Z; month : Z; day : Z }.

Definition is_leap (y : Z) : bool :=
  ((y mod 4 =? 0) && (negb (y mod 100 =? 0) || (y mod 400 =? 0)))%Z.

Definition _DAYS_IN_MONTH : list Z :=
  [31; 28; 31; 30; 31; 30; 31; 31; 30; 31; 30; 31]%Z.

Definition days_in_month (y m : Z) : Z :=
  if (m =? 2)%Z && is_leap y then 29%Z
  else default 0%Z (_DAYS_IN_MONTH !! Z.to_nat (m - 1)).

(** The constructor checks its fields; [None] stands for [ValueError]. *)
Definition datetime (y m d : Z) : option date :=
  if ((1 <=? y) && (y <=? 9999) && (1 <=? m) && (m <=? 12)
      && (1 <=? d) && (d <=? days_in_month y m))%Z
  then Some {| year := y; month := m; day := d |}
  else None.

(** *** The format specification [0Nd] *)

Fixpoint uint_digits (d : Decimal.uint) : str :=
  match d with
  | Decimal.Nil => []
  | Decimal.D0 d => 48%N :: uint_digits d
  | Decimal.D1 d => 49%N :: uint_digits d
  | Decimal.D2 d => 50%N :: uint_digits d
  | Decimal.D3 d => 51%N :: uint_digits d
  | Decimal.D4 d => 52%N :: uint_digits d
  | Decimal.D5 d => 53%N :: uint_digits d
  | Decimal.D6 d => 54%N :: uint_digits d
  | Decimal.D7 d => 55%N :: uint_digits d
  | Decimal.D8 d => 56%N :: uint_digits d
  | Decimal.D9 d => 57%N :: uint_digits d
  end.

(** [str(n)] for a natural number. *)
Definition str_of_N (n : N) : str := uint_digits (N.to_uint n).

(** [format(n, "0<width>d")]: sign, then zeros up to the width. *)
Definition format_0d (width : nat) (n : Z) : str :=
  let ds := str_of_N (Z.abs_N n) in
  if (n <? 0)%Z
  then u "-" ++ replicate (width - 1 - length ds) 48%N ++ ds
  else replicate (width - length ds) 48%N ++ ds.

(** ** [extraire_dlc_from_scan] *)

(** The end of the function, from the matched group on: the [try] block
    that builds the date, and the rendering of the date. *)
Definition dlc_of_yymmjj (yymmjj : str) : option str :=
  (* try: ... except Exception: return None *)
  match
    aa ← py_int (slice 0 2 yymmjj);
    mois ← py_int (slice 2 4 yymmjj);
    jour ← py_int (slice 4 6 yymmjj);
    let annee := (2000 + aa)%Z in
    datetime annee mois jour
  with
  | None => None
  | Some date_obj =>
    Some (format_0d 2 (day date_obj) ++ u "/"
          ++ format_0d 2 (month date_obj) ++ u "/"
          ++ format_0d 4 (year date_obj))
  end.

Definition extraire_dlc_from_scan (texte : option str) : option str :=
  match texte with
  | None => None
  | Some texte =>
    let texte_nettoye := strip texte in
    if length texte_nettoye <=? 26 then None
    else
      let reste := drop 26 texte_nettoye in
      match re_search_dlc reste with
      | None => None
      | Some yymmjj => dlc_of_yymmjj yymmjj
      end
  end.

(** ** Floating point: IEEE 754 binary64

    A Python [float] is a binary64 number: [spec_float] with a 53-bit
    significand, rounding to nearest, ties to even. *)

Abbreviation float := spec_float.

Definition prec : Z := 53.
Definition emax : Z := 1024.

Definition fadd : float → float → float := SFadd prec emax.
Definition flt : float → float → bool := SFltb.

(** The binary64 number nearest to [m * 10^e] (or to its opposite): one
    rounding of the exact integer, or of the exact quotient. *)
Definition float_of_decimal (neg : bool) (m : N) (e : Z) : float :=
  match m with
  | N0 => S754_zero neg
  | Npos p =>
    if (0 <=? e)%Z
    then binary_round prec emax neg (Z.to_pos (Zpos p * 10 ^ e)) 0
    else
      let '(q, e', l) :=
        SFdiv_core_binary prec emax (Zpos p) 0 (10 ^ (- e)) 0 in
      binary_round_aux prec emax neg q e' l
  end.

(** The float literals of the source. *)
Definition f_0_0 : float := S754_zero false.
Definition f_50 : float := float_of_decimal false 50 0.
Definition f_0_01 : float := float_of_decimal false 1 (-2).

(** *** [float(s)] *)

Definition ascii_lower (c : N) : N :=
  if ((65 <=? c) && (c <=? 90))%N then (c + 32)%N else c.

(** ["inf"], ["infinity"] and ["nan"], signed, in any letter case. *)
Definition parse_inf_or_nan (s : str) : option float :=
  let '(neg, t) := split_sign s in
  let t := ascii_lower <$> t in
  if bool_decide (t = u "inf" ∨ t = u "infinity")
  then Some (S754_infinity neg)
  else if bool_decide (t = u "nan") then Some S754_nan
  else None.

(** An exponent part [e[sign]digits] at the start of [s], if there is one:
    its value and what follows it. *)
Definition split_exponent (s : str) : Z * str :=
  match s with
  | c :: t =>
    if ((c =? 101) || (c =? 69))%N then
      let '(eneg, t1) := split_sign t in
      let '(ed, t2) := span_digits t1 in
      if bool_decide (ed = []) then (0%Z, s)
      else ((if eneg then - Z.of_N (digits_value ed)
             else Z.of_N (digits_value ed))%Z, t2)
    else (0%Z, s)
  | [] => (0%Z, s)
  end.

(** The decimal number at the start of [s] and what follows it; [None] when
    there is no digit to convert. *)
Definition strtod (s : str) : option (float * str) :=
  let '(neg, s1) := split_sign s in
  let '(ip, s2) := span_digits s1 in
  let '(fp, s3) :=
    match s2 with
    | 46%N :: t => span_digits t
    | _ => ([], s2)
    end in
  if bool_decide (ip = [] ∧ fp = []) then None
  else
    let '(ex, s4) := split_exponent s3 in
    Some (float_of_decimal neg (digits_value (ip ++ fp))
            (ex - Z.of_nat (length fp)), s4).

(** [float(s)]: [None] stands for [ValueError]. *)
Definition py_float (s : str) : option float :=
  a ← to_ascii s;
  d ← strip_underscores (ascii_strip a);
  match strtod d with
  | Some (x, []) => Some x
  | Some (_, _ :: _) => None
  | None => parse_inf_or_nan d
  end.

(** ** [valeur_formatee_vers_float] *)

Definition valeur_formatee_vers_float (valeur : option str) : float :=
  match valeur with
  | None => f_0_0
  | Some valeur =>
    let chaine := strip valeur in
    if bool_decide (chaine = []) then f_0_0
    else
      let chaine := replace1 44 46 chaine in
      match py_float chaine with
      | Some x => x
      | None => f_0_0   (* except ValueError *)
      end
  end.

(** ** [mettre_a_jour_total] *)

(** The format specification [.<p>f]: the exact value rounded to [p]
    decimals, ties to even. *)
Definition round_half_even_div (n d : Z) : Z :=
  let q := (n / d)%Z in
  match (2 * (n mod d) ?= d)%Z with
  | Lt => q
  | Gt => (q + 1)%Z
  | Eq => if Z.even q then q else (q + 1)%Z
  end.

Definition format_f (p : nat) (x : float) : str :=
  let signe (s : bool) : str := if s then u "-" else [] in
  let fixe (n : Z) : str :=
    str_of_N (Z.to_N (n / 10 ^ Z.of_nat p))
    ++ (if p is O then []
        else u "." ++ format_0d p (n mod 10 ^ Z.of_nat p)) in
  match x with
  | S754_nan => u "nan"
  | S754_infinity s => signe s ++ u "inf"
  | S754_zero s => signe s ++ fixe 0%Z
  | S754_finite s m e =>
    signe s ++
    fixe (if (0 <=? e)%Z then Zpos m * 2 ^ e * 10 ^ Z.of_nat p
          else round_half_even_div (Zpos m * 10 ^ Z.of_nat p) (2 ^ (- e)))%Z
  end.

(** The local variables of the loop. *)
Record etat := { total : float; premiere_ligne_erreur : option nat }.

(** A non-empty string is true. *)
Definition truthy (s : str) : bool := negb (bool_decide (s = [])).

(** One iteration, for row [r] whose weight cell is [cellule] ([None] when
    the table has no item there, otherwise the text of the item). *)
Definition iteration (st : etat) (r : nat) (cellule : option str) : etat :=
  match cellule with
  | None => st
  | Some t =>
    let texte := strip t in
    if bool_decide (texte = []) then st
    else
      let formate := formater_ligne (Some texte) in
      let valeur :=
        match formate with
        | Some f => if truthy f then valeur_formatee_vers_float (Some f)
                    else valeur_formatee_vers_float (Some texte)
        | None => valeur_formatee_vers_float (Some texte)
        end in
      {| total := fadd (total st) valeur;
         premiere_ligne_erreur :=
           if (flt f_50 valeur || flt f_0_0 valeur && flt valeur f_0_01)
              && bool_decide (premiere_ligne_erreur st = None)
           then Some (r + 1)
           else premiere_ligne_erreur st |}
  end.

(** [for r in range(self.table.rowCount())], from row [r] on. *)
Fixpoint boucle (r : nat) (lignes : list (option str)) (st : etat) : etat :=
  match lignes with
  | [] => st
  | cellule :: lignes' => boucle (S r) lignes' (iteration st r cellule)
  end.

(** What the function writes: the text of the total field and of the
    comment label. *)
Record affichage := { champ_total : str; etiquette_commentaire : str }.

Definition calculer_total (lignes : list (option str)) : etat :=
  boucle 0 lignes {| total := f_0_0; premiere_ligne_erreur := None |}.

Definition mettre_a_jour_total (lignes : list (option str)) : affichage :=
  let st := calculer_total lignes in
  {| champ_total := u "Totale : " ++ format_f 3 (total st);
     etiquette_commentaire :=
       match premiere_ligne_erreur st with
       | Some n => u "Erreur de saisie ligne " ++ str_of_N (N.of_nat n)
       | None => []
       end |}.

(** * Specification-level definitions

    Notions the specification uses to describe the results; the properties
    below relate them to the functions above. *)

(** Empty, or starting with a character outside the class [f]. *)
Definition clean_head (f : N → bool) (s : str) : Prop :=
  match s with [] => True | c :: _ => f c = false end.

(** The decimal rules as the specification words them: the comma goes after
    position [p] of the digit run, which must be strictly longer than [p]. *)
Definition insert_comma (p : nat) (n : str) : option str :=
  if decide (p < length n) then Some (take p n ++ u "," ++ drop p n)
  else None.

Definition decimal_rule (code n : str) : option str :=
  if decide (code = u "3100") then Some n
  else if decide (code = u "3101") then insert_comma 5 n
  else if decide (code = u "3102") then insert_comma 4 n
  else if decide (code = u "3103") then insert_comma 3 n
  else if decide (code = u "3104") then insert_comma 2 n
  else if decide (code = u "3105") then insert_comma 1 n
  else None.

(** The shape the specification gives a weight string: exactly one comma,
    and at least one digit on each side of it. *)
Definition count_commas (s : str) : nat :=
  length (filter (λ c, c = 44%N) s).

Definition well_formed_weight (s : str) : Prop :=
  count_commas s = 1
  ∧ ∃ a b, s = a ++ u "," ++ b ∧ Exists isdecimal a ∧ Exists isdecimal b.

(** The pattern "15" followed by six digits occurs in [reste] at offset [i],
    with the digits [g]. *)
Definition occurs_at (reste : str) (i : nat) (g : str) : Prop :=
  ∃ pre post,
    reste = pre ++ u "15" ++ g ++ post
    ∧ length pre = i ∧ length g = 6 ∧ Forall isdecimal g.

(** ... and it occurs at no smaller offset. *)
Definition first_occurrence (reste : str) (i : nat) (g : str) : Prop :=
  occurs_at reste i g ∧ ∀ j g', j < i → ¬ occurs_at reste j g'.

(** The six digits read as YYMMDD: three two-digit numbers. *)
Definition digit_pair (a b : N) : Z :=
  Z.of_N (10 * default 0 (decimal a) + default 0 (decimal b))%N.

Definition yymmdd (g : str) : Z * Z * Z :=
  match g with
  | [a; b; c; d; e; f] => (digit_pair a b, digit_pair c d, digit_pair e f)
  | _ => (0, 0, 0)%Z
  end.

(** The dates of the Gregorian calendar. *)
Definition leap_year (y : Z) : Prop :=
  (y mod 4 = 0 ∧ (y mod 100 ≠ 0 ∨ y mod 400 = 0))%Z.

Definition real_calendar_date (y m d : Z) : Prop :=
  (1 ≤ d
   ∧ ((m = 1 ∨ m = 3 ∨ m = 5 ∨ m = 7 ∨ m = 8 ∨ m = 10 ∨ m = 12) ∧ d ≤ 31
      ∨ (m = 4 ∨ m = 6 ∨ m = 9 ∨ m = 11) ∧ d ≤ 30
      ∨ m = 2 ∧ (d ≤ 28 ∨ d = 29 ∧ leap_year y)))%Z.

(** A number below 100 written with two digits, a number below 10000 with
    four. *)
Definition two_digits (n : Z) : str :=
  [Z.to_N (48 + n / 10); Z.to_N (48 + n mod 10)]%Z.

Definition four_digits (n : Z) : str :=
  [Z.to_N (48 + n / 1000); Z.to_N (48 + n / 100 mod 10);
   Z.to_N (48 + n / 10 mod 10); Z.to_N (48 + n mod 10)]%Z.

(** Finite (neither an infinity nor a NaN), and not below zero. *)
Definition is_finite (x : float) : bool :=
  match x with
  | S754_zero _ | S754_finite _ _ _ => true
  | _ => false
  end.

Definition finite_nonneg (x : float) : bool :=
  is_finite x && SFleb f_0_0 x.


(** The ASCII digits that [int] and [float] read in place of a run of
    decimal digits. *)
Definition ascii_digits (g : str) : str :=
  (λ c, 48 + default 0 (decimal c))%N <$> g.

(** The aggregation as the specification words it. An entry is skipped when
    it has no weight text or a blank one; otherwise its effective weight
    text is the decoder's output when the decoder matches and the raw text
    when it does not, and its normalized value is the value of that text. *)
Definition effective_text (t : str) : str :=
  match formater_ligne (Some t) with
  | Some w => w
  | None => t
  end.

Definition normalized (cellule : option str) : option float :=
  match cellule with
  | None => None
  | Some t =>
    if bool_decide (strip t = []) then None
    else Some (valeur_formatee_vers_float (Some (effective_text t)))
  end.

(** Greater than 50, or strictly between 0 and 0.01. *)
Definition anomalous (v : float) : bool :=
  flt f_50 v || flt f_0_0 v && flt v f_0_01.

Definition anomalous_entry (cellule : option str) : bool :=
  match normalized cellule with
  | Some v => anomalous v
  | None => false
  end.

(** The sum of a sequence of floats, accumulated from 0.0 in their order. *)
Definition float_sum (vs : list float) : float := foldl fadd f_0_0 vs.

(** The entries of the specification's example: weight texts whose
    normalized values are 3.0, 0.005 and 10.0. *)
Definition exemple_lignes : list (option str) :=
  [Some (u "3,0"); Some (u "0,005"); Some (u "10,0")].

(** * The table and the window

    The rest of [pv-scanner.py]: the table widget [TablePV] and the methods
    of the main window [FenetrePrincipalePV] that read or change it. *)

(** ** More of the Python runtime *)

(** The line boundaries of [str.splitlines]. *)
Definition is_linebreak (c : N) : bool :=
  ((10 <=? c) && (c <=? 13) || (28 <=? c) && (c <=? 30)
   || (c =? 133) || (c =? 8232) || (c =? 8233))%N.

(** [s.splitlines()]; [cur] is the line being read. A carriage return
    followed by a line feed is one boundary, and the text after the last
    boundary is a line only when it is not empty. *)
Fixpoint splitlines_from (cur : str) (s : str) : list str :=
  match s with
  | [] => if bool_decide (cur = []) then [] else [cur]
  | c :: s' =>
    if is_linebreak c then
      cur :: match s' with
             | c' :: s'' =>
               if ((c =? 13) && (c' =? 10))%N then splitlines_from [] s''
               else splitlines_from [] s'
             | [] => []
             end
    else splitlines_from (cur ++ [c]) s'
  end.

Definition splitlines (s : str) : list str := splitlines_from [] s.

(** *** [csv.writer] with the default dialect

    Fields are separated by commas and records end with "\r\n"; a field
    that holds a comma, a double quote, a carriage return or a line feed is
    put between double quotes, with its double quotes doubled. *)
Definition csv_special (c : N) : bool :=
  ((c =? 44) || (c =? 34) || (c =? 13) || (c =? 10))%N.

Definition csv_field (f : str) : str :=
  if existsb csv_special f
  then [34%N] ++ (f ≫= λ c, if (c =? 34)%N then [c; c] else [c]) ++ [34%N]
  else f.

Fixpoint csv_join (fields : list str) : str :=
  match fields with
  | [] => []
  | [f] => f
  | f :: fields' => f ++ u "," ++ csv_join fields'
  end.

(** [writer.writerow(fields)]: the text written. A record made of one empty
    field is written as two double quotes. *)
Definition csv_writerow (fields : list str) : str :=
  (if bool_decide (fields = [[]]) then [34; 34]%N
   else csv_join (csv_field <$> fields)) ++ [13; 10]%N.

(** ** The table widget

    A [QTableWidget] with the two columns "Poids en kg" and "DLC" (the
    program never gives the table another number of columns): each row
    holds the items of columns 0 and 1, [None] where the cell has no item
    and the text of the item otherwise. *)
Record ligne_table := { poids : option str; dlc : option str }.

Abbreviation tableau := (list ligne_table).

Definition ligne_sans_item : ligne_table := {| poids := None; dlc := None |}.

(** [table.setRowCount(n)]: rows are cut at the end, or added without
    items. *)
Definition setRowCount (n : nat) (t : tableau) : tableau :=
  take n t ++ replicate (n - length t) ligne_sans_item.

(** [table.item(r, c)] *)
Definition item (t : tableau) (r c : nat) : option str :=
  ligne ← t !! r;
  match c with
  | 0 => poids ligne
  | 1 => dlc ligne
  | _ => None
  end.

(** [table.setItem(r, c, QTableWidgetItem(texte))] while the signals of the
    table are blocked; a cell outside the table is not set. *)
Definition setItem_bloque (r c : nat) (texte : str) (t : tableau) : tableau :=
  alter (λ ligne,
           match c with
           | 0 => {| poids := Some texte; dlc := dlc ligne |}
           | 1 => {| poids := poids ligne; dlc := Some texte |}
           | _ => ligne
           end) r t.

(** [table.clearContents()]: every item is removed, the rows stay. *)
Definition clearContents (t : tableau) : tableau :=
  (λ _, ligne_sans_item) <$> t.

(** The test the program applies to a weight cell: no item, or a blank
    text. *)
Definition poids_vide (ligne : ligne_table) : bool :=
  match poids ligne with
  | None => true
  | Some texte => bool_decide (strip texte = [])
  end.

(** ** The window

    The calls [QTimer.singleShot(0, f)] that have not run yet are kept in
    the order they were made. *)
Inductive tache :=
  | Assurer_ligne_vide
  | Mettre_a_jour_total
  | Focaliser_champ_scan.

Record fenetre := {
  w_table : tableau;
  w_champ_scan : str;               (* champ_scan.text() *)
  w_champ_total : str;              (* champ_total.text() *)
  w_etiquette_commentaire : str;    (* etiquette_commentaire.text() *)
  w_minuteries : list tache
}.

Definition avec_table (t : tableau) (w : fenetre) : fenetre :=
  {| w_table := t; w_champ_scan := w_champ_scan w;
     w_champ_total := w_champ_total w;
     w_etiquette_commentaire := w_etiquette_commentaire w;
     w_minuteries := w_minuteries w |}.

Definition singleShot (taches : list tache) (w : fenetre) : fenetre :=
  {| w_table := w_table w; w_champ_scan := w_champ_scan w;
     w_champ_total := w_champ_total w;
     w_etiquette_commentaire := w_etiquette_commentaire w;
     w_minuteries := w_minuteries w ++ taches |}.

(** [lors_changement_cellule(ligne, colonne)], the slot of [cellChanged].
    It blocks the signals of the table around its own [setItem] calls. *)
Definition lors_changement_cellule (ligne colonne : nat) (w : fenetre)
  : fenetre :=
  match item (w_table w) ligne colonne with
  | None => w
  | Some texte =>
    if bool_decide (strip texte = []) then
      let t :=
        if colonne =? 0 then setItem_bloque ligne 1 [] (w_table w)
        else w_table w in
      singleShot [Assurer_ligne_vide; Mettre_a_jour_total] (avec_table t w)
    else
      let t :=
        if colonne =? 0 then
          let t0 := w_table w in
          let t1 :=
            match formater_ligne (Some texte) with
            | Some formate =>
              if truthy formate then setItem_bloque ligne 0 formate t0
              else t0
            | None => t0
            end in
          match extraire_dlc_from_scan (Some texte) with
          | Some d =>
            if truthy d then setItem_bloque ligne 1 d t1
            else match item t1 ligne 1 with
                 | None => setItem_bloque ligne 1 [] t1
                 | Some _ => t1
                 end
          | None =>
            match item t1 ligne 1 with
            | None => setItem_bloque ligne 1 [] t1
            | Some _ => t1
            end
          end
        else w_table w in
      singleShot [Assurer_ligne_vide; Focaliser_champ_scan;
                  Mettre_a_jour_total] (avec_table t w)
  end.

(** [table.setItem(r, c, QTableWidgetItem(texte))] while the signals are not
    blocked: the cell is set, [cellChanged] is emitted and its slot runs. *)
Definition setItem (r c : nat) (texte : str) (w : fenetre) : fenetre :=
  if (r <? length (w_table w)) && (c <? 2)
  then lors_changement_cellule r c
         (avec_table (setItem_bloque r c texte (w_table w)) w)
  else w.

(** [TablePV.assurer_ligne_vide] *)
Definition assurer_ligne_vide (w : fenetre) : fenetre :=
  let derniere_ligne := (Z.of_nat (length (w_table w)) - 1)%Z in
  if (derniere_ligne <? 0)%Z then
    setItem 0 1 [] (avec_table (setRowCount 1 (w_table w)) w)
  else
    let w1 :=
      match item (w_table w) (Z.to_nat derniere_ligne) 0 with
      | Some texte =>
        if negb (bool_decide (strip texte = [])) then
          let w' :=
            avec_table (setRowCount (length (w_table w) + 1) (w_table w)) w in
          setItem (length (w_table w') - 1) 1 [] w'
        else w
      | None => w
      end in
    if length (w_table w1) =? 0 then
      setItem 0 1 [] (avec_table (setRowCount 1 (w_table w1)) w1)
    else w1.

(** [FenetrePrincipalePV.mettre_a_jour_total]: the loop over the weight
    column, and the two texts it sets. *)
Definition mettre_a_jour_total_fenetre (w : fenetre) : fenetre :=
  let a := mettre_a_jour_total (poids <$> w_table w) in
  {| w_table := w_table w; w_champ_scan := w_champ_scan w;
     w_champ_total := champ_total a;
     w_etiquette_commentaire := etiquette_commentaire a;
     w_minuteries := w_minuteries w |}.

(** The cell texts a scanned line is stored as: the decoded weight, or the
    text itself when the decoder does not match, and the decoded date, or
    an empty text. *)
Definition texte_poids (texte : str) : str :=
  match formater_ligne (Some texte) with
  | Some formate => if truthy formate then formate else texte
  | None => texte
  end.

Definition texte_dlc (texte : str) : str :=
  match extraire_dlc_from_scan (Some texte) with
  | Some d => if truthy d then d else []
  | None => []
  end.

(** [inserer_ligne_scannee(ligne)]. The second component is [est_erreur],
    which selects the sound and the colour of the flash ([None] when the
    method returns before any feedback). *)
Definition inserer_ligne_scannee (ligne : option str) (w : fenetre)
  : fenetre * option bool :=
  match ligne with
  | None => (w, None)
  | Some ligne =>
    let texte := strip ligne in
    if bool_decide (texte = []) then (w, None)
    else
      let '(ligne_cible, t) :=
        match list_find poids_vide (w_table w) with
        | Some (r, _) => (r, w_table w)
        | None =>
          (length (w_table w),
           setRowCount (length (w_table w) + 1) (w_table w))
        end in
      let t := setItem_bloque ligne_cible 0 (texte_poids texte) t in
      let t := setItem_bloque ligne_cible 1 (texte_dlc texte) t in
      let w := assurer_ligne_vide (avec_table t w) in
      let w := mettre_a_jour_total_fenetre w in
      let est_erreur :=
        negb (bool_decide (strip (w_etiquette_commentaire w) = [])) in
      (w, Some est_erreur)
  end.

(** The colour [inserer_ligne_scannee] passes to [flash_visuel]. *)
Definition couleur_flash (est_erreur : bool) : str :=
  if est_erreur then u "#ff4d4d" else u "#4df164".

Definition vider_champ_scan (w : fenetre) : fenetre :=
  {| w_table := w_table w; w_champ_scan := [];
     w_champ_total := w_champ_total w;
     w_etiquette_commentaire := w_etiquette_commentaire w;
     w_minuteries := w_minuteries w |}.

(** Every line of a text goes through [inserer_ligne_scannee]. *)
Definition inserer_lignes (lignes : list str) (w : fenetre) : fenetre :=
  foldl (λ w ligne, (inserer_ligne_scannee (Some ligne) w).1) w lignes.

(** [lors_retour_scan] *)
Definition lors_retour_scan (w : fenetre) : fenetre :=
  let texte := w_champ_scan w in
  let lignes := splitlines texte in
  singleShot [Focaliser_champ_scan]
    (vider_champ_scan (inserer_lignes lignes w)).

(** [eventFilter], for a paste (Ctrl+V or Cmd+V) in the scan field with
    [presse_papiers] as the text of the clipboard. [None]: the event is
    left to the default handling. *)
Definition coller_dans_champ_scan (presse_papiers : str) (w : fenetre)
  : option fenetre :=
  if truthy presse_papiers then
    Some (singleShot [Focaliser_champ_scan]
            (vider_champ_scan (inserer_lignes (splitlines presse_papiers) w)))
  else None.

(** The loop of [TablePV.keyPressEvent] over the pasted lines, from row
    [ligne] on. *)
Fixpoint coller_lignes (ligne : nat) (lignes : list str) (t : tableau)
  : tableau :=
  match lignes with
  | [] => t
  | origine :: lignes' =>
    let t := setItem_bloque ligne 0 (texte_poids origine) t in
    let t := setItem_bloque ligne 1 (texte_dlc origine) t in
    coller_lignes (S ligne) lignes' t
  end.

(** [TablePV.keyPressEvent], for a paste in the table with [presse_papiers]
    as the text of the clipboard and [currentRow] as the current row (-1
    when there is none). [None]: the event is left to the default
    handling. *)
Definition coller_dans_table (presse_papiers : str) (currentRow : Z)
    (w : fenetre) : option fenetre :=
  if truthy presse_papiers then
    let lignes := splitlines presse_papiers in
    if 1 <? length lignes then
      let ligne_depart := Z.to_nat (if (currentRow <? 0)%Z then 0 else currentRow) in
      let necessaires :=
        (Z.of_nat ligne_depart + Z.of_nat (length lignes)
         - Z.of_nat (length (w_table w)))%Z in
      let t :=
        if (0 <? necessaires)%Z
        then setRowCount (length (w_table w) + Z.to_nat necessaires)
               (w_table w)
        else w_table w in
      let t := coller_lignes ligne_depart lignes t in
      Some (mettre_a_jour_total_fenetre (assurer_ligne_vide (avec_table t w)))
    else None
  else None.

(** A cell edited by hand: the editor commits [texte] to the cell. When
    the cell has an item that already holds this text nothing changes and
    [cellChanged] is not emitted; otherwise the text is stored (in a new
    item when the cell had none) and [cellChanged] is emitted. *)
Definition editer_cellule (r c : nat) (texte : str) (w : fenetre) : fenetre :=
  if bool_decide (item (w_table w) r c = Some texte) then w
  else setItem r c texte w.

(** [tout_effacer] *)
Definition tout_effacer (w : fenetre) : fenetre :=
  let t := clearContents (w_table w) in
  let t := setRowCount 1 t in
  let t := setItem_bloque 0 1 [] t in
  let w := assurer_ligne_vide (avec_table t w) in
  singleShot [Focaliser_champ_scan]
    {| w_table := w_table w; w_champ_scan := w_champ_scan w;
       w_champ_total := u "Totale : 0.000";
       w_etiquette_commentaire := [];
       w_minuteries := w_minuteries w |}.

(** [creer_csv_fichier]: the rows kept, and the text written to the file
    (which the file object then encodes as UTF-8 after a byte order
    mark). *)
Definition lignes_csv (t : tableau) : list (list str) :=
  t ≫= λ ligne,
    let texte_poids := default [] (poids ligne) in
    let texte_dlc := default [] (dlc ligne) in
    if bool_decide (strip texte_poids = []) && bool_decide (strip texte_dlc = [])
    then []
    else [[texte_poids; texte_dlc]].

Definition creer_csv_fichier (w : fenetre) : str :=
  csv_writerow [u "Poids en kg"; u "DLC"]
  ++ (lignes_csv (w_table w) ≫= csv_writerow).

(** ** The event loop

    One turn runs the oldest pending call; [boucle_evenements n] runs up to
    [n] of them and returns the window once none is left. *)
Definition executer (tch : tache) (w : fenetre) : fenetre :=
  match tch with
  | Assurer_ligne_vide => assurer_ligne_vide w
  | Mettre_a_jour_total => mettre_a_jour_total_fenetre w
  | Focaliser_champ_scan => w
  end.

Definition tour (w : fenetre) : option fenetre :=
  match w_minuteries w with
  | [] => None
  | tch :: reste =>
    Some (executer tch
            {| w_table := w_table w; w_champ_scan := w_champ_scan w;
               w_champ_total := w_champ_total w;
               w_etiquette_commentaire := w_etiquette_commentaire w;
               w_minuteries := reste |})
  end.

Fixpoint boucle_evenements (n : nat) (w : fenetre) : option fenetre :=
  match tour w with
  | None => Some w
  | Some w' =>
    match n with
    | O => None
    | S n' => boucle_evenements n' w'
    end
  end.

(** The window as [__init__] leaves it: one row with an empty DLC item, the
    initial texts, and the timer that gives the focus to the scan field. *)
Definition fenetre_initiale : fenetre :=
  {| w_table := [{| poids := None; dlc := Some [] |}];
     w_champ_scan := [];
     w_champ_total := u "Totale : 0.000";
     w_etiquette_commentaire := [];
     w_minuteries := [Focaliser_champ_scan] |}.

(** ** Notions used to state the properties of the table *)

(** A row added by [assurer_ligne_vide]: no weight item, an empty DLC
    item. *)
Definition ligne_dlc_vide : ligne_table := {| poids := None; dlc := Some [] |}.

(** The table ends with a row whose weight cell is empty. *)
Definition derniere_vide (t : tableau) : bool :=
  match last t with
  | Some ligne => poids_vide ligne
  | None => false
  end.

(** The rows whose weight cell holds a text that is not blank. *)
Definition remplie (ligne : ligne_table) : bool := negb (poids_vide ligne).

Definition nb_remplies (t : tableau) : nat := length (filter remplie t).

(** The two texts of the window are those [mettre_a_jour_total] computes
    from the table. *)
Definition affichage_a_jour (w : fenetre) : Prop :=
  w_champ_total w = champ_total (mettre_a_jour_total (poids <$> w_table w))
  ∧ w_etiquette_commentaire w
    = etiquette_commentaire (mettre_a_jour_total (poids <$> w_table w)).

(** The row a scanned text is stored as. *)
Definition ligne_scan (texte : str) : ligne_table :=
  {| poids := Some (texte_poids texte); dlc := Some (texte_dlc texte) |}.

(** The row a scan goes to: the first row whose weight cell is empty, or a
    new row after the last one. *)
Definition ligne_cible (t : tableau) : nat :=
  match list_find poids_vide t with
  | Some (r, _) => r
  | None => length t
  end.

(** The table once the two cells of the target row are set. *)
Definition placer (texte : str) (t : tableau) : tableau :=
  match list_find poids_vide t with
  | Some (r, _) => alter (λ _, ligne_scan texte) r t
  | None => t ++ [ligne_scan texte]
  end.

(** The row a weight cell edited to [texte] becomes once the slot of
    [cellChanged] has run, [l] being the row with the text just typed: the
    DLC is emptied with the weight, replaced by the date found in the
    text, and kept otherwise. *)
Definition ligne_editee (texte : str) (l : ligne_table) : ligne_table :=
  {| poids := Some (texte_poids texte);
     dlc := Some (if bool_decide (strip texte = []) then []
                  else match extraire_dlc_from_scan (Some texte) with
                       | Some d => d
                       | None => default [] (dlc l)
                       end) |}.

(** The calls the slot defers. *)
Definition taches_edition (texte : str) : list tache :=
  if bool_decide (strip texte = [])
  then [Assurer_ligne_vide; Mettre_a_jour_total]
  else [Assurer_ligne_vide; Focaliser_champ_scan; Mettre_a_jour_total].
(** [lors_clic_creer_csv], with [chemin] the path the file dialog returns
    (empty when the user cancels) and [ecriture] telling whether the file
    could be written. The second component is the text written. *)
Definition lors_clic_creer_csv (chemin : str) (ecriture : bool) (w : fenetre)
  : fenetre * option str :=
  if truthy chemin then
    if ecriture then
      (singleShot [Focaliser_champ_scan] (mettre_a_jour_total_fenetre w),
       Some (creer_csv_fichier w))
    else (w, None)
  else (w, None).

(** The user types in the scan field (or the scanner does). *)
Definition saisir (texte : str) (w : fenetre) : fenetre :=
  {| w_table := w_table w; w_champ_scan := texte;
     w_champ_total := w_champ_total w;
     w_etiquette_commentaire := w_etiquette_commentaire w;
     w_minuteries := w_minuteries w |}.

(** ** The runs of the program

    One step is one event handled by the window: a key typed in the scan
    field, RETURN in the scan field, a paste in the scan field or in the
    table, a cell edited, the buttons "Nettoyer" (confirmed) and
    "Créer CSV", or a deferred call that runs. The events may come in any
    order: in particular a deferred call may still be pending when the next
    key arrives. *)
Inductive pas : fenetre → fenetre → Prop :=
  | pas_saisie texte w :
      pas w (saisir texte w)
  | pas_retour w :
      pas w (lors_retour_scan w)
  | pas_coller_champ presse_papiers w w' :
      coller_dans_champ_scan presse_papiers w = Some w' → pas w w'
  | pas_coller_table presse_papiers currentRow w w' :
      coller_dans_table presse_papiers currentRow w = Some w' → pas w w'
  | pas_edition r c texte w :
      pas w (editer_cellule r c texte w)
  | pas_effacer w :
      pas w (tout_effacer w)
  | pas_csv chemin ecriture w :
      pas w (lors_clic_creer_csv chemin ecriture w).1
  | pas_minuterie w w' :
      tour w = Some w' → pas w w'.

Inductive atteignable : fenetre → Prop :=
  | atteignable_initiale : atteignable fenetre_initiale
  | atteignable_pas w w' : atteignable w → pas w w' → atteignable w'.

(** What holds in every state of a run: a table that does not end with an
    empty row, or texts that are not those of the table, are transient,
    the call that repairs them being pending. *)
Definition invariant (w : fenetre) : Prop :=
  (derniere_vide (w_table w) = true
   ∨ Assurer_ligne_vide ∈ w_minuteries w)
  ∧ (affichage_a_jour w ∨ Mettre_a_jour_total ∈ w_minuteries w).

(** ** Reading a CSV text back

    A reader for the format of RFC 4180, used to state what the exported
    file holds: fields separated by commas, records ended by "\r\n", a
    field either without comma, double quote and line break, or between
    double quotes with its double quotes doubled. [champs] are the fields
    of the record read so far and [champ] the characters of the field
    being read; a text that does not follow the format is rejected. *)
Inductive etat_lecture :=
  | Debut_champ
  | Champ_nu
  | Champ_guillemets
  | Guillemet_vu
  | Retour_vu.

Fixpoint csv_lire_depuis (e : etat_lecture) (champs : list str) (champ : str)
    (s : str) : option (list (list str)) :=
  match s with
  | [] =>
    match e, champs with
    | Debut_champ, [] => Some []
    | _, _ => None
    end
  | c :: s' =>
    match e with
    | Debut_champ =>
      if (c =? 34)%N then csv_lire_depuis Champ_guillemets champs [] s'
      else if (c =? 44)%N then csv_lire_depuis Debut_champ (champs ++ [[]]) [] s'
      else if (c =? 13)%N then csv_lire_depuis Retour_vu (champs ++ [[]]) [] s'
      else if (c =? 10)%N then None
      else csv_lire_depuis Champ_nu champs [c] s'
    | Champ_nu =>
      if (c =? 44)%N then csv_lire_depuis Debut_champ (champs ++ [champ]) [] s'
      else if (c =? 13)%N then csv_lire_depuis Retour_vu (champs ++ [champ]) [] s'
      else if ((c =? 34) || (c =? 10))%N then None
      else csv_lire_depuis Champ_nu champs (champ ++ [c]) s'
    | Champ_guillemets =>
      if (c =? 34)%N then csv_lire_depuis Guillemet_vu champs champ s'
      else csv_lire_depuis Champ_guillemets champs (champ ++ [c]) s'
    | Guillemet_vu =>
      if (c =? 34)%N then csv_lire_depuis Champ_guillemets champs (champ ++ [c]) s'
      else if (c =? 44)%N then csv_lire_depuis Debut_champ (champs ++ [champ]) [] s'
      else if (c =? 13)%N then csv_lire_depuis Retour_vu (champs ++ [champ]) [] s'
      else None
    | Retour_vu =>
      if (c =? 10)%N then (champs ::.) <$> csv_lire_depuis Debut_champ [] [] s'
      else None
    end
  end.

Definition csv_lire (s : str) : option (list (list str)) :=
  csv_lire_depuis Debut_champ [] [] s.

(** The rows of the table that are not blank in both columns. *)
Definition ligne_blanche (l : ligne_table) : bool :=
  bool_decide (strip (default [] (poids l)) = [])
  && bool_decide (strip (default [] (dlc l)) = []).

(** ** The flash

    The attributes [flash_visuel] keeps on the window ([None] while the
    attribute is missing or [None]), the style sheet of the central widget,
    and the number of [terminer_flash] calls the timers still hold. *)
Record etat_flash := {
  fl_style : str;                  (* central.styleSheet() *)
  fl_orig_bg : option str;         (* self._flash_orig_bg *)
  fl_count : option Z;             (* self._flash_count *)
  fl_minuteries : nat
}.

(** [flash_visuel(color)] *)
Definition flash_visuel (color : str) (st : etat_flash) : etat_flash :=
  let orig_bg :=
    match fl_orig_bg st with
    | None => fl_style st
    | Some o => o
    end in
  let count :=
    match fl_count st with
    | None => 0%Z
    | Some n => n
    end in
  {| fl_style := u "background-color: " ++ color ++ u ";";
     fl_orig_bg := Some orig_bg;
     fl_count := Some (count + 1)%Z;
     fl_minuteries := S (fl_minuteries st) |}.

(** The closure [terminer_flash], run by a timer; [None] when it raises
    (an attribute that is missing or [None]). *)
Definition terminer_flash (st : etat_flash) : option etat_flash :=
  count ← fl_count st;
  let count := (count - 1)%Z in
  if (count <=? 0)%Z then
    orig_bg ← fl_orig_bg st;
    Some {| fl_style := orig_bg; fl_orig_bg := fl_orig_bg st;
            fl_count := Some 0%Z; fl_minuteries := fl_minuteries st |}
  else
    Some {| fl_style := fl_style st; fl_orig_bg := fl_orig_bg st;
            fl_count := Some count; fl_minuteries := fl_minuteries st |}.

(** A sequence of flashes and of timers that fire. A timer fires only if
    one is pending. *)
Inductive evenement_flash :=
  | Flash (color : str)
  | Fin_flash.

Fixpoint derouler (evts : list evenement_flash) (st : etat_flash)
  : option etat_flash :=
  match evts with
  | [] => Some st
  | Flash color :: evts' => derouler evts' (flash_visuel color st)
  | Fin_flash :: evts' =>
    match fl_minuteries st with
    | O => None
    | S k =>
      st' ← terminer_flash st;
      derouler evts'
        {| fl_style := fl_style st'; fl_orig_bg := fl_orig_bg st';
           fl_count := fl_count st'; fl_minuteries := k |}
    end
  end.

(** The window before any flash, with [style] as the style sheet of the
    central widget. *)
Definition flash_initial (style : str) : etat_flash :=
  {| fl_style := style; fl_orig_bg := None; fl_count := None;
     fl_minuteries := 0 |}.

(** The colours of the flashes of a sequence. *)
Definition couleurs (evts : list evenement_flash) : list str :=
  omap (λ e, match e with Flash color => Some color | Fin_flash => None end)
    evts.

(** Every timer that fires was started before. *)
Fixpoint bien_formee (en_attente : nat) (evts : list evenement_flash) : bool :=
  match evts with
  | [] => true
  | Flash _ :: evts' => bien_formee (S en_attente) evts'
  | Fin_flash :: evts' =>
    match en_attente with
    | O => false
    | S k => bien_formee k evts'
    end
  end.

(** What holds between the flashes of a run that started with [style] as
    the style sheet: the original style is the one memorised, the counter
    is the number of pending timers, and the style sheet is the original
    one when no timer is pending and the colour [derniere] of the last
    flash otherwise. *)
Definition flash_coherent (style : str) (derniere : option str)
    (st : etat_flash) : Prop :=
  match fl_minuteries st with
  | O => fl_style st = style
  | S _ => ∃ color, derniere = Some color
                    ∧ fl_style st = u "background-color: " ++ color ++ u ";"
  end
  ∧ (fl_orig_bg st = None ∧ fl_count st = None ∧ fl_minuteries st = 0
     ∨ fl_orig_bg st = Some style
       ∧ fl_count st = Some (Z.of_nat (fl_minuteries st))).

(** ** The zoom

    [ajuster_echelle(delta)], as a function of [facteur_echelle]: the new
    value of the attribute (the sizes of the widgets, which are computed
    from it, are not modelled). *)
Definition fsub : float → float → float := SFsub prec emax.
Definition fabs : float → float := SFabs.

Definition f_0_7 : float := float_of_decimal false 7 (-1).
Definition f_1_0 : float := float_of_decimal false 1 0.
Definition f_2_0 : float := float_of_decimal false 2 0.
Definition f_0_001 : float := float_of_decimal false 1 (-3).
Definition f_0_1 : float := float_of_decimal false 1 (-1).

(** [min(a, b)] and [max(a, b)]: the first argument unless the second is
    smaller (greater). *)
Definition py_min (a b : float) : float := if flt b a then b else a.
Definition py_max (a b : float) : float := if flt a b then b else a.

Definition ajuster_echelle (delta : float) (facteur_echelle : float) : float :=
  let nouvelle_echelle := fadd facteur_echelle delta in
  let nouvelle_echelle := py_max f_0_7 (py_min f_2_0 nouvelle_echelle) in
  if flt (fabs (fsub nouvelle_echelle facteur_echelle)) f_0_001
  then facteur_echelle
  else nouvelle_echelle.

(** Between 0.7 and 2.0. *)
Definition dans_les_bornes (x : float) : bool :=
  SFleb f_0_7 x && SFleb x f_2_0.

(** The lines of a batch that are stored: stripped, and not blank. *)
Definition lignes_retenues (lignes : list str) : list str :=
  filter (λ texte, texte ≠ []) (strip <$> lignes).

(** A window with one filled row, used in examples. *)
Definition fenetre_exemple : fenetre :=
  {| w_table := [{| poids := Some (u "89,012"); dlc := Some [] |};
                 ligne_dlc_vide];
     w_champ_scan := u "1234567012345";
     w_champ_total := u "Totale : 89.012";
     w_etiquette_commentaire := u "Erreur de saisie ligne 1";
     w_minuteries := [] |}.
(** * Properties *)

(** ** Stripping *)

Section Strip.
Variable f : N → bool.

Lemma lstrip_of_suffix s : ∃ k, lstrip_of f s = drop k s.
Proof.
  induction s as [|c s [k IH]]; [by exists 0|]. simpl.
  destruct (f c); [by exists (S k)|by exists 0].
Qed.

Lemma lstrip_of_clean s : clean_head f (lstrip_of f s).
Proof.
  induction s as [|c s IH]; simpl; [done|].
  destruct (f c) eqn:E; simpl; done.
Qed.

Lemma lstrip_of_id s : clean_head f s → lstrip_of f s = s.
Proof. destruct s as [|c s]; simpl; [done|]. by intros ->. Qed.

Lemma lstrip_of_length s : length (lstrip_of f s) ≤ length s.
Proof.
  destruct (lstrip_of_suffix s) as [k ->]. rewrite length_drop. lia.
Qed.

Lemma strip_of_length s : length (strip_of f s) ≤ length s.
Proof.
  unfold strip_of. rewrite length_reverse.
  etrans; [apply lstrip_of_length|]. rewrite length_reverse.
  apply lstrip_of_length.
Qed.

(** A non-empty prefix of a list with a clean head has a clean head. *)
Lemma take_clean_head k s : clean_head f s → clean_head f (take k s).
Proof. destruct s, k; simpl; done. Qed.

Lemma strip_of_clean s :
  clean_head f (strip_of f s) ∧ clean_head f (reverse (strip_of f s)).
Proof.
  unfold strip_of. split.
  - destruct (lstrip_of_suffix (reverse (lstrip_of f s))) as [k ->].
    rewrite reverse_drop, reverse_involutive.
    apply take_clean_head, lstrip_of_clean.
  - rewrite reverse_involutive. apply lstrip_of_clean.
Qed.

Lemma strip_of_id s :
  clean_head f s → clean_head f (reverse s) → strip_of f s = s.
Proof.
  intros H1 H2. unfold strip_of.
  rewrite (lstrip_of_id s H1), (lstrip_of_id _ H2).
  apply reverse_involutive.
Qed.

Lemma strip_of_idemp s : strip_of f (strip_of f s) = strip_of f s.
Proof. apply strip_of_id; apply strip_of_clean. Qed.

End Strip.

Lemma strip_length s : length (strip s) ≤ length s.
Proof. apply strip_of_length. Qed.

Lemma strip_idemp s : strip (strip s) = strip s.
Proof. apply strip_of_idemp. Qed.

(** ** The weight decoder *)

(** Lengths of lists built with [++], [take] and [drop]. *)
Ltac solve_length :=
  repeat first [rewrite length_app | rewrite length_drop | rewrite length_take
               | progress cbn [length]];
  lia.

(** A list of known length is a list of that many named characters. *)
Ltac explode H l :=
  repeat (destruct l as [|? l]; simpl in H; try (exfalso; lia)).

Lemma insert_comma_ltb p n :
  (if p <? length n then Some (take p n ++ u "," ++ drop p n) else None)
  = insert_comma p n.
Proof.
  unfold insert_comma. destruct (Nat.ltb_spec p (length n)); case_decide;
    done || lia.
Qed.

Lemma insert_comma_None p n : insert_comma p n = None ↔ length n ≤ p.
Proof. unfold insert_comma. case_decide; split; (done || lia). Qed.

Lemma insert_comma_length p n s :
  insert_comma p n = Some s → length s = S (length n).
Proof.
  unfold insert_comma. case_decide; [|done]. intros [= <-].
  solve_length.
Qed.

(** Looking a format code up in the dictionary and applying the rule
    found. *)
Lemma formats_map_apply code n :
  match formats_map !! code with
  | None => None
  | Some fonction_fmt => fonction_fmt n
  end = decimal_rule code n.
Proof.
  unfold formats_map, decimal_rule.
  rewrite !lookup_insert, lookup_empty.
  repeat case_decide; subst; try done; apply insert_comma_ltb.
Qed.

Lemma formater_ligne_13 ligne :
  length (strip ligne) = 13 →
  formater_ligne (Some ligne) = insert_comma 2 (slice 7 12 (strip ligne)).
Proof.
  intros H. unfold formater_ligne.
  remember (strip ligne) as chaine eqn:E. clear E.
  explode H chaine. reflexivity.
Qed.

Lemma formater_ligne_long ligne :
  26 ≤ length (strip ligne) →
  formater_ligne (Some ligne) =
    if startswith (u "310") (slice 16 26 (strip ligne))
    then decimal_rule (slice 16 20 (strip ligne)) (slice 20 26 (strip ligne))
    else None.
Proof.
  intros H. unfold formater_ligne.
  remember (strip ligne) as chaine eqn:E. clear E.
  destruct (Nat.eqb_spec (length chaine) 13) as [?|_]; [lia|].
  destruct (Nat.ltb_spec (length chaine) 26) as [?|_]; [lia|].
  cbv zeta. destruct (startswith _ _); [|done]. simpl negb. cbv iota.
  rewrite formats_map_apply. f_equal.
  - unfold slice. rewrite !drop_0, take_drop_commute, take_take. done.
  - unfold slice. rewrite drop_drop. done.
Qed.

Lemma formater_ligne_short ligne :
  length (strip ligne) ≠ 13 → length (strip ligne) < 26 →
  formater_ligne (Some ligne) = None.
Proof.
  intros H1 H2. unfold formater_ligne.
  destruct (Nat.eqb_spec (length (strip ligne)) 13) as [?|_]; [lia|].
  destruct (Nat.ltb_spec (length (strip ligne)) 26) as [_|?]; [done|lia].
Qed.

Lemma decimal_rule_length code n s :
  decimal_rule code n = Some s → length s ≤ S (length n).
Proof.
  unfold decimal_rule. repeat case_decide;
    try (intros ->%insert_comma_length; lia); [|done].
  intros [= <-]. lia.
Qed.

(** Whatever the decoder returns has at most seven characters. *)
Lemma formater_ligne_length ligne s :
  formater_ligne (Some ligne) = Some s → length s ≤ 7.
Proof.
  destruct (decide (length (strip ligne) = 13)) as [H|H].
  - rewrite formater_ligne_13 by done. intros ->%insert_comma_length.
    unfold slice. solve_length.
  - destruct (decide (length (strip ligne) < 26)) as [H'|H'].
    + by rewrite formater_ligne_short.
    + rewrite formater_ligne_long by lia. destruct (startswith _ _); [|done].
      intros ->%decimal_rule_length.
      unfold slice. solve_length.
Qed.

(** C1 (amended). For every input string whose trimmed length is exactly
    13, the weight decoder returns the 5-character substring at offset 7
    (characters 7..11, counted from 0), split after its 2nd character and
    joined with a comma; on the input "1234567890123" this is "89,012". *)
Theorem weight_decoder_13 (ligne : str) :
  length (strip ligne) = 13 →
  let extrait := slice 7 12 (strip ligne) in
  length extrait = 5
  ∧ extrait = [strip ligne !!! 7; strip ligne !!! 8; strip ligne !!! 9;
               strip ligne !!! 10; strip ligne !!! 11]
  ∧ formater_ligne (Some ligne)
    = Some (take 2 extrait ++ u "," ++ drop 2 extrait)
  ∧ (ligne = u "1234567890123" →
     formater_ligne (Some ligne) = Some (u "89,012")).
Proof.
  intros H extrait. split_and!.
  - unfold extrait, slice. solve_length.
  - unfold extrait. remember (strip ligne) as chaine eqn:E. clear E.
    explode H chaine. reflexivity.
  - rewrite formater_ligne_13 by done. fold extrait.
    unfold insert_comma. case_decide as Hlen; [done|].
    contradict Hlen. unfold extrait, slice. solve_length.
  - intros ->. reflexivity.
Qed.

Lemma weight_decoder_13_witness :
  length (strip (u "1234567890123")) = 13
  ∧ formater_ligne (Some (u "1234567890123")) = Some (u "89,012").
Proof.
  split; [reflexivity|].
  apply (weight_decoder_13 (u "1234567890123")); reflexivity.
Defined.

(** C1 as stated fails on its own example: the characters at positions
    7..11 of "1234567890123" are "89012", so the decoder does not return
    "78,901". *)
Lemma weight_decoder_13_counterexample :
  length (strip (u "1234567890123")) = 13
  ∧ slice 7 12 (strip (u "1234567890123")) = u "89012"
  ∧ formater_ligne (Some (u "1234567890123")) ≠ Some (u "78,901").
Proof. split_and!; [reflexivity|reflexivity|]. vm_compute. discriminate. Qed.

(** C2. For every input whose trimmed length is at least 26 and whose
    10-character substring at offset 16 starts with "310", the weight
    decoder is keyed on the 4-character format code: "3100" returns the
    digit run unchanged, "3101" inserts a comma after position 5, "3102"
    after 4, "3103" after 3, "3104" after 2, "3105" after 1, each rule
    giving no match unless the digit run is strictly longer than the
    insertion position, and any other format code gives no match. The rule
    the dictionary holds for a code behaves that way on every digit run. *)
Theorem weight_decoder_310x (ligne : str) :
  let sous_chaine := slice 16 26 (strip ligne) in
  let code := take 4 sous_chaine in
  let nombre := drop 4 sous_chaine in
  26 ≤ length (strip ligne) →
  startswith (u "310") sous_chaine = true →
  formater_ligne (Some ligne) = decimal_rule code nombre
  ∧ (∀ n : str,
       match formats_map !! code with
       | Some regle => regle n
       | None => None
       end = decimal_rule code n)
  ∧ (∀ (p : nat) (n : str), insert_comma p n = None ↔ ¬ p < length n).
Proof.
  intros sous_chaine code nombre Hlen H310. split_and!.
  - rewrite formater_ligne_long by done. fold sous_chaine. rewrite H310.
    unfold code, nombre, sous_chaine, slice. f_equal.
    + by rewrite take_drop_commute, take_take.
    + by rewrite drop_drop.
  - intros n. apply formats_map_apply.
  - intros p n. rewrite insert_comma_None. lia.
Qed.

Lemma weight_decoder_310x_witness :
  formater_ligne (Some (u "0123456789012345310312345678"))
  = Some (u "123,456").
Proof.
  etrans.
  - apply (weight_decoder_310x (u "0123456789012345310312345678"));
      vm_compute; [lia|reflexivity].
  - reflexivity.
Defined.

(** C9. For every input on which the weight decoder produces a match,
    applying the decoder again to that output gives no match. *)
Theorem weight_decoder_one_shot (ligne s : str) :
  formater_ligne (Some ligne) = Some s →
  formater_ligne (Some s) = None.
Proof.
  intros H%formater_ligne_length.
  pose proof (strip_length s).
  apply formater_ligne_short; lia.
Qed.

Lemma weight_decoder_one_shot_witness :
  formater_ligne (Some (u "89,012")) = None.
Proof.
  apply (weight_decoder_one_shot (u "1234567890123") (u "89,012")).
  reflexivity.
Defined.

(** ** Decimal digits *)

Lemma decimal_block c v :
  decimal c = Some v →
  ∃ z, z ∈ nd_zeros ∧ (c = z + v)%N ∧ (v < 10)%N.
Proof.
  unfold decimal. destruct (find _ _) as [z|] eqn:E; [|done].
  intros [= <-]. apply find_some in E as [Hin Hz].
  exists z. split; [by apply list_elem_of_In|].
  apply andb_prop in Hz as [H1%N.leb_le H2%N.ltb_lt]. lia.
Qed.

Lemma decimal_lt c v : decimal c = Some v → (v < 10)%N.
Proof. by intros (z & _ & _ & ?)%decimal_block. Qed.

Lemma isdecimal_Some c : isdecimal c → ∃ v, decimal c = Some v.
Proof. unfold isdecimal. destruct (decimal c); [eauto|done]. Qed.

(** A property of every digit of every block, checked by enumeration. *)
Lemma digit_blocks_forall (P : N → bool) :
  forallb (λ z, forallb (λ v, P (z + v)%N) [0;1;2;3;4;5;6;7;8;9]%N) nd_zeros
  = true →
  ∀ c, isdecimal c → P c = true.
Proof.
  intros H c (v & (z & Hz & -> & Hv)%decimal_block)%isdecimal_Some.
  rewrite forallb_forall in H. apply list_elem_of_In, H in Hz.
  rewrite forallb_forall in Hz. apply Hz. simpl. lia.
Qed.

Lemma isdecimal_not_space c : isdecimal c → isspace c = false.
Proof.
  intros H. apply negb_true_iff.
  revert c H. apply digit_blocks_forall. vm_compute. reflexivity.
Qed.

Lemma isdecimal_not_comma c : isdecimal c → c ≠ 44%N.
Proof.
  intros H ->. revert H. vm_compute. done.
Qed.

(** ** The shape of a weight string *)

Lemma Forall_forallb (P : N → bool) (l : str) :
  forallb P l = true → Forall P l.
Proof.
  rewrite forallb_forall, Forall_forall. intros H c Hc.
  apply Is_true_true, H. by apply list_elem_of_In.
Qed.

Lemma count_commas_digits l : Forall isdecimal l → count_commas l = 0.
Proof.
  unfold count_commas. induction 1 as [|c l Hc _ IH]; [done|].
  rewrite filter_cons_False; [done|]. by apply isdecimal_not_comma.
Qed.

Lemma count_commas_app a b :
  count_commas (a ++ b) = count_commas a + count_commas b.
Proof. unfold count_commas. by rewrite filter_app, length_app. Qed.

Lemma Forall_Exists_nonempty {A} (P : A → Prop) (l : list A) :
  l ≠ [] → Forall P l → Exists P l.
Proof. destruct l; [done|]. intros _ [? _]%Forall_cons. by left. Qed.

Lemma insert_comma_well_formed p n s :
  0 < p → Forall isdecimal n →
  insert_comma p n = Some s → well_formed_weight s.
Proof.
  intros Hp Hn. unfold insert_comma. case_decide as Hlen; [|done].
  intros <-%(inj Some).
  assert (Forall isdecimal (take p n)) as Ha by by apply Forall_take.
  assert (Forall isdecimal (drop p n)) as Hb by by apply Forall_drop.
  split.
  - rewrite !count_commas_app.
    rewrite (count_commas_digits _ Ha), (count_commas_digits _ Hb).
    reflexivity.
  - exists (take p n), (drop p n). split_and!; [done|..];
      apply Forall_Exists_nonempty; try done.
    + intros E%(f_equal length). rewrite length_take in E. simpl in E. lia.
    + intros E%(f_equal length). rewrite length_drop in E. simpl in E. lia.
Qed.

(** C5 (amended). For every input on which the weight decoder produces a
    match from a segment made of decimal digits only (the 5 characters at
    offset 7 of a 13-character scan, the 6 characters at offset 20
    otherwise), the returned string contains exactly one comma and at least
    one digit on each side of it, unless the format code is "3100": the
    decoder then returns the digit run unchanged, without a comma. *)
Theorem weight_string_shape (ligne s : str) :
  let chaine := strip ligne in
  let segment :=
    if decide (length chaine = 13) then slice 7 12 chaine
    else slice 20 26 chaine in
  formater_ligne (Some ligne) = Some s →
  Forall isdecimal segment →
  (length chaine = 13 ∨ slice 16 20 chaine ≠ u "3100" →
   well_formed_weight s)
  ∧ (length chaine ≠ 13 → slice 16 20 chaine = u "3100" →
     s = segment ∧ count_commas s = 0).
Proof.
  intros chaine segment Hs Hseg. unfold segment in *. clear segment.
  case_decide as H13.
  - split; [|done]. intros _.
    rewrite formater_ligne_13 in Hs by done.
    eapply insert_comma_well_formed; [|exact Hseg|exact Hs]; lia.
  - destruct (decide (length chaine < 26)) as [H26|H26].
    { by rewrite formater_ligne_short in Hs. }
    rewrite formater_ligne_long in Hs by (fold chaine; lia).
    fold chaine in Hs. destruct (startswith _ _); [|done].
    unfold decimal_rule in Hs. split.
    + intros [?|Hcode]; [done|].
      repeat case_decide; try done;
        (eapply insert_comma_well_formed; [|exact Hseg|exact Hs]; lia).
    + intros _ Hcode. rewrite decide_True in Hs by done.
      apply (inj Some) in Hs as <-. split; [done|].
      by apply count_commas_digits.
Qed.

Lemma weight_string_shape_witness :
  well_formed_weight (u "89,012") ∧ well_formed_weight (u "123,456").
Proof.
  split.
  - apply (weight_string_shape (u "1234567890123") (u "89,012"));
      [reflexivity| |by left].
    apply Forall_forallb. vm_compute. reflexivity.
  - apply (weight_string_shape (u "0123456789012345310312345678")
             (u "123,456")); [reflexivity| |right; vm_compute; done].
    apply Forall_forallb. vm_compute. reflexivity.
Defined.

(** C5 as stated fails: under format code "3100" the decoder returns the
    digit run as it is, a string without any comma; and a segment that
    holds commas is returned with all of them. *)
Lemma weight_string_shape_counterexample :
  (formater_ligne (Some (u "01234567890123453100123456"))
   = Some (u "123456")
   ∧ ¬ well_formed_weight (u "123456"))
  ∧ (formater_ligne (Some (u "1234567,,,,,3")) = Some (u ",,,,,,")
     ∧ ¬ well_formed_weight (u ",,,,,,")).
Proof.
  split; (split; [reflexivity|]); intros [Hcount _]; vm_compute in Hcount;
    discriminate.
Qed.

(** ** The search for the expiry pattern *)

Lemma slice_drop i a b (l : str) :
  slice (i + a) (i + b) l = slice a b (drop i l).
Proof. unfold slice. by rewrite take_drop_commute, drop_drop. Qed.

Lemma match_at_length p s : match_at p s = true → length p ≤ length s.
Proof.
  revert s. induction p as [|a p IH]; intros [|c s]; simpl; try done.
  - lia.
  - intros [_ H%IH]%andb_prop. lia.
Qed.

Lemma match_at_motif s :
  match_at motif_dlc s = true
  ↔ ∃ g post, s = u "15" ++ g ++ post ∧ length g = 6 ∧ Forall isdecimal g.
Proof.
  split.
  - intros H. pose proof (match_at_length _ _ H) as Hlen.
    change (length motif_dlc) with 8 in Hlen.
    destruct s as [|c1 [|c2 [|d1 [|d2 [|d3 [|d4 [|d5 [|d6 s]]]]]]]];
      simpl in Hlen; try lia.
    unfold motif_dlc in H.
    cbn [match_at atom_matches replicate app] in H.
    rewrite !andb_true_iff, !N.eqb_eq in H.
    destruct H as (<- & <- & H).
    exists [d1; d2; d3; d4; d5; d6], s. split_and!; [done..|].
    repeat (apply Forall_cons; split; [apply Is_true_true; tauto|]).
    done.
  - intros (g & post & -> & Hlen & Hg).
    destruct g as [|d1 [|d2 [|d3 [|d4 [|d5 [|d6 [|]]]]]]]; try done.
    repeat (apply Forall_cons in Hg as [?%Is_true_true Hg]).
    unfold motif_dlc. change (u "15") with [49; 53]%N.
    cbn [match_at atom_matches replicate app].
    rewrite !andb_true_iff, !N.eqb_eq. tauto.
Qed.

Lemma search_Some p s i :
  search p s = Some i
  ↔ match_at p (drop i s) = true
    ∧ (∀ j, j < i → match_at p (drop j s) = false)
    ∧ i ≤ length s.
Proof.
  revert i. induction s as [|c s IH]; intros i.
  - simpl. destruct (match_at p []) eqn:E.
    + split.
      * intros [= <-]. split_and!; [done|lia|done].
      * intros (_ & _ & Hi). simpl in Hi. f_equal. lia.
    + split; [done|]. intros (H & _ & _). destruct i; simpl in H; congruence.
  - cbn [search]. destruct (match_at p (c :: s)) eqn:E.
    + split.
      * intros [= <-]. split_and!; [done|lia|simpl; lia].
      * intros (_ & H & _). destruct i; [done|].
        specialize (H 0 ltac:(lia)). simpl in H. congruence.
    + split.
      * destruct (search p s) as [i'|] eqn:E'; [|done].
        intros [= <-]. destruct (proj1 (IH i') eq_refl) as (H1 & H2 & H3).
        split_and!; [done| |simpl; lia].
        intros [|j] Hj; [done|]. apply H2. lia.
      * intros (H1 & H2 & H3). destruct i as [|i]; [simpl in H1; congruence|].
        simpl in H1, H3.
        assert (search p s = Some i) as ->; [|done].
        apply IH. split_and!; [done| |lia].
        intros j Hj. apply (H2 (S j)). lia.
Qed.

Lemma search_None p s :
  search p s = None ↔ ∀ j, match_at p (drop j s) = false.
Proof.
  induction s as [|c s IH].
  - simpl. destruct (match_at p []) eqn:E.
    + split; [done|]. intros H. specialize (H 0). simpl in H. congruence.
    + split; [|done]. intros _ j. by destruct j.
  - cbn [search]. destruct (match_at p (c :: s)) eqn:E.
    + split; [done|]. intros H. specialize (H 0). simpl in H. congruence.
    + destruct (search p s) as [i|] eqn:E'.
      * split; [done|]. intros H. apply search_Some in E' as [E' _].
        specialize (H (S i)). simpl in H. congruence.
      * split; [|done]. intros _ [|j]; [done|]. simpl.
        by apply (proj1 IH).
Qed.

Lemma occurs_at_match reste i g :
  occurs_at reste i g
  ↔ i ≤ length reste
    ∧ match_at motif_dlc (drop i reste) = true
    ∧ g = slice (i + 2) (i + 8) reste.
Proof.
  rewrite slice_drop. split.
  - intros (pre & post & -> & <- & Hlen & Hg).
    rewrite drop_app_length. split_and!.
    + rewrite length_app. lia.
    + apply match_at_motif. by exists g, post.
    + destruct g as [|d1 [|d2 [|d3 [|d4 [|d5 [|d6 [|]]]]]]]; done.
  - intros (Hi & (g' & post & E & Hlen & Hg)%match_at_motif & ->).
    rewrite E.
    assert (slice 2 8 (u "15" ++ g' ++ post) = g') as ->.
    { destruct g' as [|d1 [|d2 [|d3 [|d4 [|d5 [|d6 [|]]]]]]]; done. }
    exists (take i reste), post.
    split_and!; [|by rewrite length_take_le|done..].
    rewrite <-E. by rewrite take_drop.
Qed.

Lemma re_search_dlc_Some reste g :
  re_search_dlc reste = Some g ↔ ∃ i, first_occurrence reste i g.
Proof.
  unfold re_search_dlc, first_occurrence. split.
  - destruct (search motif_dlc reste) as [i|] eqn:E; [|done].
    simpl. intros [= <-]. exists i.
    apply search_Some in E as (H1 & H2 & H3). split.
    + by apply occurs_at_match.
    + intros j g' Hj (_ & H & _)%occurs_at_match.
      rewrite H2 in H by done. done.
  - intros (i & (Hi & H1 & ->)%occurs_at_match & H2).
    assert (search motif_dlc reste = Some i) as ->; [|done].
    apply search_Some. split_and!; [done| |done].
    intros j Hj. apply not_true_is_false. intros Hm.
    apply (H2 j (slice (j + 2) (j + 8) reste) Hj).
    apply occurs_at_match. split_and!; [lia|done..].
Qed.

Lemma re_search_dlc_None reste :
  re_search_dlc reste = None ↔ ∀ i g, ¬ occurs_at reste i g.
Proof.
  unfold re_search_dlc. split.
  - destruct (search motif_dlc reste) as [i|] eqn:E; [done|]. intros _.
    intros i g (_ & H & _)%occurs_at_match.
    rewrite search_None in E. by rewrite E in H.
  - intros H. assert (search motif_dlc reste = None) as ->; [|done].
    apply search_None. intros j. apply not_true_is_false. intros Hm.
    destruct (decide (j ≤ length reste)) as [Hj|Hj].
    + apply (H j (slice (j + 2) (j + 8) reste)).
      by apply occurs_at_match.
    + rewrite drop_ge in Hm by lia. done.
Qed.

Lemma extraire_dlc_short texte :
  length (strip texte) ≤ 26 → extraire_dlc_from_scan (Some texte) = None.
Proof.
  intros H. unfold extraire_dlc_from_scan.
  by destruct (Nat.leb_spec (length (strip texte)) 26); [|lia].
Qed.

Lemma extraire_dlc_long texte :
  26 < length (strip texte) →
  extraire_dlc_from_scan (Some texte)
  = re_search_dlc (drop 26 (strip texte)) ≫= dlc_of_yymmjj.
Proof.
  intros H. unfold extraire_dlc_from_scan.
  destruct (Nat.leb_spec (length (strip texte)) 26); [lia|].
  cbv zeta. by destruct (re_search_dlc _).
Qed.

(** The six digits of the pattern may be followed by more digits: the
    search takes the first six. *)
Lemma re_search_dlc_more_digits :
  re_search_dlc (u "1523022810123456") = Some (u "230228")
  ∧ extraire_dlc_from_scan
      (Some (u "01234567890123456789012345" ++ u "1523022810123456"))
    = Some (u "28/02/2023").
Proof. split; reflexivity. Qed.

(** C10. For every two input strings whose trimmed forms both have length
    strictly greater than 26 and agree from index 26 onward, the expiry
    decoder returns the same result on both. *)
Theorem expiry_decoder_ignores_prefix (texte1 texte2 : str) :
  26 < length (strip texte1) →
  26 < length (strip texte2) →
  drop 26 (strip texte1) = drop 26 (strip texte2) →
  extraire_dlc_from_scan (Some texte1) = extraire_dlc_from_scan (Some texte2).
Proof.
  intros H1 H2 E. rewrite !extraire_dlc_long by done. by rewrite E.
Qed.

Lemma expiry_decoder_ignores_prefix_witness :
  extraire_dlc_from_scan (Some (u "01234567890123456789012345..15230228"))
  = extraire_dlc_from_scan (Some (u "  abcdefghijklmnopqrstuvwxyz..15230228 ")).
Proof.
  apply expiry_decoder_ignores_prefix; vm_compute; (lia || reflexivity).
Defined.

(** ** Numbers written with digits *)

Lemma ascii_digit_range c : is_ascii_digit c ↔ (48 ≤ c ≤ 57)%N.
Proof.
  unfold is_ascii_digit. rewrite andb_True, !Is_true_true.
  by rewrite !N.leb_le.
Qed.

Lemma ascii_digit_not_space c : is_ascii_digit c → ascii_isspace c = false.
Proof.
  intros H%ascii_digit_range. unfold ascii_isspace.
  destruct (N.leb_spec 9 c), (N.leb_spec c 13), (N.eqb_spec c 32);
    simpl; done || lia.
Qed.

Lemma Forall_clean_head (P : N → Prop) f s :
  (∀ c, P c → f c = false) → Forall P s → clean_head f s.
Proof. intros HP. destruct 1; simpl; auto. Qed.

Lemma to_ascii_char_lt c c' : to_ascii_char c = Some c' → (c' < 127)%N.
Proof.
  unfold to_ascii_char. destruct (N.ltb_spec c 127); [by intros [= <-]|].
  destruct (isspace c); [by intros [= <-]|].
  destruct (decimal c) as [v|] eqn:E; [|done].
  apply decimal_lt in E. intros [= <-]. lia.
Qed.

Lemma to_ascii_cons c s :
  to_ascii (c :: s)
  = c' ← to_ascii_char c; t ← to_ascii s; Some (c' :: t).
Proof. reflexivity. Qed.

Lemma to_ascii_lt s t : to_ascii s = Some t → Forall (λ c, c < 127)%N t.
Proof.
  revert t. induction s as [|c s IH]; intros t.
  - by intros [= <-].
  - rewrite to_ascii_cons.
    destruct (to_ascii_char c) as [c'|] eqn:E; [|done]. simpl.
    destruct (to_ascii s) as [t'|]; [|done]. simpl.
    intros [= <-]. constructor; [by eapply to_ascii_char_lt|by apply IH].
Qed.

Lemma to_ascii_id t : Forall (λ c, c < 127)%N t → to_ascii t = Some t.
Proof.
  induction 1 as [|c t Hc _ IH]; [done|]. rewrite to_ascii_cons, IH.
  unfold to_ascii_char. by destruct (N.ltb_spec c 127); [|lia].
Qed.

Lemma to_ascii_char_decimal c v :
  decimal c = Some v → to_ascii_char c = Some (48 + v)%N.
Proof.
  intros Hv. unfold to_ascii_char.
  destruct (N.ltb_spec c 127) as [Hc|Hc].
  - destruct (decimal_block c v Hv) as (z & Hz & -> & Hlt).
    assert (forallb (λ z, (z =? 48) || (127 <=? z))%N nd_zeros = true) as H
      by (vm_compute; reflexivity).
    rewrite forallb_forall in H. apply list_elem_of_In, H in Hz.
    apply orb_prop in Hz as [->%N.eqb_eq|?%N.leb_le]; [done|lia].
  - rewrite isdecimal_not_space, Hv; [done|].
    unfold isdecimal. by rewrite Hv.
Qed.

(** The ASCII digits a run of decimal digits is turned into. *)
Lemma to_ascii_digits g :
  Forall isdecimal g →
  to_ascii g = Some (ascii_digits g).
Proof.
  unfold ascii_digits.
  induction 1 as [|c g Hc _ IH]; [done|]. rewrite to_ascii_cons, IH.
  apply isdecimal_Some in Hc as [v Hv].
  rewrite (to_ascii_char_decimal c v Hv). rewrite fmap_cons, Hv. done.
Qed.

Lemma ascii_digits_Forall g :
  Forall isdecimal g → Forall is_ascii_digit (ascii_digits g).
Proof.
  unfold ascii_digits. intros H. apply Forall_fmap.
  eapply Forall_impl; [done|]. intros c [v Hv]%isdecimal_Some. simpl.
  rewrite Hv. apply decimal_lt in Hv. apply ascii_digit_range. simpl. lia.
Qed.

Lemma strip_underscores_from_id prev s :
  prev ≠ Some 95%N → Forall (λ c, c ≠ 95%N) s →
  strip_underscores_from prev s = Some s.
Proof.
  intros Hprev Hs. revert prev Hprev.
  induction Hs as [|c s Hc _ IH]; intros prev Hprev; simpl.
  - by rewrite bool_decide_false.
  - destruct (N.eqb_spec c 95); [done|].
    rewrite bool_decide_false by done. simpl.
    rewrite IH; [done|congruence].
Qed.

Lemma span_digits_app ds r :
  Forall is_ascii_digit ds → clean_head is_ascii_digit r →
  span_digits (ds ++ r) = (ds, r).
Proof.
  intros Hds Hr. induction Hds as [|c ds Hc _ IH]; simpl.
  - destruct r as [|c r]; [done|]. simpl in *. by rewrite Hr.
  - rewrite IH. by destruct (is_ascii_digit c).
Qed.

Lemma span_digits_all ds :
  Forall is_ascii_digit ds → span_digits ds = (ds, []).
Proof.
  intros H. rewrite <-(app_nil_r ds) at 1. by apply span_digits_app.
Qed.

Lemma split_sign_digit c s :
  is_ascii_digit c → split_sign (c :: s) = (false, c :: s).
Proof.
  intros H%ascii_digit_range. simpl.
  destruct (N.eqb_spec c 45); [lia|]. destruct (N.eqb_spec c 43); [lia|done].
Qed.

Lemma ascii_strip_id s :
  clean_head ascii_isspace s → clean_head ascii_isspace (reverse s) →
  ascii_strip s = s.
Proof. apply strip_of_id. Qed.

Lemma py_int_digits ds :
  ds ≠ [] → Forall is_ascii_digit ds →
  py_int ds = Some (Z.of_N (digits_value ds)).
Proof.
  intros Hne Hds. unfold py_int.
  rewrite to_ascii_id; cycle 1.
  { eapply Forall_impl; [done|]. intros c ?%ascii_digit_range. lia. }
  simpl. rewrite ascii_strip_id; cycle 1.
  { eapply Forall_clean_head; [apply ascii_digit_not_space|done]. }
  { eapply Forall_clean_head; [apply ascii_digit_not_space|].
    by apply Forall_reverse. }
  destruct ds as [|c ds]; [done|].
  rewrite split_sign_digit by by inversion Hds.
  unfold strip_underscores. rewrite strip_underscores_from_id; cycle 1.
  { done. }
  { eapply Forall_impl; [done|]. intros ? ?%ascii_digit_range. lia. }
  cbn [mbind option_bind]. rewrite span_digits_all by done.
  by rewrite bool_decide_true.
Qed.

Lemma py_int_to_ascii s t : to_ascii s = Some t → py_int s = py_int t.
Proof.
  intros E. unfold py_int. rewrite E.
  by rewrite (to_ascii_id t) by by eapply to_ascii_lt.
Qed.

(** [int] of two decimal digits. *)
Lemma py_int_pair a b :
  isdecimal a → isdecimal b → py_int [a; b] = Some (digit_pair a b).
Proof.
  intros Ha Hb.
  assert (Forall isdecimal [a; b]) as Hab by by repeat constructor.
  rewrite (py_int_to_ascii _ _ (to_ascii_digits [a; b] Hab)).
  rewrite py_int_digits; [|done|by apply ascii_digits_Forall].
  apply isdecimal_Some in Ha as [va Ha], Hb as [vb Hb].
  pose proof (decimal_lt _ _ Ha). pose proof (decimal_lt _ _ Hb).
  unfold ascii_digits, digit_pair, digits_value.
  cbn [fmap list_fmap foldl]. rewrite Ha, Hb. cbn [default].
  do 2 f_equal. lia.
Qed.

(** ** Calendar dates and their rendering *)

Lemma is_leap_spec y : is_leap y = true ↔ leap_year y.
Proof.
  unfold is_leap, leap_year.
  rewrite andb_true_iff, orb_true_iff, negb_true_iff.
  rewrite !Z.eqb_eq, Z.eqb_neq. done.
Qed.

Lemma days_in_month_real y m d :
  (1 ≤ m ≤ 12 ∧ 1 ≤ d ≤ days_in_month y m)%Z ↔ real_calendar_date y m d.
Proof.
  unfold real_calendar_date.
  destruct (decide (1 ≤ m ≤ 12)%Z) as [Hm|Hm]; [|lia].
  pose proof (is_leap_spec y) as Hleap.
  assert (m = 1 ∨ m = 2 ∨ m = 3 ∨ m = 4 ∨ m = 5 ∨ m = 6 ∨ m = 7 ∨ m = 8
          ∨ m = 9 ∨ m = 10 ∨ m = 11 ∨ m = 12)%Z as Hcases by lia.
  unfold days_in_month.
  destruct Hcases as [->|[->|[->|[->|[->|[->|[->|[->|[->|[->|[->| ->]]]]]]]]]]];
    try (simpl; lia).
  destruct (is_leap y); simpl.
  - assert (leap_year y) by by apply Hleap. split.
    + intros [_ [? ?]]. split; [done|]. right; right. split; [done|].
      destruct (decide (d ≤ 28)%Z); [by left|right; split; [lia|done]].
    + intros [? [[? ?]|[[? ?]|[_ [?|[? _]]]]]]; lia.
  - assert (¬ leap_year y) by (intros ?%Hleap; done). split.
    + intros [_ [? ?]]. split; [done|]. right; right. split; [done|].
      by left.
    + intros [? [[? ?]|[[? ?]|[_ [?|[? ?]]]]]]; done || lia.
Qed.

(** The constructor accepts exactly the dates of the calendar. *)
Lemma datetime_real y m d :
  (1 ≤ y ≤ 9999)%Z →
  (real_calendar_date y m d →
   datetime y m d = Some {| year := y; month := m; day := d |})
  ∧ (¬ real_calendar_date y m d → datetime y m d = None).
Proof.
  intros Hy. rewrite <-days_in_month_real. unfold datetime.
  destruct (Z.leb_spec 1 y); [|lia]. destruct (Z.leb_spec y 9999); [|lia].
  destruct (Z.leb_spec 1 m), (Z.leb_spec m 12), (Z.leb_spec 1 d),
    (Z.leb_spec d (days_in_month y m)); simpl; split; (done || lia).
Qed.

Lemma forallb_below (P : nat → bool) n :
  forallb P (seq 0 n) = true → ∀ k, k < n → P k = true.
Proof.
  intros H k Hk. rewrite forallb_forall in H. apply H, in_seq. lia.
Qed.

Lemma format_0d_two n : (0 ≤ n < 100)%Z → format_0d 2 n = two_digits n.
Proof.
  intros Hn.
  pose proof (forallb_below
                (λ k, bool_decide (format_0d 2 (Z.of_nat k)
                                   = two_digits (Z.of_nat k))) 100) as H.
  specialize (H ltac:(vm_compute; reflexivity) (Z.to_nat n) ltac:(lia)).
  apply bool_decide_eq_true_1 in H. by rewrite Z2Nat.id in H by lia.
Qed.

Lemma format_0d_four n :
  (2000 ≤ n < 2100)%Z → format_0d 4 n = four_digits n.
Proof.
  intros Hn.
  pose proof (forallb_below
                (λ k, bool_decide (format_0d 4 (2000 + Z.of_nat k)
                                   = four_digits (2000 + Z.of_nat k))) 100)
    as H.
  specialize (H ltac:(vm_compute; reflexivity) (Z.to_nat (n - 2000))
                ltac:(lia)).
  apply bool_decide_eq_true_1 in H.
  by replace (2000 + Z.of_nat (Z.to_nat (n - 2000)))%Z with n in H by lia.
Qed.

Lemma digit_pair_range a b :
  isdecimal a → isdecimal b → (0 ≤ digit_pair a b < 100)%Z.
Proof.
  intros [va Ha]%isdecimal_Some [vb Hb]%isdecimal_Some.
  pose proof (decimal_lt _ _ Ha). pose proof (decimal_lt _ _ Hb).
  unfold digit_pair. rewrite Ha, Hb. simpl. lia.
Qed.

(** The end of the decoder on a group of six digits. *)
Lemma dlc_of_yymmjj_spec g :
  length g = 6 → Forall isdecimal g →
  let '(yy, mm, dd) := yymmdd g in
  (real_calendar_date (2000 + yy) mm dd →
   dlc_of_yymmjj g
   = Some (two_digits dd ++ u "/" ++ two_digits mm ++ u "/"
           ++ four_digits (2000 + yy)))
  ∧ (¬ real_calendar_date (2000 + yy) mm dd → dlc_of_yymmjj g = None).
Proof.
  intros Hlen Hg.
  destruct g as [|y1 [|y2 [|m1 [|m2 [|d1 [|d2 [|]]]]]]]; try done.
  repeat (apply Forall_cons in Hg as [? Hg]).
  unfold yymmdd, dlc_of_yymmjj.
  change (slice 0 2 [y1; y2; m1; m2; d1; d2]) with [y1; y2].
  change (slice 2 4 [y1; y2; m1; m2; d1; d2]) with [m1; m2].
  change (slice 4 6 [y1; y2; m1; m2; d1; d2]) with [d1; d2].
  rewrite !py_int_pair by done. cbn [mbind option_bind].
  pose proof (digit_pair_range y1 y2 ltac:(done) ltac:(done)) as Hyy.
  pose proof (digit_pair_range m1 m2 ltac:(done) ltac:(done)) as Hmm.
  pose proof (digit_pair_range d1 d2 ltac:(done) ltac:(done)) as Hdd.
  destruct (datetime_real (2000 + digit_pair y1 y2) (digit_pair m1 m2)
              (digit_pair d1 d2)) as [Hreal Hnot]; [lia|].
  split.
  - intros Hr. rewrite Hreal by done. cbn [day month year].
    rewrite !format_0d_two, format_0d_four by lia. done.
  - intros Hr. by rewrite Hnot.
Qed.

Lemma first_occurrence_digits reste i g :
  first_occurrence reste i g → length g = 6 ∧ Forall isdecimal g.
Proof. intros [(pre & post & _ & _ & ? & ?) _]. done. Qed.

(** C3. For every input string, the expiry decoder returns no match when
    the trimmed length is at most 26; otherwise it searches the substring
    starting at offset 26 for "15" immediately followed by 6 digits and
    takes the first occurrence (the one at the smallest offset). Without
    an occurrence it returns no match; with one, the six digits of the
    first occurrence alone decide: the decoder matches if and only if an
    occurrence exists and the digits of the first one, read as YYMMDD with
    year 2000 + YY, form a real calendar date, and it then returns that
    date. *)
Theorem expiry_decoder_search (texte : str) :
  let chaine := strip texte in
  let reste := drop 26 chaine in
  (length chaine ≤ 26 → extraire_dlc_from_scan (Some texte) = None)
  ∧ (26 < length chaine →
     (is_Some (re_search_dlc reste) ↔ ∃ i g, occurs_at reste i g)
     ∧ (∀ g, re_search_dlc reste = Some g ↔ ∃ i, first_occurrence reste i g)
     ∧ ((∀ i g, ¬ occurs_at reste i g) →
        extraire_dlc_from_scan (Some texte) = None)
     ∧ (∀ i g, first_occurrence reste i g →
        let '(yy, mm, dd) := yymmdd g in
        (real_calendar_date (2000 + yy) mm dd →
         extraire_dlc_from_scan (Some texte)
         = Some (two_digits dd ++ u "/" ++ two_digits mm ++ u "/"
                 ++ four_digits (2000 + yy)))
        ∧ (¬ real_calendar_date (2000 + yy) mm dd →
           extraire_dlc_from_scan (Some texte) = None))
     ∧ (is_Some (extraire_dlc_from_scan (Some texte))
        ↔ ∃ i g, first_occurrence reste i g
                 ∧ let '(yy, mm, dd) := yymmdd g in
                   real_calendar_date (2000 + yy) mm dd)).
Proof.
  intros chaine reste. split; [apply extraire_dlc_short|].
  intros Hlen.
  assert (∀ i g, first_occurrence reste i g →
            extraire_dlc_from_scan (Some texte) = dlc_of_yymmjj g) as Hdec.
  { intros i g Hfirst.
    rewrite extraire_dlc_long by done. fold chaine reste.
    assert (re_search_dlc reste = Some g) as ->; [|done].
    apply re_search_dlc_Some. eauto. }
  assert (∀ i g, first_occurrence reste i g →
            let '(yy, mm, dd) := yymmdd g in
            (real_calendar_date (2000 + yy) mm dd →
             extraire_dlc_from_scan (Some texte)
             = Some (two_digits dd ++ u "/" ++ two_digits mm ++ u "/"
                     ++ four_digits (2000 + yy)))
            ∧ (¬ real_calendar_date (2000 + yy) mm dd →
               extraire_dlc_from_scan (Some texte) = None)) as Hdate.
  { intros i g Hfirst. rewrite (Hdec i g Hfirst).
    destruct (first_occurrence_digits _ _ _ Hfirst) as [H6 Hdig].
    exact (dlc_of_yymmjj_spec g H6 Hdig). }
  split_and!.
  - split.
    + intros [g (i & Hocc & _)%re_search_dlc_Some]. eauto.
    + intros (i & g & Hocc).
      destruct (re_search_dlc reste) as [g'|] eqn:E; [done|].
      rewrite re_search_dlc_None in E. by destruct (E i g).
  - apply re_search_dlc_Some.
  - intros Hnone%re_search_dlc_None.
    rewrite extraire_dlc_long by done. fold chaine reste. by rewrite Hnone.
  - exact Hdate.
  - split.
    + intros Hsome.
      destruct (re_search_dlc reste) as [g|] eqn:E.
      * apply re_search_dlc_Some in E as [i Hfirst].
        exists i, g. split; [done|].
        specialize (Hdate i g Hfirst).
        destruct (yymmdd g) as [[yy mm] dd]. destruct Hdate as [_ Hnot].
        apply dec_stable. intros Hn. rewrite (Hnot Hn) in Hsome.
        by destruct Hsome.
      * rewrite extraire_dlc_long in Hsome by done.
        fold chaine reste in Hsome. rewrite E in Hsome. by destruct Hsome.
    + intros (i & g & Hfirst & Hreal).
      specialize (Hdate i g Hfirst).
      destruct (yymmdd g) as [[yy mm] dd]. destruct Hdate as [Hyes _].
      by rewrite (Hyes Hreal).
Qed.

Lemma expiry_decoder_search_witness :
  extraire_dlc_from_scan
    (Some (u "01234567890123456789012345xx1515240229123"))
  = None
  ∧ extraire_dlc_from_scan (Some (u "01234567890123456789012345..15230228"))
    = Some (u "28/02/2023").
Proof.
  split.
  - destruct (expiry_decoder_search
                (u "01234567890123456789012345xx1515240229123"))
      as [_ H].
    destruct H as (_ & _ & _ & H & _); [vm_compute; lia|].
    destruct (proj1 (re_search_dlc_Some
                       (drop 26 (strip (u "01234567890123456789012345xx1515240229123")))
                       (u "152402")) eq_refl) as [i Hi].
    pose proof (H i _ Hi) as Hd.
    change (yymmdd (u "152402")) with (15, 24, 2)%Z in Hd.
    destruct Hd as [_ Hnot]. apply Hnot.
    unfold real_calendar_date. lia.
  - destruct (expiry_decoder_search
                (u "01234567890123456789012345..15230228"))
      as [_ H].
    destruct H as (_ & _ & _ & H & _); [vm_compute; lia|].
    destruct (proj1 (re_search_dlc_Some
                       (drop 26 (strip (u "01234567890123456789012345..15230228")))
                       (u "230228")) eq_refl) as [i Hi].
    pose proof (H i _ Hi) as Hd.
    change (yymmdd (u "230228")) with (23, 2, 28)%Z in Hd.
    destruct Hd as [Hyes _]. apply Hyes.
    unfold real_calendar_date. lia.
Defined.

(** C3 as stated fails in the "if" direction: an occurrence of the pattern
    whose six digits are not a date gives no match. Here "15230230" stands
    at offset 2 of the substring that starts at offset 26, and the decoder
    returns no match (day 30 in February); in the witness above a later
    occurrence that is a date ("15240229") is not tried either. *)
Lemma expiry_decoder_search_counterexample :
  26 < length (strip (u "01234567890123456789012345..15230230"))
  ∧ occurs_at (drop 26 (strip (u "01234567890123456789012345..15230230")))
      2 (u "230230")
  ∧ extraire_dlc_from_scan (Some (u "01234567890123456789012345..15230230"))
    = None.
Proof.
  split_and!; [vm_compute; lia| |reflexivity].
  exists (u ".."), []. split_and!; [reflexivity..|].
  apply Forall_forallb. reflexivity.
Qed.

(** C4. For every matched 6-digit group, the expiry decoder reads it as
    YYMMDD with year = 2000 + YY, month = MM and day = DD; when these do
    not form a real calendar date it returns no match, and otherwise it
    renders "DD/MM/YYYY" with a two-digit day, a two-digit month and a
    four-digit year. A group "230228" gives "28/02/2023" and a group
    "230230" (day 30 in February) gives no match. *)
Theorem expiry_decoder_date (texte g : str) :
  26 < length (strip texte) →
  re_search_dlc (drop 26 (strip texte)) = Some g →
  let '(yy, mm, dd) := yymmdd g in
  (length g = 6 ∧ Forall isdecimal g)
  ∧ (real_calendar_date (2000 + yy) mm dd →
     extraire_dlc_from_scan (Some texte)
     = Some (two_digits dd ++ u "/" ++ two_digits mm ++ u "/"
             ++ four_digits (2000 + yy)))
  ∧ (¬ real_calendar_date (2000 + yy) mm dd →
     extraire_dlc_from_scan (Some texte) = None)
  ∧ (g = u "230228" →
     extraire_dlc_from_scan (Some texte) = Some (u "28/02/2023"))
  ∧ (g = u "230230" → extraire_dlc_from_scan (Some texte) = None).
Proof.
  intros Hlen Hg. rewrite extraire_dlc_long, Hg by done. simpl mbind.
  apply re_search_dlc_Some in Hg as [i [Hlen6 Hdig]%first_occurrence_digits].
  pose proof (dlc_of_yymmjj_spec g Hlen6 Hdig) as Hspec.
  destruct (yymmdd g) as [[yy mm] dd]. destruct Hspec as [Hreal Hnot].
  split_and!; try done; intros ->; reflexivity.
Qed.

Lemma expiry_decoder_date_witness :
  extraire_dlc_from_scan (Some (u "01234567890123456789012345..15230228"))
  = Some (u "28/02/2023")
  ∧ extraire_dlc_from_scan (Some (u "01234567890123456789012345..15230230"))
    = None.
Proof.
  split.
  - apply (expiry_decoder_date (u "01234567890123456789012345..15230228")
             (u "230228")); [vm_compute; lia|reflexivity|reflexivity].
  - apply (expiry_decoder_date (u "01234567890123456789012345..15230230")
             (u "230230")); [vm_compute; lia|reflexivity|reflexivity].
Defined.

(** ** Rounding to binary64 *)

Lemma digits2_pos_le p k :
  (0 ≤ k)%Z → (Zpos p < 2 ^ k)%Z → (Zpos (digits2_pos p) ≤ k)%Z.
Proof.
  revert k. induction p as [p IH|p IH|]; intros k Hk Hp; simpl.
  - assert (k ≠ 0)%Z by (intros ->; simpl in Hp; lia).
    replace k with (Z.succ (k - 1)) in Hp by lia.
    rewrite Z.pow_succ_r in Hp by lia.
    specialize (IH (k - 1)%Z). lia.
  - assert (k ≠ 0)%Z by (intros ->; simpl in Hp; lia).
    replace k with (Z.succ (k - 1)) in Hp by lia.
    rewrite Z.pow_succ_r in Hp by lia.
    specialize (IH (k - 1)%Z). lia.
  - assert (k ≠ 0)%Z by (intros ->; simpl in Hp; lia). lia.
Qed.

Lemma Zdigits2_le m k :
  (0 ≤ m)%Z → (0 ≤ k)%Z → (m < 2 ^ k)%Z → (Zdigits2 m ≤ k)%Z.
Proof.
  intros Hm Hk Hlt. destruct m as [|p|p]; simpl; [done| |lia].
  by apply digits2_pos_le.
Qed.

Lemma shr_1_m mrs :
  (0 ≤ shr_m mrs)%Z → shr_m (shr_1 mrs) = (shr_m mrs / 2)%Z.
Proof.
  destruct mrs as [m r s]. simpl. intros Hm.
  destruct m as [|[p|p|]|p]; simpl; try done.
  - rewrite Pos2Z.inj_xI. apply Z.div_unique with 1%Z; lia.
  - rewrite Pos2Z.inj_xO. apply Z.div_unique with 0%Z; lia.
Qed.

Lemma pow2_xO p : (2 ^ Zpos p~0 = 2 ^ Zpos p * 2 ^ Zpos p)%Z.
Proof.
  replace (Zpos p~0) with (Zpos p + Zpos p)%Z by lia.
  by rewrite Z.pow_add_r by lia.
Qed.

Lemma pow2_xI p : (2 ^ Zpos p~1 = 2 * (2 ^ Zpos p * 2 ^ Zpos p))%Z.
Proof.
  replace (Zpos p~1) with (1 + (Zpos p + Zpos p))%Z by lia.
  by rewrite !Z.pow_add_r by lia.
Qed.

Lemma iter_pos_shr_1_m p mrs :
  (0 ≤ shr_m mrs)%Z →
  shr_m (SpecFloat.iter_pos shr_1 p mrs) = (shr_m mrs / 2 ^ Zpos p)%Z.
Proof.
  revert mrs. induction p as [p IH|p IH|]; intros mrs Hm;
    simpl SpecFloat.iter_pos.
  - assert (0 < 2 ^ Zpos p)%Z as Hpow by (apply Z.pow_pos_nonneg; lia).
    assert (0 ≤ shr_m (shr_1 mrs))%Z as H1
      by (rewrite shr_1_m by done; by apply Z.div_pos).
    assert (0 ≤ shr_m (SpecFloat.iter_pos shr_1 p (shr_1 mrs)))%Z as H2
      by (rewrite IH by done; apply Z.div_pos; lia).
    rewrite IH, IH, shr_1_m by done.
    rewrite !Z.div_div by lia. by rewrite pow2_xI, !Z.mul_assoc.
  - assert (0 < 2 ^ Zpos p)%Z as Hpow by (apply Z.pow_pos_nonneg; lia).
    assert (0 ≤ shr_m (SpecFloat.iter_pos shr_1 p mrs))%Z as H2
      by (rewrite IH by done; apply Z.div_pos; lia).
    rewrite IH, IH by done.
    rewrite !Z.div_div by lia. by rewrite pow2_xO.
  - by apply shr_1_m.
Qed.

(** Shifting to the exponent of the format: the exponent does not
    decrease, stays under any bound the magnitude respects, and the
    significand is divided accordingly. *)
Lemma shr_fexp_bound m e l B :
  (0 ≤ m)%Z → (e ≤ B)%Z → (-1074 ≤ B)%Z → (m < 2 ^ (B + 53 - e))%Z →
  ∃ mrs e1,
    shr_fexp prec emax m e l = (mrs, e1)
    ∧ (e ≤ e1 ≤ B)%Z
    ∧ shr_m mrs = (m / 2 ^ (e1 - e))%Z.
Proof.
  intros Hm He HB Hlt. unfold shr_fexp, shr.
  assert (Zdigits2 m ≤ B + 53 - e)%Z as Hd by (apply Zdigits2_le; lia).
  assert (shr_m (shr_record_of_loc m l) = m) as Hrec
    by by destruct l as [|[]].
  set (n := (fexp prec emax (Zdigits2 m + e) - e)%Z).
  assert (n ≤ B - e)%Z as Hn by (unfold n, fexp, emin, prec, emax; lia).
  destruct n as [|p|p] eqn:En.
  - eexists _, _. split; [done|]. split; [lia|].
    rewrite Z.sub_diag, Z.div_1_r. done.
  - eexists _, _. split; [done|]. split; [lia|].
    rewrite iter_pos_shr_1_m by lia. rewrite Hrec. do 2 f_equal. lia.
  - eexists _, _. split; [done|]. split; [lia|].
    rewrite Z.sub_diag, Z.div_1_r. done.
Qed.

Lemma round_nearest_even_bound m l :
  (m ≤ round_nearest_even m l ≤ m + 1)%Z.
Proof. destruct l as [|[]]; simpl; try lia. destruct (Z.even m); lia. Qed.

(** Rounding a magnitude below [2^1023] gives a zero or a finite number of
    the same sign. *)
Lemma binary_round_aux_finite sx m e l :
  (0 ≤ m)%Z → (e ≤ 970)%Z → (m < 2 ^ (1023 - e))%Z →
  binary_round_aux prec emax sx m e l = S754_zero sx
  ∨ ∃ m' e', binary_round_aux prec emax sx m e l = S754_finite sx m' e'.
Proof.
  intros Hm He Hlt. unfold binary_round_aux.
  destruct (shr_fexp_bound m e l 970) as (mrs1 & e1 & -> & He1 & Hm1);
    [lia..| |].
  { by replace (970 + 53 - e)%Z with (1023 - e)%Z by lia. }
  set (m2 := round_nearest_even (shr_m mrs1) (loc_of_shr_record mrs1)).
  pose proof (round_nearest_even_bound (shr_m mrs1) (loc_of_shr_record mrs1))
    as Hm2. fold m2 in Hm2.
  assert (0 < 2 ^ (e1 - e))%Z as Hpow by (apply Z.pow_pos_nonneg; lia).
  assert (0 ≤ shr_m mrs1)%Z as Hm1' by (rewrite Hm1; apply Z.div_pos; lia).
  assert (shr_m mrs1 < 2 ^ (1023 - e1))%Z as Hlt1.
  { rewrite Hm1. apply Z.div_lt_upper_bound; [done|].
    rewrite <-Z.pow_add_r by lia. by replace (e1 - e + (1023 - e1))%Z
      with (1023 - e)%Z by lia. }
  destruct (shr_fexp_bound m2 e1 loc_Exact 971) as (mrs2 & e2 & -> & He2 & Hm3);
    [lia..| |].
  { replace (971 + 53 - e1)%Z with (Z.succ (1023 - e1)) by lia.
    rewrite Z.pow_succ_r by lia. lia. }
  assert (0 ≤ shr_m mrs2)%Z as Hm3'.
  { rewrite Hm3. apply Z.div_pos; [lia|]. apply Z.pow_pos_nonneg; lia. }
  destruct (shr_m mrs2) as [|p|p]; [by left| |lia].
  right. unfold emax, prec.
  destruct (Z.leb_spec e2 (1024 - 53)); [eauto|lia].
Qed.

Lemma finite_nonneg_zero_or_finite x :
  (x = S754_zero false ∨ ∃ m e, x = S754_finite false m e) →
  finite_nonneg x = true.
Proof. intros [->|(m & e & ->)]; reflexivity. Qed.

Lemma pos_iter_xO mx d :
  Zpos (Pos.iter xO mx d) = (Zpos mx * 2 ^ Zpos d)%Z.
Proof.
  induction d as [|d IH] using Pos.peano_ind.
  - simpl. lia.
  - rewrite Pos.iter_succ, Pos2Z.inj_xO, IH, Pos2Z.inj_succ.
    rewrite Z.pow_succ_r by lia. lia.
Qed.

Lemma shl_align_spec mx ex ex' :
  ∃ mz ez,
    shl_align mx ex ex' = (mz, ez)
    ∧ (ez ≤ ex)%Z ∧ Zpos mz = (Zpos mx * 2 ^ (ex - ez))%Z.
Proof.
  unfold shl_align. destruct (ex' - ex)%Z as [|d|d] eqn:E.
  - eexists _, _. split; [done|]. rewrite Z.sub_diag. simpl. lia.
  - eexists _, _. split; [done|]. rewrite Z.sub_diag. simpl. lia.
  - eexists _, _. split; [done|]. split; [lia|].
    rewrite pos_iter_xO. do 2 f_equal. lia.
Qed.

(** A decimal number with a significand below [2^53] and no positive
    exponent is converted to a finite float that is not negative. *)
Lemma float_of_decimal_finite m e :
  (m < 2 ^ 53)%N → (e ≤ 0)%Z →
  finite_nonneg (float_of_decimal false m e) = true.
Proof.
  intros Hm He. destruct m as [|p]; [done|].
  assert (Zpos p < 2 ^ 53)%Z as Hp by lia.
  apply finite_nonneg_zero_or_finite. unfold float_of_decimal.
  destruct (Z.leb_spec 0 e) as [He0|He0].
  - assert (e = 0)%Z as -> by lia. rewrite Z.pow_0_r, Z.mul_1_r.
    change (Z.to_pos (Zpos p)) with p. unfold binary_round.
    destruct (shl_align_spec p 0 (fexp prec emax (Zpos (digits2_pos p) + 0)))
      as (mz & ez & -> & Hez & Hmz).
    apply binary_round_aux_finite; [lia..|]. rewrite Hmz.
    assert (0 < 2 ^ (0 - ez))%Z by (apply Z.pow_pos_nonneg; lia).
    apply Z.lt_le_trans with (2 ^ 53 * 2 ^ (0 - ez))%Z; [nia|].
    rewrite <-Z.pow_add_r by lia. apply Z.pow_le_mono_r; lia.
  - unfold SFdiv_core_binary.
    set (e' := Z.min _ _). assert (e' ≤ 0)%Z as He' by (unfold e'; lia).
    set (m' := match (0 - 0 - e')%Z with
               | 0%Z => Zpos p
               | Zpos _ => Z.shiftl (Zpos p) (0 - 0 - e')
               | Zneg _ => 0%Z
               end).
    assert (m' = Zpos p * 2 ^ (- e'))%Z as Hm'.
    { unfold m'. destruct (0 - 0 - e')%Z as [|s|s] eqn:Es; [| |lia].
      - replace (- e')%Z with 0%Z by lia. simpl. lia.
      - rewrite Z.shiftl_mul_pow2 by lia. do 2 f_equal. lia. }
    assert (0 < 10 ^ (- e))%Z as H10 by (apply Z.pow_pos_nonneg; lia).
    assert (0 < 2 ^ (- e'))%Z as H2 by (apply Z.pow_pos_nonneg; lia).
    pose proof (Z_div_mod m' (10 ^ (- e))%Z ltac:(lia)) as Hdiv.
    destruct (Z.div_eucl m' (10 ^ (- e))) as [q r]. destruct Hdiv as [Hq Hr].
    assert (0 ≤ q)%Z as Hq0 by nia.
    assert (q ≤ m')%Z as Hqm by nia.
    apply binary_round_aux_finite; [lia..|].
    apply Z.le_lt_trans with m'; [done|]. rewrite Hm'.
    apply Z.lt_le_trans with (2 ^ 53 * 2 ^ (- e'))%Z; [nia|].
    rewrite <-Z.pow_add_r by lia. apply Z.pow_le_mono_r; lia.
Qed.

(** ** [float] on numbers written with digits *)

Lemma to_ascii_app s1 s2 :
  to_ascii (s1 ++ s2)
  = t1 ← to_ascii s1; t2 ← to_ascii s2; Some (t1 ++ t2).
Proof.
  induction s1 as [|c s1 IH]; simpl app.
  - cbn [to_ascii mapM mret option_ret mbind option_bind].
    by destruct (to_ascii s2).
  - rewrite !to_ascii_cons, IH.
    destruct (to_ascii_char c); [|done]. cbn [mbind option_bind].
    destruct (to_ascii s1); [|done]. cbn [mbind option_bind].
    by destruct (to_ascii s2).
Qed.

Lemma py_float_to_ascii s t : to_ascii s = Some t → py_float s = py_float t.
Proof.
  intros E. unfold py_float. rewrite E.
  by rewrite (to_ascii_id t) by by eapply to_ascii_lt.
Qed.

(** A text of ASCII characters without blanks at its ends and without
    underscores goes to [strtod] as it is. *)
Lemma py_float_plain t x :
  Forall (λ c, c < 127 ∧ c ≠ 95)%N t →
  clean_head ascii_isspace t → clean_head ascii_isspace (reverse t) →
  strtod t = Some (x, []) →
  py_float t = Some x.
Proof.
  intros Ht H1 H2 Hx. unfold py_float.
  rewrite to_ascii_id by (eapply Forall_impl; [done|]; by intros c [? _]).
  cbn [mbind option_bind]. rewrite ascii_strip_id by done.
  unfold strip_underscores. rewrite strip_underscores_from_id; [|done|].
  - cbn [mbind option_bind]. by rewrite Hx.
  - eapply Forall_impl; [done|]. by intros c [_ ?].
Qed.

Lemma strtod_integer A :
  A ≠ [] → Forall is_ascii_digit A →
  strtod A = Some (float_of_decimal false (digits_value A) 0, []).
Proof.
  intros Hne HA. unfold strtod.
  destruct A as [|c A]; [done|].
  rewrite split_sign_digit by by inversion HA.
  rewrite span_digits_all by done.
  rewrite bool_decide_false by (by intros [? _]).
  cbn [split_exponent length]. by rewrite app_nil_r.
Qed.

Lemma strtod_decimal A B :
  A ≠ [] → Forall is_ascii_digit A → Forall is_ascii_digit B →
  strtod (A ++ u "." ++ B)
  = Some (float_of_decimal false (digits_value (A ++ B))
            (- Z.of_nat (length B)), []).
Proof.
  intros Hne HA HB. unfold strtod. change (u ".") with [46%N].
  destruct A as [|c A]; [done|].
  rewrite <-app_comm_cons, split_sign_digit by by inversion HA.
  rewrite app_comm_cons, span_digits_app by done.
  cbn [app]. rewrite span_digits_all by done.
  rewrite bool_decide_false by (by intros [? _]).
  cbn [split_exponent]. by rewrite Z.sub_0_l.
Qed.

Lemma digits_value_lt ds :
  Forall is_ascii_digit ds →
  (digits_value ds < 10 ^ N.of_nat (length ds))%N.
Proof.
  intros Hds. unfold digits_value.
  enough (∀ acc, foldl (λ acc c, 10 * acc + (c - 48)) acc ds + 1
                 ≤ (acc + 1) * 10 ^ N.of_nat (length ds))%N as H.
  { specialize (H 0%N). lia. }
  induction Hds as [|c ds Hc%ascii_digit_range _ IH]; intros acc.
  - simpl. lia.
  - cbn [foldl length]. etrans; [apply IH|].
    rewrite Nat2N.inj_succ, N.pow_succ_r'. nia.
Qed.

Lemma Forall_not_nil_head {A} (P : A → Prop) (l : list A) :
  l ≠ [] → Forall P l → ∃ c l', l = c :: l' ∧ P c.
Proof. destruct l as [|c l]; [done|]. intros _ [? _]%Forall_cons. eauto. Qed.

(** Normalising a text made of digits. *)
Lemma valeur_digits a :
  a ≠ [] → Forall isdecimal a →
  valeur_formatee_vers_float (Some a)
  = float_of_decimal false (digits_value (ascii_digits a)) 0.
Proof.
  intros Hne Ha. unfold valeur_formatee_vers_float.
  assert (strip a = a) as ->.
  { apply strip_of_id;
      (eapply Forall_clean_head; [apply isdecimal_not_space|]);
      [done|by apply Forall_reverse]. }
  rewrite bool_decide_false by done.
  assert (replace1 44 46 a = a) as ->.
  { unfold replace1. rewrite <-(list_fmap_id a) at 2.
    apply Forall_fmap_ext_1. eapply Forall_impl; [done|].
    intros c Hc%isdecimal_not_comma. simpl.
    by destruct (N.eqb_spec c 44). }
  rewrite (py_float_to_ascii _ _ (to_ascii_digits a Ha)).
  pose proof (ascii_digits_Forall a Ha) as HA.
  assert (ascii_digits a ≠ []) as HneA.
  { unfold ascii_digits. by destruct a. }
  rewrite (py_float_plain _ (float_of_decimal false
                               (digits_value (ascii_digits a)) 0));
    [done|..].
  - eapply Forall_impl; [done|]. intros c ?%ascii_digit_range. lia.
  - eapply Forall_clean_head; [apply ascii_digit_not_space|done].
  - eapply Forall_clean_head; [apply ascii_digit_not_space|].
    by apply Forall_reverse.
  - by apply strtod_integer.
Qed.

Lemma ascii_digits_length g : length (ascii_digits g) = length g.
Proof. unfold ascii_digits. by rewrite length_fmap. Qed.

Lemma replace1_digits a :
  Forall isdecimal a → replace1 44 46 a = a.
Proof.
  intros Ha. unfold replace1. rewrite <-(list_fmap_id a) at 2.
  apply Forall_fmap_ext_1. eapply Forall_impl; [done|].
  intros c Hc%isdecimal_not_comma. simpl. by destruct (N.eqb_spec c 44).
Qed.

(** Normalising digits, a comma, digits. *)
Lemma valeur_weight a b :
  a ≠ [] → b ≠ [] → Forall isdecimal a → Forall isdecimal b →
  valeur_formatee_vers_float (Some (a ++ u "," ++ b))
  = float_of_decimal false (digits_value (ascii_digits a ++ ascii_digits b))
      (- Z.of_nat (length b)).
Proof.
  intros Hna Hnb Ha Hb. unfold valeur_formatee_vers_float.
  destruct (Forall_not_nil_head _ a Hna Ha) as (ca & a' & Ea & Hca).
  assert (Forall isdecimal (reverse b)) as Hrb by by apply Forall_reverse.
  assert (reverse b ≠ []) as Hnrb.
  { intros E%(f_equal length). rewrite length_reverse in E.
    by destruct b. }
  destruct (Forall_not_nil_head _ _ Hnrb Hrb) as (cb & b' & Eb & Hcb).
  assert (strip (a ++ u "," ++ b) = a ++ u "," ++ b) as ->.
  { apply strip_of_id.
    - rewrite Ea. simpl. by apply isdecimal_not_space.
    - rewrite !reverse_app, Eb. simpl. by apply isdecimal_not_space. }
  rewrite bool_decide_false by (rewrite Ea; done).
  assert (replace1 44 46 (a ++ u "," ++ b) = a ++ u "." ++ b) as ->.
  { unfold replace1. rewrite !fmap_app. fold (replace1 44 46 a).
    fold (replace1 44 46 b). by rewrite !replace1_digits. }
  pose proof (ascii_digits_Forall a Ha) as HA.
  pose proof (ascii_digits_Forall b Hb) as HB.
  assert (to_ascii (a ++ u "." ++ b)
          = Some (ascii_digits a ++ u "." ++ ascii_digits b)) as Hasc.
  { rewrite !to_ascii_app, (to_ascii_digits a Ha), (to_ascii_digits b Hb).
    change (to_ascii (u ".")) with (Some (u ".")). reflexivity. }
  rewrite (py_float_to_ascii _ _ Hasc).
  assert (ascii_digits a ≠ []) as HnA by (rewrite Ea; done).
  rewrite (py_float_plain _ (float_of_decimal false
             (digits_value (ascii_digits a ++ ascii_digits b))
             (- Z.of_nat (length b)))); [done|..].
  - rewrite !Forall_app. split_and!.
    + eapply Forall_impl; [exact HA|]. intros c ?%ascii_digit_range. lia.
    + repeat constructor; done.
    + eapply Forall_impl; [exact HB|]. intros c ?%ascii_digit_range. lia.
  - unfold ascii_digits. rewrite Ea. simpl.
    apply ascii_digit_not_space.
    rewrite Ea in HA. by inversion HA.
  - rewrite !reverse_app. unfold ascii_digits at 1.
    rewrite <-fmap_reverse, Eb. simpl.
    apply ascii_digit_not_space.
    assert (Forall is_ascii_digit (reverse (ascii_digits b))) as HrB
      by by apply Forall_reverse.
    unfold ascii_digits in HrB. rewrite <-fmap_reverse, Eb in HrB.
    by inversion HrB.
  - rewrite strtod_decimal by done. by rewrite ascii_digits_length.
Qed.

(** The text the decoder returns for a run of at most 15 digits is
    normalised to a finite float that is not negative. *)
Lemma valeur_digits_finite a :
  a ≠ [] → Forall isdecimal a → length a ≤ 15 →
  finite_nonneg (valeur_formatee_vers_float (Some a)) = true.
Proof.
  intros Hne Ha Hlen. rewrite valeur_digits by done.
  apply float_of_decimal_finite; [|done].
  pose proof (digits_value_lt _ (ascii_digits_Forall a Ha)) as H.
  rewrite ascii_digits_length in H.
  eapply N.lt_le_trans; [exact H|].
  etrans; [apply (N.pow_le_mono_r 10 _ 15); lia|]. by vm_compute.
Qed.

Lemma insert_comma_finite p n s :
  0 < p → Forall isdecimal n → length n ≤ 15 →
  insert_comma p n = Some s →
  finite_nonneg (valeur_formatee_vers_float (Some s)) = true.
Proof.
  intros Hp Hn Hlen. unfold insert_comma. case_decide as Hpn; [|done].
  intros <-%(inj Some).
  assert (take p n ≠ []) as Hna.
  { intros E%(f_equal length). rewrite length_take in E. simpl in E. lia. }
  assert (drop p n ≠ []) as Hnb.
  { intros E%(f_equal length). rewrite length_drop in E. simpl in E. lia. }
  assert (Forall isdecimal (take p n)) as Ha by by apply Forall_take.
  assert (Forall isdecimal (drop p n)) as Hb by by apply Forall_drop.
  rewrite valeur_weight by done.
  apply float_of_decimal_finite; [|lia].
  pose proof (digits_value_lt (ascii_digits (take p n) ++ ascii_digits (drop p n)))
    as H.
  rewrite length_app, !ascii_digits_length, length_take, length_drop in H.
  eapply N.lt_le_trans.
  { apply H. apply Forall_app. split; by apply ascii_digits_Forall. }
  etrans; [apply (N.pow_le_mono_r 10 _ 15); lia|]. by vm_compute.
Qed.



(** C8 (amended). For every input on which the weight decoder produces a
    weight string from a segment made of decimal digits only (the 5
    characters at offset 7 of a 13-character scan, the 6 characters at
    offset 20 otherwise), the value normalizer applied to that string gives
    a finite float that is not negative. *)
Theorem weight_string_normalizes (ligne s : str) :
  let chaine := strip ligne in
  let segment :=
    if decide (length chaine = 13) then slice 7 12 chaine
    else slice 20 26 chaine in
  formater_ligne (Some ligne) = Some s →
  Forall isdecimal segment →
  finite_nonneg (valeur_formatee_vers_float (Some s)) = true.
Proof.
  intros chaine segment Hs Hseg.
  assert (length segment ≤ 15) as Hlen.
  { unfold segment, slice. case_decide; solve_length. }
  unfold segment in *. clear segment. case_decide as H13.
  - rewrite formater_ligne_13 in Hs by done.
    eapply insert_comma_finite; [|exact Hseg|exact Hlen|exact Hs]. lia.
  - destruct (decide (length chaine < 26)) as [H26|H26].
    { by rewrite formater_ligne_short in Hs. }
    rewrite formater_ligne_long in Hs by (fold chaine; lia).
    fold chaine in Hs. destruct (startswith _ _); [|done].
    unfold decimal_rule in Hs.
    repeat case_decide; try done;
      try (eapply insert_comma_finite; [|exact Hseg|exact Hlen|exact Hs]; lia).
    apply (inj Some) in Hs as <-. apply valeur_digits_finite; [|done..].
    intros E%(f_equal length). revert E. unfold slice. solve_length.
Qed.

Lemma weight_string_normalizes_witness :
  finite_nonneg (valeur_formatee_vers_float (Some (u "89,012"))) = true.
Proof.
  apply (weight_string_normalizes (u "1234567890123") (u "89,012"));
    [reflexivity|].
  apply Forall_forallb. vm_compute. reflexivity.
Defined.

(** C8 as stated fails: the decoder copies whatever characters the segment
    holds, so a segment "-1234" is returned as "-1,234", which is normalised
    to a negative number, and a digit run "   inf" under format code "3100"
    is normalised to infinity. *)
Lemma weight_string_normalizes_counterexample :
  (formater_ligne (Some (u "1234567-1234x")) = Some (u "-1,234")
   ∧ valeur_formatee_vers_float (Some (u "-1,234"))
     = S754_finite true 5557441940175192 (-52)
   ∧ finite_nonneg (valeur_formatee_vers_float (Some (u "-1,234"))) = false)
  ∧ (formater_ligne (Some (u "01234567890123453100   inf"))
     = Some (u "   inf")
     ∧ valeur_formatee_vers_float (Some (u "   inf")) = S754_infinity false
     ∧ finite_nonneg (valeur_formatee_vers_float (Some (u "   inf")))
       = false).
Proof. split_and!; vm_compute; reflexivity. Qed.

(** ** The aggregation loop *)

Lemma formater_ligne_strip t :
  formater_ligne (Some (strip t)) = formater_ligne (Some t).
Proof. unfold formater_ligne. by rewrite strip_idemp. Qed.

Lemma valeur_strip t :
  valeur_formatee_vers_float (Some (strip t))
  = valeur_formatee_vers_float (Some t).
Proof. unfold valeur_formatee_vers_float. by rewrite strip_idemp. Qed.

(** The decoder never returns an empty string. *)
Lemma formater_ligne_truthy ligne s :
  formater_ligne (Some ligne) = Some s → truthy s = true.
Proof.
  intros Hs. unfold truthy. rewrite bool_decide_false; [done|].
  intros ->. revert Hs.
  destruct (decide (length (strip ligne) = 13)) as [H|H].
  - rewrite formater_ligne_13 by done. by intros ?%insert_comma_length.
  - destruct (decide (length (strip ligne) < 26)) as [H'|H'].
    + by rewrite formater_ligne_short.
    + rewrite formater_ligne_long by lia. destruct (startswith _ _); [|done].
      unfold decimal_rule.
      repeat case_decide; try done; try by intros ?%insert_comma_length.
      intros E%(inj Some)%(f_equal length). revert E.
      unfold slice. solve_length.
Qed.

(** One iteration in terms of the normalized value of the entry. *)
Lemma iteration_spec st r cellule :
  iteration st r cellule =
    match normalized cellule with
    | None => st
    | Some v =>
      {| total := fadd (total st) v;
         premiere_ligne_erreur :=
           if anomalous v && bool_decide (premiere_ligne_erreur st = None)
           then Some (r + 1)
           else premiere_ligne_erreur st |}
    end.
Proof.
  unfold iteration, normalized. destruct cellule as [t|]; [|done].
  case_bool_decide; [done|].
  rewrite formater_ligne_strip. unfold effective_text.
  destruct (formater_ligne (Some t)) as [w|] eqn:E.
  - by rewrite (formater_ligne_truthy _ _ E).
  - by rewrite valeur_strip.
Qed.

Lemma boucle_spec lignes r st :
  boucle r lignes st =
    {| total := foldl fadd (total st) (omap normalized lignes);
       premiere_ligne_erreur :=
         match premiere_ligne_erreur st with
         | Some k => Some k
         | None =>
           (λ ix, S (r + ix.1)) <$> list_find anomalous_entry lignes
         end |}.
Proof.
  revert r st. induction lignes as [|c lignes IH]; intros r st.
  - simpl. by destruct st as [? []].
  - cbn [boucle]. rewrite IH, iteration_spec.
    cbn [omap list_omap list_find].
    destruct (normalized c) as [v|] eqn:En; cbn [total premiere_ligne_erreur].
    + assert (anomalous_entry c = anomalous v) as Hc
        by (unfold anomalous_entry; by rewrite En).
      destruct (premiere_ligne_erreur st) as [k|] eqn:Ek.
      * rewrite bool_decide_false, andb_false_r by done. done.
      * rewrite bool_decide_true, andb_true_r by done.
        destruct (anomalous v) eqn:Ev.
        -- rewrite decide_True by (rewrite Hc, ?Ev; simpl; tauto). simpl.
           do 2 f_equal. lia.
        -- rewrite decide_False by (rewrite Hc, ?Ev; simpl; tauto). f_equal.
           destruct (list_find _ lignes) as [[i x]|]; simpl; [|done].
           do 2 f_equal. lia.
    + assert (anomalous_entry c = false) as Hc
        by (unfold anomalous_entry; by rewrite En).
      rewrite decide_False by (rewrite Hc, ?Ev; simpl; tauto). f_equal.
      destruct (premiere_ligne_erreur st); [done|].
      destruct (list_find _ lignes) as [[i x]|]; simpl; [|done].
      do 2 f_equal. lia.
Qed.

Lemma calculer_total_spec lignes :
  total (calculer_total lignes) = float_sum (omap normalized lignes)
  ∧ premiere_ligne_erreur (calculer_total lignes)
    = (λ ix, S ix.1) <$> list_find anomalous_entry lignes.
Proof. unfold calculer_total. rewrite boucle_spec. done. Qed.

(** The two thresholds are strict, and a NaN is never anomalous. *)
Lemma anomalous_thresholds :
  anomalous f_50 = false
  ∧ anomalous (float_of_decimal false 5001 (-2)) = true
  ∧ anomalous f_0_01 = false
  ∧ anomalous (float_of_decimal false 9 (-3)) = true
  ∧ anomalous f_0_0 = false
  ∧ anomalous (float_of_decimal true 1 0) = false
  ∧ anomalous S754_nan = false
  ∧ anomalous (S754_infinity false) = true.
Proof. split_and!; reflexivity. Qed.

(** C6 (amended). For every ordered sequence of entries, the aggregator
    computes total = the sum, accumulated in binary64 in the order of the
    entries, of the value normalizer applied to each entry's effective
    weight text (the decoder's output when it matches, else the raw text),
    skipping the entries whose weight field is empty, and
    first_anomalous_index = the 1-based position of the first entry whose
    normalized value is greater than 50 or strictly between 0 and 0.01
    (none if there is no such entry); the total is displayed with three
    decimals. Entries with normalized values [3.0, 0.005, 10.0] give index 2
    and a total displayed as 13.005 (the accumulated binary64 sum is
    13.004999999999999). *)
Theorem anomaly_aggregator (lignes : list (option str)) :
  let st := calculer_total lignes in
  total st = float_sum (omap normalized lignes)
  ∧ (∀ k, premiere_ligne_erreur st = Some k
          ↔ ∃ i c, k = S i ∧ lignes !! i = Some c ∧ anomalous_entry c
                   ∧ ∀ j c', lignes !! j = Some c' → j < i →
                             ¬ anomalous_entry c')
  ∧ (premiere_ligne_erreur st = None
     ↔ ∀ c, c ∈ lignes → ¬ anomalous_entry c)
  ∧ champ_total (mettre_a_jour_total lignes)
    = u "Totale : " ++ format_f 3 (float_sum (omap normalized lignes))
  ∧ (lignes = exemple_lignes →
     omap normalized lignes
     = [float_of_decimal false 3 0; float_of_decimal false 5 (-3);
        float_of_decimal false 10 0]
     ∧ premiere_ligne_erreur st = Some 2
     ∧ total st = S754_finite false 7321164144244162 (-49)
     ∧ champ_total (mettre_a_jour_total lignes) = u "Totale : 13.005").
Proof.
  intros st. destruct (calculer_total_spec lignes) as [Htotal Hpremiere].
  fold st in Htotal, Hpremiere. split_and!.
  - done.
  - intros k. rewrite Hpremiere. split.
    + destruct (list_find _ lignes) as [[i c]|] eqn:E; [|done].
      intros [= <-]. apply list_find_Some in E as (? & ? & ?).
      exists i, c. done.
    + intros (i & c & -> & Hi & Hc & Hfirst).
      assert (list_find anomalous_entry lignes = Some (i, c)) as ->; [|done].
      apply list_find_Some. done.
  - rewrite Hpremiere. split.
    + destruct (list_find _ lignes) as [[i c]|] eqn:E; [done|].
      intros _. apply list_find_None in E. by apply Forall_forall.
    + intros H. assert (list_find anomalous_entry lignes = None) as ->;
        [|done].
      apply list_find_None. by apply Forall_forall.
  - unfold mettre_a_jour_total. fold st. cbn [champ_total]. by rewrite Htotal.
  - intros ->. split_and!; vm_compute; reflexivity.
Qed.

Lemma anomaly_aggregator_witness :
  premiere_ligne_erreur (calculer_total exemple_lignes) = Some 2
  ∧ champ_total (mettre_a_jour_total exemple_lignes) = u "Totale : 13.005".
Proof.
  destruct (anomaly_aggregator exemple_lignes) as (_ & _ & _ & _ & H).
  destruct (H eq_refl) as (_ & H2 & _ & H4). split; [exact H2|exact H4].
Defined.

(** C6 as stated fails on its own example: the binary64 sum of 3.0, 0.005
    and 10.0, accumulated from 0.0, is 13.004999999999999, which is not the
    float 13.005. *)
Lemma anomaly_aggregator_counterexample :
  omap normalized exemple_lignes
  = [float_of_decimal false 3 0; float_of_decimal false 5 (-3);
     float_of_decimal false 10 0]
  ∧ total (calculer_total exemple_lignes)
    = S754_finite false 7321164144244162 (-49)
  ∧ float_of_decimal false 13005 (-3)
    = S754_finite false 7321164144244163 (-49)
  ∧ total (calculer_total exemple_lignes) ≠ float_of_decimal false 13005 (-3)
  ∧ SFeqb (total (calculer_total exemple_lignes))
      (float_of_decimal false 13005 (-3)) = false.
Proof.
  split_and!; try (vm_compute; reflexivity). vm_compute. discriminate.
Qed.

(** * Further properties of the decoders *)

Lemma lstrip_of_pad (f : N → bool) a s :
  Forall f a → lstrip_of f (a ++ s) = lstrip_of f s.
Proof.
  induction 1 as [|c a Hc _ IH]; [done|]. simpl.
  by rewrite (Is_true_true_1 _ Hc).
Qed.

Lemma lstrip_of_app (f : N → bool) s b :
  lstrip_of f (s ++ b)
  = match lstrip_of f s with
    | [] => lstrip_of f b
    | c :: s' => c :: s' ++ b
    end.
Proof.
  induction s as [|c s IH]; [done|]. simpl.
  by destruct (f c).
Qed.

Lemma lstrip_of_all (f : N → bool) b : Forall f b → lstrip_of f b = [].
Proof.
  intros H. rewrite <-(app_nil_r b). by rewrite lstrip_of_pad.
Qed.

Lemma strip_of_pad (f : N → bool) a s b :
  Forall f a → Forall f b → strip_of f (a ++ s ++ b) = strip_of f s.
Proof.
  intros Ha Hb. unfold strip_of. rewrite lstrip_of_pad by done.
  rewrite lstrip_of_app. destruct (lstrip_of f s) as [|c s'] eqn:E.
  - rewrite (lstrip_of_all f b Hb). done.
  - rewrite app_comm_cons, reverse_app, lstrip_of_pad; [done|].
    by apply Forall_reverse.
Qed.

(** X1. White space around a scan never changes what the three functions
    return. *)
Theorem decoders_ignore_padding (a s b : str) :
  Forall isspace a → Forall isspace b →
  formater_ligne (Some (a ++ s ++ b)) = formater_ligne (Some s)
  ∧ extraire_dlc_from_scan (Some (a ++ s ++ b))
    = extraire_dlc_from_scan (Some s)
  ∧ valeur_formatee_vers_float (Some (a ++ s ++ b))
    = valeur_formatee_vers_float (Some s).
Proof.
  intros Ha Hb.
  assert (strip (a ++ s ++ b) = strip s) as E by by apply strip_of_pad.
  unfold formater_ligne, extraire_dlc_from_scan, valeur_formatee_vers_float.
  by rewrite E.
Qed.

Lemma decoders_ignore_padding_witness :
  formater_ligne (Some (u "  " ++ u "1234567890123" ++ u " "))
  = formater_ligne (Some (u "1234567890123")).
Proof.
  apply (decoders_ignore_padding (u "  ") (u "1234567890123") (u " "));
    apply Forall_forallb; reflexivity.
Defined.

Lemma ascii_digits_take_drop p n :
  ascii_digits (take p n) ++ ascii_digits (drop p n) = ascii_digits n.
Proof. unfold ascii_digits. by rewrite <-fmap_app, take_drop. Qed.

Lemma insert_comma_value p n s :
  0 < p → Forall isdecimal n → insert_comma p n = Some s →
  valeur_formatee_vers_float (Some s)
  = float_of_decimal false (digits_value (ascii_digits n))
      (- Z.of_nat (length n - p)).
Proof.
  intros Hp Hn. unfold insert_comma. case_decide as Hpn; [|done].
  intros <-%(inj Some). rewrite valeur_weight.
  - by rewrite ascii_digits_take_drop, length_drop.
  - intros E%(f_equal length). rewrite length_take in E. simpl in E. lia.
  - intros E%(f_equal length). rewrite length_drop in E. simpl in E. lia.
  - by apply Forall_take.
  - by apply Forall_drop.
Qed.

(** X2. When the extracted segment holds decimal digits only, the
    normalized value of the decoded weight is the binary64 number nearest
    to the integer the segment denotes divided by 1000 for a 13-character
    scan, and divided by 10^x under format code "310x": the last digit of
    the format code is the number of decimals. *)
Theorem decoded_weight_value (ligne s : str) :
  let chaine := strip ligne in
  let segment :=
    if decide (length chaine = 13) then slice 7 12 chaine
    else slice 20 26 chaine in
  formater_ligne (Some ligne) = Some s →
  Forall isdecimal segment →
  ∃ x : nat,
    (length chaine = 13 ∧ x = 3
     ∨ length chaine ≠ 13 ∧ x ≤ 5
       ∧ slice 16 20 chaine = u "310" ++ [(48 + N.of_nat x)%N])
    ∧ valeur_formatee_vers_float (Some s)
      = float_of_decimal false (digits_value (ascii_digits segment))
          (- Z.of_nat x).
Proof.
  intros chaine segment Hs Hseg. unfold segment in *. clear segment.
  case_decide as H13.
  - exists 3. split; [by left|].
    rewrite formater_ligne_13 in Hs by done.
    rewrite (insert_comma_value 2 _ s) by (done || lia).
    do 3 f_equal. unfold slice. solve_length.
  - destruct (decide (length chaine < 26)) as [H26|H26].
    { by rewrite formater_ligne_short in Hs. }
    rewrite formater_ligne_long in Hs by (fold chaine; lia).
    fold chaine in Hs. destruct (startswith _ _); [|done].
    assert (length (slice 20 26 chaine) = 6) as Hlen
      by (unfold slice; solve_length).
    unfold decimal_rule in Hs.
    destruct (decide (slice 16 20 chaine = u "3100")) as [Hc|_].
    { exists 0. split; [right; rewrite Hc; split_and!; (done || lia)|].
      apply (inj Some) in Hs as <-. apply valeur_digits; [|done].
      intros E. by rewrite E in Hlen. }
    destruct (decide (slice 16 20 chaine = u "3101")) as [Hc|_].
    { exists 1. split; [right; rewrite Hc; split_and!; (done || lia)|].
      rewrite (insert_comma_value 5 _ s) by (done || lia).
      by rewrite Hlen. }
    destruct (decide (slice 16 20 chaine = u "3102")) as [Hc|_].
    { exists 2. split; [right; rewrite Hc; split_and!; (done || lia)|].
      rewrite (insert_comma_value 4 _ s) by (done || lia).
      by rewrite Hlen. }
    destruct (decide (slice 16 20 chaine = u "3103")) as [Hc|_].
    { exists 3. split; [right; rewrite Hc; split_and!; (done || lia)|].
      rewrite (insert_comma_value 3 _ s) by (done || lia).
      by rewrite Hlen. }
    destruct (decide (slice 16 20 chaine = u "3104")) as [Hc|_].
    { exists 4. split; [right; rewrite Hc; split_and!; (done || lia)|].
      rewrite (insert_comma_value 2 _ s) by (done || lia).
      by rewrite Hlen. }
    destruct (decide (slice 16 20 chaine = u "3105")) as [Hc|_]; [|done].
    exists 5. split; [right; rewrite Hc; split_and!; (done || lia)|].
    rewrite (insert_comma_value 1 _ s) by (done || lia).
    by rewrite Hlen.
Qed.

Lemma decoded_weight_value_witness :
  valeur_formatee_vers_float (Some (u "123,456"))
  = float_of_decimal false 123456 (-3).
Proof.
  destruct (decoded_weight_value (u "0123456789012345310312345678")
              (u "123,456") eq_refl) as (x & Hx & Hv).
  { apply Forall_forallb. reflexivity. }
  destruct Hx as [[Hx _]|(_ & _ & Hx)].
  - vm_compute in Hx. discriminate.
  - change (slice 16 20 _) with [51; 49; 48; 51]%N in Hx.
    change (u "310") with [51; 49; 48]%N in Hx. cbn [app] in Hx.
    assert (x = 3) as -> by (injection Hx; lia).
    exact Hv.
Defined.

(** The rendering of the date parts. *)
Lemma two_digits_shape n :
  (0 ≤ n < 100)%Z →
  ∃ a b, two_digits n = [a; b] ∧ is_ascii_digit a ∧ is_ascii_digit b.
Proof.
  intros Hn. unfold two_digits. eexists _, _. split; [done|].
  assert (0 ≤ n / 10 < 10)%Z
    by (split; [apply Z.div_pos|apply Z.div_lt_upper_bound]; lia).
  pose proof (Z.mod_pos_bound n 10 ltac:(lia)).
  split; apply ascii_digit_range; lia.
Qed.

Lemma four_digits_shape n :
  (2000 ≤ n < 2100)%Z →
  ∃ a b, four_digits n = [50; 48; a; b]%N
         ∧ is_ascii_digit a ∧ is_ascii_digit b.
Proof.
  intros Hn.
  pose proof (forallb_below
    (λ k, let s := four_digits (2000 + Z.of_nat k) in
          bool_decide (take 2 s = [50; 48]%N ∧ length s = 4)
          && forallb is_ascii_digit s) 100) as H.
  specialize (H ltac:(vm_compute; reflexivity) (Z.to_nat (n - 2000))
                ltac:(lia)).
  cbv beta zeta in H.
  replace (2000 + Z.of_nat (Z.to_nat (n - 2000)))%Z with n in H by lia.
  apply andb_prop in H as [[H1 H2]%bool_decide_eq_true_1 H3].
  unfold four_digits in *. cbn [take forallb] in H1, H3.
  injection H1 as E1 E2. rewrite !andb_true_iff in H3.
  eexists _, _. split_and!; [by rewrite E1, E2|..];
    apply Is_true_true; tauto.
Qed.

Lemma extraire_dlc_shape texte s :
  extraire_dlc_from_scan (Some texte) = Some s →
  ∃ d1 d2 m1 m2 y1 y2,
    s = [d1; d2; 47; m1; m2; 47; 50; 48; y1; y2]%N
    ∧ Forall is_ascii_digit [d1; d2; m1; m2; y1; y2].
Proof.
  intros Hs.
  destruct (decide (length (strip texte) ≤ 26)) as [Hlen|Hlen].
  { by rewrite extraire_dlc_short in Hs. }
  rewrite extraire_dlc_long in Hs by lia.
  destruct (re_search_dlc _) as [g|] eqn:Eg; [|done]. simpl in Hs.
  apply re_search_dlc_Some in Eg as [i [Hlen6 Hdig]%first_occurrence_digits].
  pose proof (dlc_of_yymmjj_spec g Hlen6 Hdig) as Hspec.
  destruct g as [|c1 [|c2 [|c3 [|c4 [|c5 [|c6 [|]]]]]]]; try done.
  repeat (apply Forall_cons in Hdig as [? Hdig]).
  pose proof (digit_pair_range c1 c2 ltac:(done) ltac:(done)) as Hyy.
  pose proof (digit_pair_range c3 c4 ltac:(done) ltac:(done)) as Hmm.
  pose proof (digit_pair_range c5 c6 ltac:(done) ltac:(done)) as Hdd.
  cbn [yymmdd] in Hspec. destruct Hspec as [Hreal Hnot].
  assert (real_calendar_date (2000 + digit_pair c1 c2) (digit_pair c3 c4)
            (digit_pair c5 c6)) as Hr.
  { apply dec_stable. intros Hn. by rewrite Hnot in Hs. }
  rewrite Hreal in Hs by done. apply (inj Some) in Hs as <-.
  destruct (two_digits_shape _ Hdd) as (d1 & d2 & -> & ? & ?).
  destruct (two_digits_shape _ Hmm) as (m1 & m2 & -> & ? & ?).
  destruct (four_digits_shape (2000 + digit_pair c1 c2) ltac:(lia))
    as (y1 & y2 & -> & ? & ?).
  exists d1, d2, m1, m2, y1, y2. split; [done|]. by repeat constructor.
Qed.

(** X3. Whatever the expiry decoder returns is made of ten characters,
    "DD/MM/20YY" with ASCII digits, and is itself rejected by both
    decoders. *)
Theorem expiry_date_shape (texte s : str) :
  extraire_dlc_from_scan (Some texte) = Some s →
  (∃ d1 d2 m1 m2 y1 y2,
     s = [d1; d2; 47; m1; m2; 47; 50; 48; y1; y2]%N
     ∧ Forall is_ascii_digit [d1; d2; m1; m2; y1; y2])
  ∧ formater_ligne (Some s) = None
  ∧ extraire_dlc_from_scan (Some s) = None.
Proof.
  intros Hshape%extraire_dlc_shape. split; [done|].
  destruct Hshape as (d1 & d2 & m1 & m2 & y1 & y2 & -> & _).
  pose proof (strip_length [d1; d2; 47; m1; m2; 47; 50; 48; y1; y2]%N) as Hl.
  simpl in Hl. split.
  - apply formater_ligne_short; lia.
  - apply extraire_dlc_short; lia.
Qed.

Lemma expiry_date_shape_witness :
  formater_ligne (Some (u "28/02/2023")) = None
  ∧ extraire_dlc_from_scan (Some (u "28/02/2023")) = None.
Proof.
  apply (expiry_date_shape (u "01234567890123456789012345..15230228")
           (u "28/02/2023")).
  reflexivity.
Defined.

(** * Properties of the table and of the window *)

Lemma avec_table_avec_table t t' w :
  avec_table t (avec_table t' w) = avec_table t w.
Proof. by destruct w. Qed.

Lemma avec_table_id w : avec_table (w_table w) w = w.
Proof. by destruct w. Qed.

Lemma setRowCount_succ (t : tableau) :
  setRowCount (length t + 1) t = t ++ [ligne_sans_item].
Proof.
  unfold setRowCount. rewrite take_ge by lia.
  by replace (length t + 1 - length t) with 1 by lia.
Qed.

Lemma setItem_bloque_last (t : tableau) :
  setItem_bloque (length t) 1 [] (t ++ [ligne_sans_item])
  = t ++ [ligne_dlc_vide].
Proof.
  unfold setItem_bloque.
  rewrite <-(Nat.add_0_r (length t)), alter_app_r. done.
Qed.

Lemma item_last_dlc (t : tableau) :
  item (t ++ [ligne_dlc_vide]) (length t) 1 = Some [].
Proof. unfold item. by rewrite list_lookup_middle. Qed.

(** Adding the empty row at the end, with the signal it emits: the slot
    finds an empty DLC text and only asks for the two refreshes. *)
Lemma ajouter_ligne_vide w :
  setItem (length (w_table w)) 1 []
    (avec_table (w_table w ++ [ligne_sans_item]) w)
  = singleShot [Assurer_ligne_vide; Mettre_a_jour_total]
      (avec_table (w_table w ++ [ligne_dlc_vide]) w).
Proof.
  unfold setItem. cbn [w_table avec_table].
  rewrite length_app. cbn [length].
  destruct (Nat.ltb_spec (length (w_table w)) (length (w_table w) + 1));
    [|lia].
  cbn [andb Nat.ltb Nat.leb]. rewrite setItem_bloque_last.
  unfold lors_changement_cellule. cbn [w_table avec_table].
  rewrite item_last_dlc.
  change (strip []) with (@nil N). rewrite bool_decide_true by done.
  cbn [Nat.eqb]. by rewrite avec_table_avec_table.
Qed.

Lemma derniere_vide_app t l : derniere_vide (t ++ [l]) = poids_vide l.
Proof. unfold derniere_vide. by rewrite last_snoc. Qed.

Lemma snoc_case {A} (l : list A) : l = [] ∨ ∃ l' x, l = l' ++ [x].
Proof. destruct l as [|x l _] using rev_ind; eauto. Qed.

(** What [assurer_ligne_vide] does, in one equation. *)
Lemma assurer_ligne_vide_spec w :
  assurer_ligne_vide w =
    if derniere_vide (w_table w) then w
    else singleShot [Assurer_ligne_vide; Mettre_a_jour_total]
           (avec_table (w_table w ++ [ligne_dlc_vide]) w).
Proof.
  unfold assurer_ligne_vide.
  destruct (snoc_case (w_table w)) as [Et|(t & l0 & Et)]; rewrite Et.
  - cbn [length]. change (Z.of_nat 0 - 1 <? 0)%Z with true. cbv iota.
    change (setRowCount 1 []) with ([] ++ [ligne_sans_item]).
    pose proof (ajouter_ligne_vide (avec_table [] w)) as H.
    cbn [w_table avec_table length] in H.
    rewrite !avec_table_avec_table in H. exact H.
  - rewrite derniere_vide_app, length_app. cbn [length].
    destruct (Z.ltb_spec (Z.of_nat (length t + 1) - 1) 0) as [?|_]; [lia|].
    replace (Z.to_nat (Z.of_nat (length t + 1) - 1)) with (length t) by lia.
    assert (item (t ++ [l0]) (length t) 0 = poids l0) as ->.
    { unfold item. by rewrite list_lookup_middle. }
    unfold poids_vide.
    destruct (poids l0) as [texte|]; cycle 1.
    { rewrite Et, length_app. cbn [length].
      by destruct (Nat.eqb_spec (length t + 1) 0) as [?|_]; [lia|]. }
    case_bool_decide as Hb; cbn [negb].
    { rewrite Et, length_app. cbn [length].
      by destruct (Nat.eqb_spec (length t + 1) 0) as [?|_]; [lia|]. }
    replace (length t + 1) with (length (t ++ [l0]))
      by (rewrite length_app; simpl; lia).
    rewrite setRowCount_succ. cbn [w_table avec_table].
    rewrite length_app. cbn [length].
    replace (length (t ++ [l0]) + 1 - 1) with (length (t ++ [l0])) by lia.
    pose proof (ajouter_ligne_vide (avec_table (t ++ [l0]) w)) as H.
    cbn [w_table avec_table] in H. rewrite !avec_table_avec_table in H.
    rewrite H. cbn [w_table singleShot avec_table].
    rewrite length_app. cbn [length].
    by destruct (Nat.eqb_spec (length (t ++ [l0]) + 1) 0) as [?|_]; [lia|].
Qed.

(** X4. [assurer_ligne_vide] leaves a table that ends with a row whose
    weight cell is empty; it keeps every row and adds at most one row
    (without weight, with an empty DLC text) at the end; it changes none of
    the texts of the window; and calling it again changes nothing. *)
Theorem assurer_ligne_vide_post (w : fenetre) :
  let w' := assurer_ligne_vide w in
  derniere_vide (w_table w') = true
  ∧ (w_table w' = w_table w ∨ w_table w' = w_table w ++ [ligne_dlc_vide])
  ∧ (derniere_vide (w_table w) = true → w' = w)
  ∧ w_champ_scan w' = w_champ_scan w
  ∧ w_champ_total w' = w_champ_total w
  ∧ w_etiquette_commentaire w' = w_etiquette_commentaire w
  ∧ assurer_ligne_vide w' = w'.
Proof.
  intros w'. unfold w'. rewrite !assurer_ligne_vide_spec.
  destruct (derniere_vide (w_table w)) eqn:E.
  - rewrite E. split_and!; try done. by left.
  - cbn [w_table singleShot avec_table].
    rewrite derniere_vide_app. cbn [poids_vide ligne_dlc_vide poids].
    split_and!; try done. by right.
Qed.

Lemma boucle_app r l1 l2 st :
  boucle r (l1 ++ l2) st = boucle (r + length l1) l2 (boucle r l1 st).
Proof.
  revert r st. induction l1 as [|c l1 IH]; intros r st; simpl.
  - by rewrite Nat.add_0_r.
  - rewrite IH. f_equal. lia.
Qed.

Lemma boucle_vides r vides st :
  Forall (λ c, normalized c = None) vides → boucle r vides st = st.
Proof.
  intros H. revert r st. induction H as [|c vides Hc _ IH]; intros r st;
    [done|].
  cbn [boucle]. rewrite iteration_spec, Hc. apply IH.
Qed.

Lemma normalized_poids_vide ligne :
  poids_vide ligne = true → normalized (poids ligne) = None.
Proof.
  unfold poids_vide, normalized. destruct (poids ligne); [|done].
  by intros ->.
Qed.

(** X5. Rows with an empty weight cell at the end of the table count for
    nothing: the total and the comment are those of the table without
    them. In particular the row [assurer_ligne_vide] adds does not change
    what [mettre_a_jour_total] displays. *)
Theorem total_ignores_trailing_empty_rows (t vides : tableau) :
  Forall (λ ligne, poids_vide ligne = true) vides →
  mettre_a_jour_total (poids <$> (t ++ vides))
  = mettre_a_jour_total (poids <$> t).
Proof.
  intros H. unfold mettre_a_jour_total, calculer_total.
  rewrite fmap_app, boucle_app, boucle_vides; [done|].
  apply Forall_fmap. eapply Forall_impl; [exact H|].
  intros ligne. apply normalized_poids_vide.
Qed.

Lemma total_ignores_trailing_empty_rows_witness :
  mettre_a_jour_total
    (poids <$> ([{| poids := Some (u "12,5"); dlc := None |}]
                ++ [{| poids := Some (u "  "); dlc := Some (u "x") |};
                    ligne_dlc_vide]))
  = mettre_a_jour_total
      (poids <$> [{| poids := Some (u "12,5"); dlc := None |}]).
Proof.
  apply total_ignores_trailing_empty_rows.
  repeat constructor.
Defined.

(** ** Scanned lines *)

Lemma setItem_bloque_both i p d (t : tableau) :
  setItem_bloque i 1 d (setItem_bloque i 0 p t)
  = alter (λ _, {| poids := Some p; dlc := Some d |}) i t.
Proof.
  unfold setItem_bloque. rewrite list_alter_alter_eq.
  by apply list_alter_ext.
Qed.

Lemma alter_snoc_sans_item (t : tableau) l :
  alter (λ _, l) (length t) (setRowCount (length t + 1) t) = t ++ [l].
Proof.
  rewrite setRowCount_succ.
  rewrite <-(Nat.add_0_r (length t)) at 1. by rewrite alter_app_r.
Qed.

Lemma inserer_ligne_scannee_eq ligne w :
  strip ligne ≠ [] →
  let w' := mettre_a_jour_total_fenetre
              (assurer_ligne_vide
                 (avec_table (placer (strip ligne) (w_table w)) w)) in
  inserer_ligne_scannee (Some ligne) w
  = (w', Some (negb (bool_decide
                       (strip (w_etiquette_commentaire w') = [])))).
Proof.
  intros Hne. unfold inserer_ligne_scannee, placer.
  rewrite bool_decide_false by done.
  destruct (list_find _ (w_table w)) as [[r ?]|].
  - by rewrite setItem_bloque_both.
  - by rewrite setItem_bloque_both, alter_snoc_sans_item.
Qed.

Lemma placer_lookup texte t :
  placer texte t !! ligne_cible t = Some (ligne_scan texte)
  ∧ (∀ j, j ≠ ligne_cible t → j < length t → placer texte t !! j = t !! j)
  ∧ (∀ j ligne, j < ligne_cible t → t !! j = Some ligne →
                remplie ligne = true)
  ∧ (∀ j ligne, t !! j = Some ligne → remplie ligne = true →
                j ≠ ligne_cible t ∧ j < length t)
  ∧ ligne_cible t ≤ length t.
Proof.
  unfold placer, ligne_cible.
  destruct (list_find _ t) as [[r l]|] eqn:E.
  - apply list_find_Some in E as (Hr & Hl & Hfirst).
    pose proof (lookup_lt_Some _ _ _ Hr) as Hlt. split_and!.
    + by rewrite list_lookup_alter_eq, Hr.
    + intros j Hj _. by rewrite list_lookup_alter_ne.
    + intros j ligne Hj Hlj. unfold remplie.
      destruct (poids_vide ligne) eqn:Ep; [|done].
      destruct (Hfirst j ligne Hlj Hj). by rewrite Ep.
    + intros j ligne Hlj Hrem. split; [|by eapply lookup_lt_Some].
      intros ->. rewrite Hr in Hlj. injection Hlj as ->.
      unfold remplie in Hrem. destruct (poids_vide ligne); done.
    + lia.
  - apply list_find_None in E. split_and!.
    + by rewrite list_lookup_middle.
    + intros j _ Hj. by rewrite lookup_app_l.
    + intros j ligne _ Hlj. rewrite Forall_forall in E.
      unfold remplie. destruct (poids_vide ligne) eqn:Ep; [|done].
      destruct (E ligne); [by eapply list_elem_of_lookup_2|].
      by rewrite Ep.
    + intros j ligne Hlj _. pose proof (lookup_lt_Some _ _ _ Hlj). lia.
    + lia.
Qed.

Lemma placer_length texte t : length t ≤ length (placer texte t).
Proof.
  unfold placer. destruct (list_find _ t) as [[r l]|].
  - by rewrite length_alter.
  - rewrite length_app. lia.
Qed.

Lemma assurer_ligne_vide_lookup w j :
  j < length (w_table w) →
  w_table (assurer_ligne_vide w) !! j = w_table w !! j.
Proof.
  intros Hj. rewrite assurer_ligne_vide_spec.
  destruct (derniere_vide (w_table w)); [done|].
  cbn [w_table singleShot avec_table]. by rewrite lookup_app_l.
Qed.

Lemma inserer_ligne_scannee_lookup ligne w j :
  strip ligne ≠ [] → j < length (placer (strip ligne) (w_table w)) →
  w_table (inserer_ligne_scannee (Some ligne) w).1 !! j
  = placer (strip ligne) (w_table w) !! j.
Proof.
  intros Hne Hj. rewrite inserer_ligne_scannee_eq by done.
  cbn [fst mettre_a_jour_total_fenetre w_table].
  by rewrite assurer_ligne_vide_lookup.
Qed.

(** X6. A scanned line that is not blank is stored, decoded, in the first
    row whose weight cell is empty (a new last row when there is none): no
    other row of the table changes, and every row before it is filled. A
    blank line changes nothing and gives no feedback. *)
Theorem scan_goes_to_first_empty_row (ligne : str) (w : fenetre) :
  let w' := (inserer_ligne_scannee (Some ligne) w).1 in
  let i := ligne_cible (w_table w) in
  (strip ligne = [] → inserer_ligne_scannee (Some ligne) w = (w, None))
  ∧ (strip ligne ≠ [] →
     w_table w' !! i = Some (ligne_scan (strip ligne))
     ∧ (∀ j, j ≠ i → j < length (w_table w) →
             w_table w' !! j = w_table w !! j)
     ∧ (∀ j l, j < i → w_table w !! j = Some l → remplie l = true)
     ∧ i ≤ length (w_table w)
     ∧ is_Some (inserer_ligne_scannee (Some ligne) w).2).
Proof.
  intros w' i. split.
  - intros E. unfold inserer_ligne_scannee. by rewrite bool_decide_true.
  - intros Hne.
    destruct (placer_lookup (strip ligne) (w_table w))
      as (Hi & Hother & Hfirst & _ & Hle).
    pose proof (placer_length (strip ligne) (w_table w)) as Hlen.
    split_and!.
    + unfold w'. rewrite inserer_ligne_scannee_lookup; [done..|].
      by eapply lookup_lt_Some.
    + intros j Hj Hjlt. unfold w'.
      rewrite inserer_ligne_scannee_lookup by (done || lia). by apply Hother.
    + done.
    + done.
    + by rewrite inserer_ligne_scannee_eq.
Qed.

Lemma scan_goes_to_first_empty_row_witness :
  w_table (inserer_ligne_scannee (Some (u "1234567890123")) fenetre_initiale).1
    !! 0
  = Some {| poids := Some (u "89,012"); dlc := Some [] |}.
Proof.
  apply (scan_goes_to_first_empty_row (u "1234567890123") fenetre_initiale).
  vm_compute. discriminate.
Defined.

Lemma inserer_preserves_filled ligne w j l :
  w_table w !! j = Some l → remplie l = true →
  w_table (inserer_ligne_scannee ligne w).1 !! j = Some l.
Proof.
  intros Hj Hl. destruct ligne as [ligne|]; [|done].
  destruct (decide (strip ligne = [])) as [E|Hne].
  { unfold inserer_ligne_scannee. by rewrite bool_decide_true. }
  destruct (placer_lookup (strip ligne) (w_table w))
    as (_ & Hother & _ & Hrem & _).
  destruct (Hrem j l Hj Hl) as [Hne' Hlt].
  pose proof (placer_length (strip ligne) (w_table w)).
  rewrite inserer_ligne_scannee_lookup by (done || lia).
  by rewrite Hother.
Qed.

Lemma inserer_lignes_preserves_filled lignes w j l :
  w_table w !! j = Some l → remplie l = true →
  w_table (inserer_lignes lignes w) !! j = Some l.
Proof.
  unfold inserer_lignes. revert w.
  induction lignes as [|ligne lignes IH]; intros w Hj Hl; [done|].
  cbn [foldl]. apply IH; [|done]. by apply inserer_preserves_filled.
Qed.

(** X7. Scanning never overwrites data: a row whose weight cell is filled
    is found unchanged, at the same place, after any number of scanned
    lines, whether they come from the scan field on RETURN or from a paste
    in the scan field. *)
Theorem scans_never_overwrite (w : fenetre) (j : nat) (l : ligne_table) :
  w_table w !! j = Some l → remplie l = true →
  (∀ lignes, w_table (inserer_lignes lignes w) !! j = Some l)
  ∧ w_table (lors_retour_scan w) !! j = Some l
  ∧ (∀ presse_papiers w',
       coller_dans_champ_scan presse_papiers w = Some w' →
       w_table w' !! j = Some l).
Proof.
  intros Hj Hl. split_and!.
  - intros lignes. by apply inserer_lignes_preserves_filled.
  - unfold lors_retour_scan. cbn [w_table singleShot vider_champ_scan].
    by apply inserer_lignes_preserves_filled.
  - intros pp w'. unfold coller_dans_champ_scan.
    destruct (truthy pp); [|done]. intros [= <-].
    cbn [w_table singleShot vider_champ_scan].
    by apply inserer_lignes_preserves_filled.
Qed.

Lemma scans_never_overwrite_witness :
  w_table (lors_retour_scan fenetre_exemple) !! 0
  = Some {| poids := Some (u "89,012"); dlc := Some [] |}.
Proof.
  destruct (scans_never_overwrite fenetre_exemple 0
              {| poids := Some (u "89,012"); dlc := Some [] |}
              eq_refl eq_refl) as (_ & H & _).
  exact H.
Defined.

Lemma lstrip_of_nil (f : N → bool) s : lstrip_of f s = [] ↔ Forall f s.
Proof.
  induction s as [|c s IH]; [done|]. simpl.
  destruct (f c) eqn:E.
  - rewrite IH. split; [by constructor; [rewrite E|]|by inversion 1].
  - split; [done|]. inversion 1 as [|?? Hc]. by rewrite E in Hc.
Qed.

Lemma strip_of_nil (f : N → bool) s : strip_of f s = [] ↔ Forall f s.
Proof.
  unfold strip_of. split.
  - intros E%(f_equal reverse). rewrite reverse_involutive in E.
    change (reverse []) with (@nil N) in E.
    apply lstrip_of_nil, Forall_reverse in E.
    rewrite reverse_involutive in E.
    apply lstrip_of_nil. pose proof (lstrip_of_clean f s) as Hc.
    destruct (lstrip_of f s) as [|c s']; [done|]. simpl in Hc.
    apply Forall_cons in E as [E _]. by rewrite Hc in E.
  - intros H%lstrip_of_nil. by rewrite H.
Qed.

Lemma strip_nil s : strip s = [] ↔ Forall isspace s.
Proof. apply strip_of_nil. Qed.

Lemma insert_comma_not_blank p n s :
  insert_comma p n = Some s → strip s ≠ [].
Proof.
  unfold insert_comma. case_decide; [|done]. intros <-%(inj Some).
  rewrite strip_nil, !Forall_app. intros (_ & Hc & _).
  by apply Forall_cons in Hc as [Hc _].
Qed.

(** X8. A scanned text that is not blank is stored as a weight text that is
    not blank, with one exception: under format code "3100" the six
    characters after the code are stored as they are, so a run of six blank
    characters (in a scan longer than 26 characters) gives a blank weight
    cell. *)
Theorem stored_weight_blank_only_3100 (texte : str) :
  strip texte ≠ [] →
  strip (texte_poids texte) = [] →
  26 < length (strip texte)
  ∧ slice 16 20 (strip texte) = u "3100"
  ∧ Forall isspace (slice 20 26 (strip texte)).
Proof.
  intros Hne. unfold texte_poids.
  destruct (formater_ligne (Some texte)) as [f|] eqn:Ef; [|done].
  rewrite (formater_ligne_truthy _ _ Ef). intros Hblank. revert Ef.
  destruct (decide (length (strip texte) = 13)) as [H13|H13].
  { rewrite formater_ligne_13 by done.
    by intros ?%insert_comma_not_blank. }
  destruct (decide (length (strip texte) < 26)) as [H26|H26].
  { by rewrite formater_ligne_short. }
  rewrite formater_ligne_long by lia. destruct (startswith _ _); [|done].
  unfold decimal_rule.
  repeat case_decide; try done; try by intros ?%insert_comma_not_blank.
  intros <-%(inj Some). apply strip_nil in Hblank. split_and!; [|done..].
  destruct (decide (length (strip texte) = 26)) as [E26|]; [|lia].
  exfalso.
  destruct (strip_of_clean isspace texte) as [_ Hclean]. fold (strip texte) in Hclean.
  assert (strip texte = take 20 (strip texte) ++ slice 20 26 (strip texte))
    as Hsplit.
  { unfold slice. rewrite (take_ge (strip texte) 26) by lia.
    by rewrite take_drop. }
  rewrite Hsplit, reverse_app in Hclean.
  apply Forall_reverse in Hblank.
  destruct (reverse (slice 20 26 (strip texte))) as [|c r] eqn:Er.
  - apply (f_equal length) in Er. rewrite length_reverse in Er.
    unfold slice in Er. revert Er. solve_length.
  - simpl in Hclean. apply Forall_cons in Hblank as [Hc _].
    by rewrite Hclean in Hc.
Qed.

Lemma stored_weight_blank_only_3100_witness :
  slice 16 20 (strip (u "01234567890123453100      x")) = u "3100".
Proof.
  apply (stored_weight_blank_only_3100 (u "01234567890123453100      x"));
    [vm_compute; discriminate|reflexivity].
Defined.

Lemma nb_remplies_app t1 t2 :
  nb_remplies (t1 ++ t2) = nb_remplies t1 + nb_remplies t2.
Proof. unfold nb_remplies. by rewrite filter_app, length_app. Qed.

Lemma nb_remplies_cons l t :
  nb_remplies (l :: t) = (if remplie l then 1 else 0) + nb_remplies t.
Proof.
  unfold nb_remplies. rewrite filter_cons.
  destruct (remplie l); by case_decide.
Qed.

Lemma nb_remplies_placer texte t :
  remplie (ligne_scan texte) = true →
  nb_remplies (placer texte t) = S (nb_remplies t).
Proof.
  intros Hr. unfold placer.
  destruct (list_find _ t) as [[r l]|] eqn:E.
  - apply list_find_Some in E as (Hl & Hv & _).
    rewrite <-list_insert_alter.
    rewrite insert_take_drop by by eapply lookup_lt_Some.
    rewrite <-(take_drop_middle t r l Hl) at 3.
    assert (remplie l = false) as Hl'
      by (unfold remplie; by rewrite (Is_true_true_1 _ Hv)).
    rewrite !nb_remplies_app, !nb_remplies_cons, Hr, Hl'. lia.
  - rewrite nb_remplies_app, nb_remplies_cons, Hr.
    change (nb_remplies []) with 0. lia.
Qed.

(** X9. A scanned line that is stored as a weight text that is not blank
    fills exactly one more row of the table. *)
Theorem scan_fills_one_row (ligne : str) (w : fenetre) :
  strip ligne ≠ [] →
  strip (texte_poids (strip ligne)) ≠ [] →
  nb_remplies (w_table (inserer_ligne_scannee (Some ligne) w).1)
  = S (nb_remplies (w_table w)).
Proof.
  intros Hne Hp. rewrite inserer_ligne_scannee_eq by done.
  cbn [fst mettre_a_jour_total_fenetre w_table].
  rewrite assurer_ligne_vide_spec. cbn [w_table avec_table].
  assert (remplie (ligne_scan (strip ligne)) = true) as Hr.
  { unfold remplie, poids_vide, ligne_scan. cbn [poids].
    by rewrite bool_decide_false. }
  destruct (derniere_vide _).
  - cbn [w_table avec_table]. by apply nb_remplies_placer.
  - cbn [w_table avec_table singleShot].
    rewrite nb_remplies_app, nb_remplies_placer by done.
    change (nb_remplies [ligne_dlc_vide]) with 0. lia.
Qed.

Lemma scan_fills_one_row_witness :
  nb_remplies
    (w_table (inserer_ligne_scannee (Some (u "1234567012345"))
                fenetre_exemple).1)
  = 2.
Proof.
  apply (scan_fills_one_row (u "1234567012345") fenetre_exemple);
    vm_compute; discriminate.
Defined.

Lemma strip_cons_not_blank c s : isspace c = false → strip (c :: s) ≠ [].
Proof.
  intros Hc. rewrite strip_nil. intros [H _]%Forall_cons.
  by rewrite Hc in H.
Qed.

(** The comment is blank exactly when no entry is anomalous. *)
Lemma commentaire_vide lignes :
  strip (etiquette_commentaire (mettre_a_jour_total lignes)) = []
  ↔ Forall (λ c, ¬ anomalous_entry c) lignes.
Proof.
  unfold mettre_a_jour_total. cbn [etiquette_commentaire].
  destruct (calculer_total_spec lignes) as [_ ->].
  destruct (list_find anomalous_entry lignes) as [[i c]|] eqn:E; simpl.
  - split.
    + intros Hs. by apply strip_cons_not_blank in Hs.
    + intros H. apply list_find_Some in E as (Hi & Hc & _).
      rewrite Forall_forall in H. destruct (H c); [|done].
      by eapply list_elem_of_lookup_2.
  - split; [|done]. intros _. by apply list_find_None in E.
Qed.

Lemma mettre_a_jour_total_fenetre_a_jour w :
  affichage_a_jour (mettre_a_jour_total_fenetre w).
Proof. by split. Qed.

(** X10. After a scanned line is stored, the table ends with a row whose
    weight cell is empty, the total and the comment are those of the new
    table, and the feedback is the error feedback (low double beep, red
    flash) exactly when some entry of the whole table is anomalous, whether
    or not it is the line just scanned. *)
Theorem scan_feedback (ligne : str) (w w' : fenetre) (est_erreur : bool) :
  inserer_ligne_scannee (Some ligne) w = (w', Some est_erreur) →
  derniere_vide (w_table w') = true
  ∧ affichage_a_jour w'
  ∧ (est_erreur = true
     ↔ Exists (λ l, anomalous_entry (poids l)) (w_table w'))
  ∧ (couleur_flash est_erreur = u "#ff4d4d"
     ↔ Exists (λ l, anomalous_entry (poids l)) (w_table w')).
Proof.
  destruct (decide (strip ligne = [])) as [E|Hne].
  { unfold inserer_ligne_scannee. by rewrite bool_decide_true. }
  rewrite inserer_ligne_scannee_eq by done. intros [= <- <-].
  set (w1 := assurer_ligne_vide _).
  assert (est_ok :
    negb (bool_decide
            (strip (w_etiquette_commentaire
                      (mettre_a_jour_total_fenetre w1)) = [])) = true
    ↔ Exists (λ l, anomalous_entry (poids l)) (w_table w1)).
  { cbn [mettre_a_jour_total_fenetre w_etiquette_commentaire].
    rewrite negb_true_iff, bool_decide_eq_false, commentaire_vide.
    split.
    - intros H. apply not_Forall_Exists in H; [|apply _].
      apply Exists_exists in H as (c & Hin & Hc).
      apply list_elem_of_fmap in Hin as (l & -> & Hin).
      apply Exists_exists. exists l. split; [done|].
      simpl in Hc. by apply dec_stable.
    - intros H Hall. rewrite Forall_fmap in Hall.
      apply Exists_exists in H as (l & Hin & Hl).
      rewrite Forall_forall in Hall. by apply (Hall l Hin). }
  split_and!.
  - cbn [mettre_a_jour_total_fenetre w_table].
    apply assurer_ligne_vide_post.
  - apply mettre_a_jour_total_fenetre_a_jour.
  - exact est_ok.
  - rewrite <-est_ok. unfold couleur_flash.
    destruct (negb _); split; done.
Qed.

Lemma scan_feedback_witness :
  Exists (λ l, anomalous_entry (poids l))
    (w_table (inserer_ligne_scannee (Some (u "12")) fenetre_exemple).1).
Proof.
  destruct (scan_feedback (u "12") fenetre_exemple
              (inserer_ligne_scannee (Some (u "12")) fenetre_exemple).1
              true eq_refl) as (_ & _ & H & _).
  by apply H.
Defined.

(** ** A paste in the table *)

Lemma setRowCount_grow (t : tableau) k :
  setRowCount (length t + k) t = t ++ replicate k ligne_sans_item.
Proof.
  unfold setRowCount. rewrite take_ge by lia.
  by replace (length t + k - length t) with k by lia.
Qed.

Lemma coller_lignes_length d lignes t :
  length (coller_lignes d lignes t) = length t.
Proof.
  revert d t. induction lignes as [|o lignes IH]; intros d t; [done|].
  cbn [coller_lignes]. rewrite IH, setItem_bloque_both.
  by rewrite length_alter.
Qed.

Lemma coller_lignes_outside d lignes t j :
  j < d ∨ d + length lignes ≤ j →
  coller_lignes d lignes t !! j = t !! j.
Proof.
  revert d t. induction lignes as [|o lignes IH]; intros d t Hj; [done|].
  cbn [coller_lignes length] in *. rewrite IH by lia.
  rewrite setItem_bloque_both. apply list_lookup_alter_ne. lia.
Qed.

Lemma coller_lignes_inside d lignes t k ligne :
  d + length lignes ≤ length t →
  lignes !! k = Some ligne →
  coller_lignes d lignes t !! (d + k) = Some (ligne_scan ligne).
Proof.
  revert d t k. induction lignes as [|o lignes IH]; intros d t k Hlen Hk;
    [done|].
  cbn [coller_lignes length] in *. rewrite setItem_bloque_both.
  destruct k as [|k].
  - injection Hk as ->. rewrite coller_lignes_outside by lia.
    rewrite Nat.add_0_r, list_lookup_alter_eq.
    destruct (lookup_lt_is_Some_2 t d ltac:(lia)) as [l ->]. done.
  - replace (d + S k) with (S d + k) by lia. apply IH; [|done].
    rewrite length_alter. lia.
Qed.

Lemma truthy_nil s : truthy s = false → s = [].
Proof. by destruct s. Qed.

(** X11. A paste in the table is handled by the program only when the
    clipboard holds at least two lines. Then, from the current row on (row
    0 when there is none), each row of the block takes the decoded line of
    the same rank, whatever the row held before; the rows outside the block
    are unchanged; the table ends with an empty weight cell and the
    displayed total and comment are those of the new table. *)
Theorem paste_in_table (presse_papiers : str) (currentRow : Z) (w : fenetre) :
  let lignes := splitlines presse_papiers in
  let d := Z.to_nat (Z.max 0 currentRow) in
  (coller_dans_table presse_papiers currentRow w = None
   ↔ length lignes ≤ 1)
  ∧ ∀ w', coller_dans_table presse_papiers currentRow w = Some w' →
      (∀ k ligne, lignes !! k = Some ligne →
                  w_table w' !! (d + k) = Some (ligne_scan ligne))
      ∧ (∀ j, j < d ∨ d + length lignes ≤ j → j < length (w_table w) →
              w_table w' !! j = w_table w !! j)
      ∧ derniere_vide (w_table w') = true
      ∧ affichage_a_jour w'.
Proof.
  intros lignes d. unfold coller_dans_table. fold lignes.
  assert ((if (currentRow <? 0)%Z then 0%Z else currentRow)
          = Z.max 0 currentRow) as ->.
  { destruct (Z.ltb_spec currentRow 0); lia. }
  fold d. split.
  { destruct (truthy presse_papiers) eqn:Et.
    - destruct (Nat.ltb_spec 1 (length lignes)); split; (done || lia).
    - apply truthy_nil in Et. subst presse_papiers. split; [|done]. intros _.
      unfold lignes. cbn. lia. }
  intros w'. destruct (truthy presse_papiers); [|done].
  destruct (Nat.ltb_spec 1 (length lignes)) as [Hn|]; [|done].
  set (t0 := if (0 <? _)%Z then _ else _).
  assert (d + length lignes ≤ length t0
          ∧ ∀ j, j < length (w_table w) → t0 !! j = w_table w !! j)
    as [Hlen Hsame].
  { unfold t0. destruct (Z.ltb_spec 0 (Z.of_nat d + Z.of_nat (length lignes)
                                       - Z.of_nat (length (w_table w)))).
    - rewrite setRowCount_grow. rewrite length_app, length_replicate.
      split; [lia|]. intros j Hj. by rewrite lookup_app_l.
    - split; [lia|done]. }
  intros [= <-]. cbn [mettre_a_jour_total_fenetre w_table].
  set (t1 := coller_lignes d lignes t0).
  assert (length t1 = length t0) as Hl1 by apply coller_lignes_length.
  split_and!.
  - intros k ligne Hk. pose proof (lookup_lt_Some _ _ _ Hk).
    rewrite assurer_ligne_vide_lookup by (cbn [w_table avec_table]; lia).
    cbn [w_table avec_table]. by apply coller_lignes_inside.
  - intros j Hj Hjlt.
    assert (length (w_table w) ≤ length t0).
    { destruct (decide (length (w_table w) ≤ length t0)); [done|].
      exfalso. specialize (Hsame (length t0) ltac:(lia)).
      rewrite lookup_ge_None_2 in Hsame by lia.
      symmetry in Hsame. apply lookup_ge_None_1 in Hsame. lia. }
    rewrite assurer_ligne_vide_lookup by (cbn [w_table avec_table]; lia).
    cbn [w_table avec_table]. unfold t1.
    rewrite coller_lignes_outside by done. by apply Hsame.
  - apply assurer_ligne_vide_post.
  - apply mettre_a_jour_total_fenetre_a_jour.
Qed.

Lemma paste_in_table_witness :
  w_table
    (default fenetre_exemple
       (coller_dans_table [49; 50; 10; 49; 50; 51; 52; 53; 54; 55; 48; 49; 50;
                           51; 52; 53]%N 0 fenetre_exemple)) !! (0 + 1)
  = Some {| poids := Some (u "01,234"); dlc := Some [] |}.
Proof.
  destruct (paste_in_table [49; 50; 10; 49; 50; 51; 52; 53; 54; 55; 48; 49;
                            50; 51; 52; 53]%N 0 fenetre_exemple) as [_ H].
  destruct (H (default fenetre_exemple
                 (coller_dans_table [49; 50; 10; 49; 50; 51; 52; 53; 54; 55;
                                     48; 49; 50; 51; 52; 53]%N 0
                    fenetre_exemple)) eq_refl) as [H1 _].
  exact (H1 1 (u "1234567012345") eq_refl).
Defined.

(** ** Cells edited by hand *)

Lemma alter_as_insert {A} (f : A → A) (t : list A) r l :
  t !! r = Some l → alter f r t = <[r := f l]> t.
Proof.
  intros Hl. rewrite list_insert_alter. apply list_alter_ext; [|done].
  intros x Hx. congruence.
Qed.

Lemma item_lookup (t : tableau) r c l :
  t !! r = Some l →
  item t r c = match c with 0 => poids l | 1 => dlc l | _ => None end.
Proof. intros Hl. unfold item. by rewrite Hl. Qed.

Lemma texte_poids_blank texte : strip texte = [] → texte_poids texte = texte.
Proof.
  intros E. unfold texte_poids.
  rewrite formater_ligne_short; [done|rewrite E; simpl; lia..].
Qed.

Lemma extraire_dlc_truthy texte d :
  extraire_dlc_from_scan (Some texte) = Some d → truthy d = true.
Proof. by intros (? & ? & ? & ? & ? & ? & -> & _)%extraire_dlc_shape. Qed.

Lemma texte_dlc_eq texte :
  texte_dlc texte = default [] (extraire_dlc_from_scan (Some texte)).
Proof.
  unfold texte_dlc.
  destruct (extraire_dlc_from_scan _) as [d|] eqn:E; [|done].
  by rewrite (extraire_dlc_truthy _ _ E).
Qed.

(** The slot of [cellChanged] for the weight column, in one equation. *)
Lemma lors_changement_cellule_poids r w l texte :
  w_table w !! r = Some l → poids l = Some texte →
  lors_changement_cellule r 0 w
  = singleShot (taches_edition texte)
      (avec_table (<[r := ligne_editee texte l]> (w_table w)) w).
Proof.
  intros Hl Hp. unfold lors_changement_cellule, taches_edition, ligne_editee.
  rewrite (item_lookup _ _ _ _ Hl), Hp. case_bool_decide as Hb.
  - cbn [Nat.eqb]. do 2 f_equal. unfold setItem_bloque.
    rewrite (alter_as_insert _ _ _ _ Hl), Hp. by rewrite texte_poids_blank.
  - cbn [Nat.eqb]. do 2 f_equal.
    set (t1 := match formater_ligne _ with Some _ => _ | None => _ end).
    assert (t1 = <[r := {| poids := Some (texte_poids texte);
                           dlc := dlc l |}]> (w_table w)) as ->.
    { unfold t1, texte_poids.
      destruct (formater_ligne (Some texte)) as [f|] eqn:Ef.
      - rewrite (formater_ligne_truthy _ _ Ef). unfold setItem_bloque.
        by rewrite (alter_as_insert _ _ _ _ Hl).
      - rewrite <-Hp. destruct l. by rewrite list_insert_id. }
    pose proof (lookup_lt_Some _ _ _ Hl) as Hlt.
    set (l1 := {| poids := _; dlc := dlc l |}).
    assert (<[r:=l1]> (w_table w) !! r = Some l1) as Hl1
      by by apply list_lookup_insert_eq.
    assert (∀ d, setItem_bloque r 1 d (<[r:=l1]> (w_table w))
                 = <[r := {| poids := Some (texte_poids texte);
                             dlc := Some d |}]> (w_table w)) as Hset.
    { intros d. unfold setItem_bloque.
      rewrite (alter_as_insert _ _ _ _ Hl1). by rewrite list_insert_insert_eq. }
    destruct (extraire_dlc_from_scan (Some texte)) as [d|] eqn:Ed.
    + by rewrite (extraire_dlc_truthy _ _ Ed), Hset.
    + rewrite (item_lookup _ _ _ _ Hl1). cbn [l1 dlc].
      destruct (dlc l) as [x|] eqn:Ex; [done|]. by rewrite Hset.
Qed.

(** X12. When the text of a weight cell is changed by the user, the slot
    of [cellChanged] rewrites that row only: the weight becomes the decoded
    text (the text itself when the decoder does not match); the DLC is
    emptied when the text is blank, becomes the date found in the text
    when there is one, and otherwise keeps the text it had, unlike a scan
    or a paste, which always replace it. A change in the DLC column leaves
    every cell as it is. *)
Theorem weight_cell_edit (r : nat) (w : fenetre) (l : ligne_table)
    (texte : str) :
  w_table w !! r = Some l → poids l = Some texte →
  let w' := lors_changement_cellule r 0 w in
  ∃ l', w_table w' !! r = Some l'
    ∧ poids l' = Some (texte_poids texte)
    ∧ (strip texte = [] → dlc l' = Some [])
    ∧ (∀ d, extraire_dlc_from_scan (Some texte) = Some d → dlc l' = Some d)
    ∧ (strip texte ≠ [] → extraire_dlc_from_scan (Some texte) = None →
       dlc l' = Some (default [] (dlc l)))
    ∧ (∀ j, j ≠ r → w_table w' !! j = w_table w !! j)
    ∧ length (w_table w') = length (w_table w)
    ∧ ∀ c, c ≠ 0 → w_table (lors_changement_cellule r c w) = w_table w.
Proof.
  intros Hl Hp w'. unfold w'.
  rewrite (lors_changement_cellule_poids _ _ _ _ Hl Hp).
  cbn [w_table singleShot avec_table].
  pose proof (lookup_lt_Some _ _ _ Hl) as Hlt.
  exists (ligne_editee texte l). unfold ligne_editee. cbn [poids dlc].
  split_and!.
  - by apply list_lookup_insert_eq.
  - done.
  - intros E. by rewrite bool_decide_true.
  - intros d Ed. rewrite Ed. case_bool_decide as Hb; [|done].
    rewrite extraire_dlc_short in Ed; [done|]. rewrite Hb. simpl. lia.
  - intros Hne Ed. by rewrite bool_decide_false, Ed.
  - intros j Hj. by apply list_lookup_insert_ne.
  - by rewrite length_insert.
  - intros c Hc. unfold lors_changement_cellule.
    destruct (item (w_table w) r c) as [x|]; [|done].
    destruct (Nat.eqb_spec c 0) as [?|_]; [done|].
    by case_bool_decide.
Qed.

Lemma weight_cell_edit_witness :
  ∃ l', w_table (lors_changement_cellule 0 0 fenetre_exemple) !! 0 = Some l'
        ∧ poids l' = Some (u "89,012").
Proof.
  destruct (weight_cell_edit 0 fenetre_exemple
              {| poids := Some (u "89,012"); dlc := Some [] |} (u "89,012")
              eq_refl eq_refl) as (l' & H1 & H2 & _).
  exists l'. split; [exact H1|exact H2].
Defined.

Lemma item_setItem_bloque (t : tableau) r c texte :
  r < length t → c < 2 → item (setItem_bloque r c texte t) r c = Some texte.
Proof.
  intros Hr Hc. destruct (lookup_lt_is_Some_2 t r Hr) as [l Hl].
  unfold item, setItem_bloque. rewrite list_lookup_alter_eq, Hl.
  destruct c as [|[|c]]; [done|done|lia].
Qed.

Lemma lors_changement_cellule_taches r c w texte :
  item (w_table w) r c = Some texte →
  w_minuteries (lors_changement_cellule r c w)
  = w_minuteries w ++ taches_edition texte
  ∧ w_champ_scan (lors_changement_cellule r c w) = w_champ_scan w.
Proof.
  intros Hi. unfold lors_changement_cellule, taches_edition. rewrite Hi.
  by case_bool_decide.
Qed.

(** The event loop on the calls a cell change defers. *)
Lemma boucle_taches_edition texte w :
  w_minuteries w = taches_edition texte →
  ∃ w', boucle_evenements 5 w = Some w'
    ∧ w_minuteries w' = []
    ∧ (w_table w' = w_table w ∨ w_table w' = w_table w ++ [ligne_dlc_vide])
    ∧ derniere_vide (w_table w') = true
    ∧ affichage_a_jour w'
    ∧ w_champ_scan w' = w_champ_scan w.
Proof.
  destruct w as [t s tot com q]. cbn [w_minuteries w_table w_champ_scan].
  intros ->. unfold taches_edition.
  destruct (derniere_vide t) eqn:E.
  - eexists. split.
    { case_bool_decide;
        cbn [boucle_evenements tour executer w_minuteries w_table
             w_champ_scan w_champ_total w_etiquette_commentaire];
        rewrite assurer_ligne_vide_spec; cbn [w_table]; rewrite E;
        cbn [boucle_evenements tour executer w_minuteries w_table
             w_champ_scan w_champ_total w_etiquette_commentaire
             mettre_a_jour_total_fenetre]; reflexivity. }
    cbn [w_minuteries w_table w_champ_scan]. split_and!; try done.
    by left.
  - eexists. split.
    { case_bool_decide;
        cbn [boucle_evenements tour executer w_minuteries w_table
             w_champ_scan w_champ_total w_etiquette_commentaire];
        rewrite assurer_ligne_vide_spec; cbn [w_table]; rewrite E;
        cbn [boucle_evenements tour executer w_minuteries w_table
             w_champ_scan w_champ_total w_etiquette_commentaire
             mettre_a_jour_total_fenetre singleShot avec_table app];
        rewrite assurer_ligne_vide_spec; cbn [w_table];
        rewrite derniere_vide_app;
        cbn [poids_vide ligne_dlc_vide poids
             boucle_evenements tour executer w_minuteries w_table
             w_champ_scan w_champ_total w_etiquette_commentaire
             mettre_a_jour_total_fenetre singleShot avec_table app];
        reflexivity. }
    cbn [w_minuteries w_table w_champ_scan]. split_and!; try done.
    + by right.
    + cbn [w_table mettre_a_jour_total_fenetre]. by rewrite derniere_vide_app.
Qed.

(** X13. An edit that commits the text the cell already holds changes
    nothing and defers no call. After an edit that changes the text of a
    cell of the table, with no deferred call pending, the event loop runs
    the calls the slot deferred and stops after at most five of them: the
    table is then the edited one, with one empty row added at the end when
    it did not end with one, and the total and the comment displayed are
    those of that table. *)
Theorem edit_then_event_loop (r c : nat) (texte : str) (w : fenetre) :
  r < length (w_table w) → c < 2 → w_minuteries w = [] →
  let w1 := editer_cellule r c texte w in
  (item (w_table w) r c = Some texte → w1 = w)
  ∧ (item (w_table w) r c ≠ Some texte →
     ∃ w', boucle_evenements 5 w1 = Some w'
         ∧ w_minuteries w' = []
         ∧ (w_table w' = w_table w1
            ∨ w_table w' = w_table w1 ++ [ligne_dlc_vide])
         ∧ derniere_vide (w_table w') = true
         ∧ affichage_a_jour w'
         ∧ w_champ_scan w' = w_champ_scan w).
Proof.
  intros Hr Hc Hq w1. unfold w1, editer_cellule. split.
  { intros E. by rewrite bool_decide_true. }
  intros Hne. rewrite bool_decide_false by done.
  assert (item (setItem_bloque r c texte (w_table w)) r c = Some texte)
    as Hi by by apply item_setItem_bloque.
  assert (setItem r c texte w
          = lors_changement_cellule r c
              (avec_table (setItem_bloque r c texte (w_table w)) w)) as Hs.
  { unfold setItem.
    destruct (Nat.ltb_spec r (length (w_table w))); [|lia].
    by destruct (Nat.ltb_spec c 2); [|lia]. }
  rewrite Hs. set (w0 := avec_table _ w).
  destruct (lors_changement_cellule_taches r c w0 texte Hi) as [Hq1 Hs1].
  cbn [w0 w_minuteries w_champ_scan avec_table] in Hq1, Hs1.
  rewrite Hq in Hq1. cbn [app] in Hq1.
  destruct (boucle_taches_edition texte _ Hq1)
    as (w' & H1 & H2 & H3 & H4 & H5 & H6).
  exists w'. by rewrite <-Hs1.
Qed.

Lemma edit_then_event_loop_witness :
  ∃ w', boucle_evenements 5 (editer_cellule 1 0 (u "1234567012345")
                               fenetre_exemple) = Some w'
        ∧ w_minuteries w' = [].
Proof.
  destruct (edit_then_event_loop 1 0 (u "1234567012345") fenetre_exemple)
    as [_ H]; [simpl; lia|lia|reflexivity|].
  destruct H as (w' & H1 & H2 & _); [vm_compute; discriminate|].
  exists w'. split; [exact H1|exact H2].
Defined.

Lemma texte_poids_court texte f :
  formater_ligne (Some texte) = Some f →
  formater_ligne (Some f) = None ∧ extraire_dlc_from_scan (Some f) = None.
Proof.
  intros Hf%formater_ligne_length. pose proof (strip_length f).
  split; [apply formater_ligne_short|apply extraire_dlc_short]; lia.
Qed.

Lemma texte_poids_idem texte :
  texte_poids (texte_poids texte) = texte_poids texte.
Proof.
  unfold texte_poids at 2.
  destruct (formater_ligne (Some texte)) as [f|] eqn:Ef.
  - rewrite (formater_ligne_truthy _ _ Ef). unfold texte_poids.
    rewrite Ef, (formater_ligne_truthy _ _ Ef).
    by destruct (texte_poids_court _ _ Ef) as [-> _].
  - unfold texte_poids. by rewrite Ef.
Qed.

Lemma ligne_editee_idem texte l :
  strip texte = [] ∨ strip (texte_poids texte) ≠ [] →
  ligne_editee (texte_poids texte) (ligne_editee texte l)
  = ligne_editee texte l.
Proof.
  intros H. unfold ligne_editee at 1. rewrite texte_poids_idem.
  unfold ligne_editee. f_equal. cbn [dlc]. f_equal.
  destruct (decide (strip texte = [])) as [E|Hne].
  - rewrite (texte_poids_blank _ E). by rewrite !bool_decide_true.
  - destruct H as [?|Hp]; [done|].
    rewrite (bool_decide_false _ Hp), (bool_decide_false _ Hne).
    unfold texte_poids.
    destruct (formater_ligne (Some texte)) as [f|] eqn:Ef.
    + rewrite (formater_ligne_truthy _ _ Ef).
      by destruct (texte_poids_court _ _ Ef) as [_ ->].
    + by destruct (extraire_dlc_from_scan (Some texte)).
Qed.

(** X22. The slot of [cellChanged] is stable: run a second time on the
    weight cell it has just rewritten, it leaves every cell of the table
    as it is, because a decoded weight is never decoded again and a DLC
    that is present is kept. This holds when the text is blank or is
    stored as a weight that is not blank. *)
Theorem cell_change_stable (r : nat) (w : fenetre) (l : ligne_table)
    (texte : str) :
  w_table w !! r = Some l → poids l = Some texte →
  strip texte = [] ∨ strip (texte_poids texte) ≠ [] →
  w_table (lors_changement_cellule r 0 (lors_changement_cellule r 0 w))
  = w_table (lors_changement_cellule r 0 w).
Proof.
  intros Hl Hp Hs.
  rewrite (lors_changement_cellule_poids r w l texte Hl Hp).
  pose proof (lookup_lt_Some _ _ _ Hl) as Hlt.
  set (w1 := singleShot _ _).
  assert (w_table w1 !! r = Some (ligne_editee texte l)) as Hl1.
  { unfold w1. cbn [w_table singleShot avec_table].
    by apply list_lookup_insert_eq. }
  rewrite (lors_changement_cellule_poids r w1 _ (texte_poids texte) Hl1)
    by done.
  cbn [w_table singleShot avec_table].
  rewrite ligne_editee_idem by done. unfold w1.
  cbn [w_table singleShot avec_table]. by rewrite list_insert_insert_eq.
Qed.

Lemma cell_change_stable_witness :
  w_table (lors_changement_cellule 0 0
             (lors_changement_cellule 0 0 fenetre_exemple))
  = w_table (lors_changement_cellule 0 0 fenetre_exemple).
Proof.
  apply (cell_change_stable 0 fenetre_exemple
           {| poids := Some (u "89,012"); dlc := Some [] |} (u "89,012"));
    [reflexivity|reflexivity|].
  right. vm_compute. discriminate.
Defined.

(** ** Runs of the program *)

Lemma mettre_a_jour_total_snoc_vide (t : tableau) :
  mettre_a_jour_total (poids <$> t ++ [ligne_dlc_vide])
  = mettre_a_jour_total (poids <$> t).
Proof.
  unfold mettre_a_jour_total, calculer_total.
  rewrite fmap_app, boucle_app. by rewrite boucle_vides by by repeat constructor.
Qed.

Lemma assurer_ligne_vide_a_jour w :
  affichage_a_jour w → affichage_a_jour (assurer_ligne_vide w).
Proof.
  rewrite assurer_ligne_vide_spec. destruct (derniere_vide _); [done|].
  unfold affichage_a_jour. cbn [w_table w_champ_total w_etiquette_commentaire
                                singleShot avec_table].
  by rewrite mettre_a_jour_total_snoc_vide.
Qed.

Lemma assurer_ligne_vide_derniere w :
  derniere_vide (w_table (assurer_ligne_vide w)) = true.
Proof.
  rewrite assurer_ligne_vide_spec.
  destruct (derniere_vide (w_table w)) eqn:E; [done|].
  cbn [w_table singleShot avec_table]. by rewrite derniere_vide_app.
Qed.

Lemma assurer_ligne_vide_minuteries w :
  ∃ q, w_minuteries (assurer_ligne_vide w) = w_minuteries w ++ q.
Proof.
  rewrite assurer_ligne_vide_spec. destruct (derniere_vide _).
  - exists []. by rewrite app_nil_r.
  - by eexists.
Qed.

Lemma inserer_ligne_scannee_cases ligne w :
  (inserer_ligne_scannee ligne w).1 = w
  ∨ derniere_vide (w_table (inserer_ligne_scannee ligne w).1) = true
    ∧ affichage_a_jour (inserer_ligne_scannee ligne w).1.
Proof.
  destruct ligne as [ligne|]; [|by left].
  destruct (decide (strip ligne = [])) as [E|Hne].
  { left. unfold inserer_ligne_scannee. by rewrite bool_decide_true. }
  right. rewrite inserer_ligne_scannee_eq by done.
  cbn [fst mettre_a_jour_total_fenetre w_table]. split.
  - apply assurer_ligne_vide_derniere.
  - apply mettre_a_jour_total_fenetre_a_jour.
Qed.

Lemma inserer_ligne_scannee_minuteries ligne w :
  ∃ q, w_minuteries (inserer_ligne_scannee ligne w).1 = w_minuteries w ++ q.
Proof.
  destruct ligne as [ligne|]; [|exists []; by rewrite app_nil_r].
  destruct (decide (strip ligne = [])) as [E|Hne].
  { exists []. unfold inserer_ligne_scannee.
    by rewrite bool_decide_true, app_nil_r. }
  rewrite inserer_ligne_scannee_eq by done.
  cbn [fst mettre_a_jour_total_fenetre w_minuteries].
  destruct (assurer_ligne_vide_minuteries
              (avec_table (placer (strip ligne) (w_table w)) w)) as [q Hq].
  exists q. by rewrite Hq.
Qed.

(** Membership in a queue of deferred calls. *)
Ltac membre :=
  intros;
  repeat match goal with
         | H : _ ∈ _ :: _ |- _ => apply elem_of_cons in H as [H|H]
         | H : _ ∈ [] |- _ => by apply elem_of_nil in H
         | H : _ ∈ _ ++ _ |- _ => apply elem_of_app in H as [H|H]
         end;
  rewrite ?elem_of_app, ?elem_of_cons; auto 10; try done.

Section Invariant.

Lemma invariant_plus w w' :
  invariant w →
  (∃ q, w_minuteries w' = w_minuteries w ++ q) →
  (w_table w' = w_table w ∧ w_champ_total w' = w_champ_total w
   ∧ w_etiquette_commentaire w' = w_etiquette_commentaire w)
  ∨ (derniere_vide (w_table w') = true ∧ affichage_a_jour w') →
  invariant w'.
Proof.
  intros [H1 H2] [q Hq] [(Ht & Htot & Hcom)|[Hd Ha]].
  - split.
    + destruct H1 as [H1|H1]; [left; by rewrite Ht|right].
      rewrite Hq. apply elem_of_app. by left.
    + destruct H2 as [H2|H2].
      * left. unfold affichage_a_jour in *. by rewrite Ht, Htot, Hcom.
      * right. rewrite Hq. apply elem_of_app. by left.
  - split; by left.
Qed.

Lemma invariant_inserer ligne w :
  invariant w → invariant (inserer_ligne_scannee ligne w).1.
Proof.
  intros Hi. eapply invariant_plus; [done|..].
  - apply inserer_ligne_scannee_minuteries.
  - destruct (inserer_ligne_scannee_cases ligne w) as [->|?]; auto.
Qed.

Lemma invariant_inserer_lignes lignes w :
  invariant w → invariant (inserer_lignes lignes w).
Proof.
  unfold inserer_lignes. revert w.
  induction lignes as [|l lignes IH]; intros w Hi; [done|].
  cbn [foldl]. by apply IH, invariant_inserer.
Qed.

Lemma invariant_focaliser w :
  invariant w → invariant (singleShot [Focaliser_champ_scan] w).
Proof.
  intros Hi. eapply invariant_plus; [done|by eexists|]. by left.
Qed.

Lemma invariant_vider w : invariant w → invariant (vider_champ_scan w).
Proof.
  intros Hi. eapply invariant_plus; [done|exists []|by left].
  cbn [w_minuteries vider_champ_scan]. by rewrite app_nil_r.
Qed.

Lemma tout_effacer_table w : w_table (tout_effacer w) = [ligne_dlc_vide].
Proof.
  unfold tout_effacer. cbn [w_table singleShot].
  assert (setItem_bloque 0 1 [] (setRowCount 1 (clearContents (w_table w)))
          = [ligne_dlc_vide]) as ->.
  { by destruct (w_table w) as [|l [|l' t]]. }
  rewrite assurer_ligne_vide_spec. done.
Qed.

Lemma tout_effacer_a_jour w : affichage_a_jour (tout_effacer w).
Proof.
  unfold affichage_a_jour. rewrite tout_effacer_table.
  split; vm_compute; reflexivity.
Qed.

Lemma invariant_pas w w' : invariant w → pas w w' → invariant w'.
Proof.
  intros Hi Hpas. destruct Hpas as
    [texte w|w|pp w w' Hc|pp cur w w' Hc|r c texte w|w|chemin ecr w
    |w w' Ht].
  - eapply invariant_plus; [done|exists []|by left].
    cbn [w_minuteries saisir]. by rewrite app_nil_r.
  - by apply invariant_focaliser, invariant_vider, invariant_inserer_lignes.
  - unfold coller_dans_champ_scan in Hc.
    destruct (truthy pp); [|done]. injection Hc as <-.
    by apply invariant_focaliser, invariant_vider, invariant_inserer_lignes.
  - unfold coller_dans_table in Hc.
    destruct (truthy pp); [|done]. destruct (_ <? _); [|done].
    injection Hc as <-. split; left.
    + cbn [mettre_a_jour_total_fenetre w_table].
      apply assurer_ligne_vide_derniere.
    + apply mettre_a_jour_total_fenetre_a_jour.
  - unfold editer_cellule. case_bool_decide; [done|]. unfold setItem.
    destruct (Nat.ltb_spec r (length (w_table w))); [|done].
    destruct (Nat.ltb_spec c 2); [|done]. cbn [andb].
    set (w0 := avec_table _ w).
    destruct (lors_changement_cellule_taches r c w0 texte) as [Hq _].
    { unfold w0. cbn [w_table avec_table]. by apply item_setItem_bloque. }
    split; right; rewrite Hq; unfold taches_edition;
      case_bool_decide; membre.
  - split; left.
    + by rewrite tout_effacer_table.
    + apply tout_effacer_a_jour.
  - unfold lors_clic_creer_csv. destruct (truthy chemin); [|done].
    destruct ecr; [|done]. cbn [fst].
    destruct Hi as [Hd _]. split.
    + cbn [w_table w_minuteries singleShot mettre_a_jour_total_fenetre].
      destruct Hd as [Hd|HA]; [by left|right].
      apply elem_of_app. by left.
    + left. apply mettre_a_jour_total_fenetre_a_jour.
  - unfold tour in Ht. destruct w as [t s tot com q].
    cbn [w_table w_champ_scan w_champ_total w_etiquette_commentaire
         w_minuteries] in Ht.
    destruct q as [|tch reste]; [done|]. injection Ht as <-.
    destruct Hi as [H1 H2]. unfold affichage_a_jour in H2.
    cbn [w_table w_minuteries w_champ_total w_etiquette_commentaire]
      in H1, H2.
    destruct tch; cbn [executer].
    + split; [left; apply assurer_ligne_vide_derniere|].
      destruct H2 as [H2|H2].
      * left. by apply assurer_ligne_vide_a_jour.
      * right.
        destruct (assurer_ligne_vide_minuteries
                    {| w_table := t; w_champ_scan := s;
                       w_champ_total := tot;
                       w_etiquette_commentaire := com;
                       w_minuteries := reste |}) as [q ->].
        cbn [w_minuteries]. membre.
    + split; [|left; apply mettre_a_jour_total_fenetre_a_jour].
      cbn [mettre_a_jour_total_fenetre w_table w_minuteries].
      destruct H1 as [H1|H1]; [by left|right; membre].
    + split.
      * cbn [w_table w_minuteries].
        destruct H1 as [H1|H1]; [by left|right; membre].
      * unfold affichage_a_jour.
        cbn [w_table w_minuteries w_champ_total w_etiquette_commentaire].
        destruct H2 as [H2|H2]; [by left|right; membre].
Qed.

End Invariant.

(** X14. In every state a run of the program reaches, whatever the order
    of the events, the table ends with a row whose weight cell is empty
    unless a call of [assurer_ligne_vide] is pending, and the total and the
    comment displayed are those of the table unless a call of
    [mettre_a_jour_total] is pending. So whenever no deferred call is
    pending, the table ends with an empty row and the display is up to
    date. *)
Theorem reachable_states_invariant (w : fenetre) :
  atteignable w →
  (derniere_vide (w_table w) = true ∨ Assurer_ligne_vide ∈ w_minuteries w)
  ∧ (affichage_a_jour w ∨ Mettre_a_jour_total ∈ w_minuteries w)
  ∧ (w_minuteries w = [] →
     derniere_vide (w_table w) = true ∧ affichage_a_jour w).
Proof.
  intros Hw. assert (invariant w) as [H1 H2].
  { induction Hw as [|w w' _ IH Hpas].
    - split; left; [done|]. split; vm_compute; reflexivity.
    - by eapply invariant_pas. }
  split_and!; [done|done|]. intros Hq. rewrite Hq in H1, H2.
  split; [destruct H1|destruct H2]; membre.
Qed.

Lemma reachable_states_invariant_witness :
  derniere_vide
    (w_table (lors_retour_scan (saisir (u "1234567012345") fenetre_initiale)))
  = true
  ∨ Assurer_ligne_vide
    ∈ w_minuteries
        (lors_retour_scan (saisir (u "1234567012345") fenetre_initiale)).
Proof.
  destruct (reachable_states_invariant
              (lors_retour_scan (saisir (u "1234567012345") fenetre_initiale)))
    as (H & _).
  - eapply atteignable_pas; [|apply pas_retour].
    eapply atteignable_pas; [|apply pas_saisie].
    apply atteignable_initiale.
  - exact H.
Defined.

(** The event loop on a table that ends with an empty row: no call adds a
    call, and the table stays as it is. *)
Lemma boucle_evenements_stable q n t s tot com :
  length q ≤ n → derniere_vide t = true →
  ∃ tot' com',
    boucle_evenements n
      {| w_table := t; w_champ_scan := s; w_champ_total := tot;
         w_etiquette_commentaire := com; w_minuteries := q |}
    = Some {| w_table := t; w_champ_scan := s; w_champ_total := tot';
              w_etiquette_commentaire := com'; w_minuteries := [] |}
    ∧ (Mettre_a_jour_total ∈ q
       ∨ affichage_a_jour
           {| w_table := t; w_champ_scan := s; w_champ_total := tot;
              w_etiquette_commentaire := com; w_minuteries := q |} →
       affichage_a_jour
         {| w_table := t; w_champ_scan := s; w_champ_total := tot';
            w_etiquette_commentaire := com'; w_minuteries := [] |}).
Proof.
  intros Hn Hd. revert n tot com Hn.
  induction q as [|tch reste IH]; intros n tot com Hn.
  - exists tot, com. split; [by destruct n|].
    intros [H|H]; [membre|done].
  - destruct n as [|n]; [simpl in Hn; lia|].
    cbn [length] in Hn.
    cbn [boucle_evenements tour w_minuteries w_table w_champ_scan
         w_champ_total w_etiquette_commentaire].
    destruct tch; cbn [executer].
    + rewrite assurer_ligne_vide_spec. cbn [w_table]. rewrite Hd.
      destruct (IH n tot com ltac:(lia)) as (tot' & com' & -> & Ha).
      exists tot', com'. split; [done|].
      intros [H|H]; apply Ha; [left; membre|by right].
    + unfold mettre_a_jour_total_fenetre.
      cbn [w_table w_champ_scan w_minuteries].
      destruct (IH n (champ_total (mettre_a_jour_total (poids <$> t)))
                  (etiquette_commentaire (mettre_a_jour_total (poids <$> t)))
                  ltac:(lia)) as (tot' & com' & -> & Ha).
      exists tot', com'. split; [done|].
      intros _. apply Ha. right. by split.
    + destruct (IH n tot com ltac:(lia)) as (tot' & com' & -> & Ha).
      exists tot', com'. split; [done|].
      intros [H|H]; apply Ha; [left; membre|by right].
Qed.

Lemma boucle_evenements_general q n t s tot com :
  length q + 2 ≤ n →
  ∃ t' tot' com',
    boucle_evenements n
      {| w_table := t; w_champ_scan := s; w_champ_total := tot;
         w_etiquette_commentaire := com; w_minuteries := q |}
    = Some {| w_table := t'; w_champ_scan := s; w_champ_total := tot';
              w_etiquette_commentaire := com'; w_minuteries := [] |}
    ∧ (t' = t ∨ t' = t ++ [ligne_dlc_vide])
    ∧ (Assurer_ligne_vide ∈ q → derniere_vide t' = true)
    ∧ (Mettre_a_jour_total ∈ q
       ∨ affichage_a_jour
           {| w_table := t; w_champ_scan := s; w_champ_total := tot;
              w_etiquette_commentaire := com; w_minuteries := q |} →
       affichage_a_jour
         {| w_table := t'; w_champ_scan := s; w_champ_total := tot';
            w_etiquette_commentaire := com'; w_minuteries := [] |}).
Proof.
  revert n tot com. induction q as [|tch reste IH]; intros n tot com Hn.
  - exists t, tot, com. split_and!; [by destruct n|by left|membre|].
    intros [H|H]; [membre|done].
  - destruct n as [|n]; [lia|]. cbn [length] in Hn.
    cbn [boucle_evenements tour w_minuteries w_table w_champ_scan
         w_champ_total w_etiquette_commentaire].
    destruct tch; cbn [executer].
    + rewrite assurer_ligne_vide_spec. cbn [w_table].
      destruct (derniere_vide t) eqn:Hd.
      * destruct (boucle_evenements_stable reste n t s tot com
                    ltac:(lia) Hd) as (tot' & com' & -> & Ha).
        exists t, tot', com'. split_and!; [done|by left|done|].
        intros [H|H]; apply Ha; [left; membre|by right].
      * unfold singleShot, avec_table.
        cbn [w_table w_champ_scan w_champ_total w_etiquette_commentaire
             w_minuteries].
        destruct (boucle_evenements_stable
                    (reste ++ [Assurer_ligne_vide; Mettre_a_jour_total]) n
                    (t ++ [ligne_dlc_vide]) s tot com)
          as (tot' & com' & -> & Ha).
        { rewrite length_app. simpl. lia. }
        { by rewrite derniere_vide_app. }
        exists (t ++ [ligne_dlc_vide]), tot', com'.
        split_and!; [done|by right|by rewrite derniere_vide_app|].
        intros _. apply Ha. left. membre.
    + unfold mettre_a_jour_total_fenetre.
      cbn [w_table w_champ_scan w_minuteries].
      destruct (IH n (champ_total (mettre_a_jour_total (poids <$> t)))
                  (etiquette_commentaire (mettre_a_jour_total (poids <$> t)))
                  ltac:(lia)) as (t' & tot' & com' & -> & Ht & Hd & Ha).
      exists t', tot', com'. split_and!; [done|done| |].
      * intros H. apply Hd. membre.
      * intros _. apply Ha. right. by split.
    + destruct (IH n tot com ltac:(lia))
        as (t' & tot' & com' & -> & Ht & Hd & Ha).
      exists t', tot', com'. split_and!; [done|done| |].
      * intros H. apply Hd. membre.
      * intros [H|H]; apply Ha; [left; membre|by right].
Qed.

(** X15. Left alone, the event loop always empties the queue of deferred
    calls, in at most two turns more than the number of pending calls
    (a call of [assurer_ligne_vide] may defer two more calls, once). It
    changes the table at most by adding one empty row at the end and never
    touches the scan field; if [assurer_ligne_vide] was pending the table
    then ends with an empty row, and if [mettre_a_jour_total] was pending,
    or the display was up to date, the display is up to date. *)
Theorem event_loop_terminates (w : fenetre) :
  ∃ w', boucle_evenements (length (w_minuteries w) + 2) w = Some w'
    ∧ w_minuteries w' = []
    ∧ (w_table w' = w_table w ∨ w_table w' = w_table w ++ [ligne_dlc_vide])
    ∧ w_champ_scan w' = w_champ_scan w
    ∧ (Assurer_ligne_vide ∈ w_minuteries w →
       derniere_vide (w_table w') = true)
    ∧ (Mettre_a_jour_total ∈ w_minuteries w ∨ affichage_a_jour w →
       affichage_a_jour w').
Proof.
  destruct w as [t s tot com q].
  destruct (boucle_evenements_general q (length q + 2) t s tot com
              ltac:(lia)) as (t' & tot' & com' & Hb & Ht & Hd & Ha).
  eexists. split; [exact Hb|]. by split_and!.
Qed.

(** ** Batches of scanned lines *)

Lemma placer_snoc filled vide texte :
  Forall (λ l, remplie l = true) filled → poids_vide vide = true →
  placer texte (filled ++ [vide]) = filled ++ [ligne_scan texte].
Proof.
  intros Hf Hv. unfold placer.
  destruct (list_find _ (filled ++ [vide])) as [[r l]|] eqn:E.
  - apply list_find_Some in E as (Hr & Hl & Hfirst).
    assert (r = length filled) as ->.
    { destruct (Nat.lt_trichotomy r (length filled)) as [Hlt|[?|Hgt]];
        [|done|].
      - rewrite lookup_app_l in Hr by done.
        rewrite Forall_forall in Hf.
        assert (remplie l = true) as Hrem
          by (apply Hf; by eapply list_elem_of_lookup_2).
        unfold remplie in Hrem. by destruct (poids_vide l).
      - destruct (Hfirst (length filled) vide); [|done|by rewrite Hv].
        by rewrite list_lookup_middle. }
    rewrite <-(Nat.add_0_r (length filled)). by rewrite alter_app_r.
  - apply list_find_None in E. rewrite Forall_app, Forall_singleton in E.
    destruct E as [_ E]. by rewrite Hv in E.
Qed.

Lemma inserer_snoc ligne w filled vide :
  w_table w = filled ++ [vide] →
  Forall (λ l, remplie l = true) filled → poids_vide vide = true →
  strip ligne ≠ [] → strip (texte_poids (strip ligne)) ≠ [] →
  w_table (inserer_ligne_scannee (Some ligne) w).1
  = (filled ++ [ligne_scan (strip ligne)]) ++ [ligne_dlc_vide].
Proof.
  intros Ht Hf Hv Hne Hp. rewrite inserer_ligne_scannee_eq by done.
  cbn [fst mettre_a_jour_total_fenetre w_table].
  rewrite assurer_ligne_vide_spec. cbn [w_table avec_table].
  rewrite Ht, placer_snoc by done. rewrite derniere_vide_app.
  unfold poids_vide, ligne_scan. cbn [poids].
  by rewrite bool_decide_false by done.
Qed.

Lemma lignes_retenues_cons ligne lignes :
  lignes_retenues (ligne :: lignes)
  = if decide (strip ligne = []) then lignes_retenues lignes
    else strip ligne :: lignes_retenues lignes.
Proof.
  unfold lignes_retenues. rewrite fmap_cons, filter_cons.
  destruct (decide (strip ligne = [])) as [E|Hne].
  - by rewrite decide_False by (intros H; by apply H).
  - by rewrite decide_True by done.
Qed.

Lemma inserer_lignes_snoc lignes :
  ∀ w filled,
    w_table w = filled ++ [ligne_dlc_vide] →
    Forall (λ l, remplie l = true) filled →
    Forall (λ texte, strip (texte_poids texte) ≠ []) (lignes_retenues lignes) →
    w_table (inserer_lignes lignes w)
    = filled ++ (ligne_scan <$> lignes_retenues lignes) ++ [ligne_dlc_vide].
Proof.
  unfold inserer_lignes.
  induction lignes as [|ligne lignes IH]; intros w filled Ht Hf Hp; [done|].
  cbn [foldl]. rewrite lignes_retenues_cons in Hp |- *.
  destruct (decide (strip ligne = [])) as [E|Hne].
  - assert ((inserer_ligne_scannee (Some ligne) w).1 = w) as ->.
    { unfold inserer_ligne_scannee. by rewrite bool_decide_true. }
    by apply IH.
  - apply Forall_cons in Hp as [Hp1 Hp].
    rewrite (IH _ (filled ++ [ligne_scan (strip ligne)])).
    + by rewrite <-app_assoc.
    + by apply (inserer_snoc _ _ _ ligne_dlc_vide).
    + apply Forall_app. split; [done|]. apply Forall_singleton.
      unfold remplie, poids_vide, ligne_scan. cbn [poids].
      by rewrite bool_decide_false.
    + done.
Qed.

(** X16. When the filled rows of the table come first and one empty row
    ends it, a batch of scanned lines is appended in order: the lines
    that are not blank are stored, stripped and decoded, after the filled
    rows, one row each, and one empty row ends the table again. This
    holds for the lines of the scan field on RETURN, which also empties
    the field, and for the lines pasted in the scan field. (A line that
    is stored as a blank weight is excluded: the next line would take its
    row.) *)
Theorem scanned_lines_appended_in_order (lignes : list str) (w : fenetre)
    (filled : tableau) :
  w_table w = filled ++ [ligne_dlc_vide] →
  Forall (λ l, remplie l = true) filled →
  Forall (λ texte, strip (texte_poids texte) ≠ []) (lignes_retenues lignes) →
  let t' := filled ++ (ligne_scan <$> lignes_retenues lignes)
                   ++ [ligne_dlc_vide] in
  w_table (inserer_lignes lignes w) = t'
  ∧ (splitlines (w_champ_scan w) = lignes →
     w_table (lors_retour_scan w) = t'
     ∧ w_champ_scan (lors_retour_scan w) = [])
  ∧ (∀ presse_papiers w',
       splitlines presse_papiers = lignes →
       coller_dans_champ_scan presse_papiers w = Some w' →
       w_table w' = t' ∧ w_champ_scan w' = []).
Proof.
  intros Ht Hf Hp t'.
  pose proof (inserer_lignes_snoc lignes w filled Ht Hf Hp) as H.
  split_and!; [done| |].
  - intros E. unfold lors_retour_scan. by rewrite E.
  - intros pp w' E. unfold coller_dans_champ_scan.
    destruct (truthy pp); [|done]. intros [= <-]. by rewrite E.
Qed.

Lemma scanned_lines_appended_in_order_witness :
  w_table (inserer_lignes [u " 1234567012345 "; u "  "; u "12,5"]
             fenetre_exemple)
  = [{| poids := Some (u "89,012"); dlc := Some [] |};
     {| poids := Some (u "01,234"); dlc := Some [] |};
     {| poids := Some (u "12,5"); dlc := Some [] |};
     ligne_dlc_vide].
Proof.
  destruct (scanned_lines_appended_in_order
              [u " 1234567012345 "; u "  "; u "12,5"] fenetre_exemple
              [{| poids := Some (u "89,012"); dlc := Some [] |}])
    as [H _]; [reflexivity|by repeat constructor| |exact H].
  apply Forall_cons. split; [vm_compute; discriminate|].
  apply Forall_cons. split; [vm_compute; discriminate|].
  apply Forall_nil_2.
Defined.

Lemma Forall_false_forallb (P : N → bool) (l : str) :
  forallb (λ c, negb (P c)) l = true → Forall (λ c, P c = false) l.
Proof.
  rewrite forallb_forall, Forall_forall. intros H c Hc.
  apply negb_true_iff, H. by apply list_elem_of_In.
Qed.

Lemma splitlines_from_single cur s :
  Forall (λ c, is_linebreak c = false) s →
  splitlines_from cur s = if bool_decide (cur ++ s = []) then [] else [cur ++ s].
Proof.
  intros H. revert cur. induction H as [|c s Hc _ IH]; intros cur.
  - cbn [splitlines_from]. by rewrite app_nil_r.
  - cbn [splitlines_from]. rewrite Hc, IH. by rewrite <-app_assoc.
Qed.

(** X17. What one read of the scanner does: a text without line boundary
    in the scan field is one line, so on RETURN (filled rows first, one
    empty row at the end, the text not blank and not stored as a blank
    weight) exactly one row is added after the filled rows, holding the
    decoded weight and date of the stripped text; the scan field is
    emptied and the display is that of the new table. *)
Theorem single_scan_on_return (w : fenetre) (filled : tableau) :
  w_table w = filled ++ [ligne_dlc_vide] →
  Forall (λ l, remplie l = true) filled →
  Forall (λ c, is_linebreak c = false) (w_champ_scan w) →
  strip (w_champ_scan w) ≠ [] →
  strip (texte_poids (strip (w_champ_scan w))) ≠ [] →
  let w' := lors_retour_scan w in
  w_table w' = filled ++ [ligne_scan (strip (w_champ_scan w)); ligne_dlc_vide]
  ∧ w_champ_scan w' = []
  ∧ affichage_a_jour w'.
Proof.
  intros Ht Hf Hl Hne Hp w'.
  assert (splitlines (w_champ_scan w) = [w_champ_scan w]) as Hs.
  { unfold splitlines. rewrite splitlines_from_single by done.
    rewrite bool_decide_false; [done|]. cbn [app]. intros E.
    by rewrite E in Hne. }
  unfold w', lors_retour_scan. rewrite Hs.
  cbn [w_table w_champ_scan singleShot vider_champ_scan].
  split_and!; [|done|].
  - rewrite (inserer_lignes_snoc [w_champ_scan w] w filled Ht Hf).
    + rewrite lignes_retenues_cons. by rewrite decide_False by done.
    + rewrite lignes_retenues_cons. rewrite decide_False by done.
      by apply Forall_singleton.
  - unfold inserer_lignes. cbn [foldl].
    rewrite inserer_ligne_scannee_eq by done. by split.
Qed.

Lemma single_scan_on_return_witness :
  w_table (lors_retour_scan fenetre_exemple)
  = [{| poids := Some (u "89,012"); dlc := Some [] |}]
    ++ [ligne_scan (strip (u "1234567012345")); ligne_dlc_vide].
Proof.
  destruct (single_scan_on_return fenetre_exemple
              [{| poids := Some (u "89,012"); dlc := Some [] |}])
    as [H _]; [reflexivity|by repeat constructor| | | |exact H].
  - apply Forall_false_forallb. vm_compute. reflexivity.
  - vm_compute. discriminate.
  - vm_compute. discriminate.
Defined.

(** ** The exported file *)

Section Csv.

Implicit Types (f champ r : str) (champs : list str).

Lemma csv_lire_nu f champs champ r :
  Forall (λ c, csv_special c = false) f →
  csv_lire_depuis Champ_nu champs champ (f ++ r)
  = csv_lire_depuis Champ_nu champs (champ ++ f) r.
Proof.
  intros H. revert champ. induction H as [|c f Hc _ IH]; intros champ.
  - by rewrite app_nil_r.
  - cbn [app csv_lire_depuis]. unfold csv_special in Hc.
    apply orb_false_elim in Hc as [[[H44 H34]%orb_false_elim
                                     H13]%orb_false_elim H10].
    rewrite H44, H13, H34, H10. cbn [orb].
    rewrite IH. by rewrite <-app_assoc.
Qed.

Lemma csv_lire_guillemets f champs champ r :
  csv_lire_depuis Champ_guillemets champs champ
    ((f ≫= λ c, if (c =? 34)%N then [c; c] else [c]) ++ 34%N :: r)
  = csv_lire_depuis Guillemet_vu champs (champ ++ f) r.
Proof.
  revert champ. induction f as [|c f IH]; intros champ.
  - cbn. by rewrite app_nil_r.
  - rewrite bind_cons. destruct (N.eqb_spec c 34) as [->|Hc].
    + cbn [app csv_lire_depuis N.eqb Pos.eqb].
      rewrite IH. by rewrite <-app_assoc.
    + cbn [app csv_lire_depuis].
      destruct (N.eqb_spec c 34) as [?|_]; [done|].
      rewrite IH. by rewrite <-app_assoc.
Qed.

(** After a field has been read, the separator decides what follows. *)
Lemma csv_lire_champ f champs d r :
  d = 44%N ∨ d = 13%N →
  csv_lire_depuis Debut_champ champs [] (csv_field f ++ d :: r)
  = if (d =? 44)%N then csv_lire_depuis Debut_champ (champs ++ [f]) [] r
    else csv_lire_depuis Retour_vu (champs ++ [f]) [] r.
Proof.
  intros Hd. unfold csv_field.
  destruct (existsb csv_special f) eqn:E.
  - cbn [app csv_lire_depuis N.eqb Pos.eqb].
    rewrite <-app_assoc. cbn [app]. rewrite csv_lire_guillemets.
    cbn [app csv_lire_depuis]. by destruct Hd as [->| ->].
  - assert (Forall (λ c, csv_special c = false) f) as Hf.
    { apply Forall_forall. intros c Hc.
      destruct (csv_special c) eqn:Ec; [|done].
      rewrite <-E. symmetry. apply existsb_exists. exists c.
      split; [|done]. by apply list_elem_of_In. }
    destruct Hf as [|c f Hc Hf].
    + cbn [app csv_lire_depuis]. by destruct Hd as [->| ->].
    + cbn [app csv_lire_depuis]. pose proof Hc as Hc'.
      unfold csv_special in Hc'.
      apply orb_false_elim in Hc' as [[[H44 H34]%orb_false_elim
                                        H13]%orb_false_elim H10].
      rewrite H34, H44, H13, H10. rewrite csv_lire_nu by done.
      cbn [app csv_lire_depuis]. by destruct Hd as [->| ->].
Qed.

Lemma csv_lire_join fields champs r :
  fields ≠ [] →
  csv_lire_depuis Debut_champ champs []
    (csv_join (csv_field <$> fields) ++ [13; 10]%N ++ r)
  = (((champs ++ fields) ::.) <$> csv_lire_depuis Debut_champ [] [] r).
Proof.
  revert champs. induction fields as [|f fields IH]; intros champs Hne;
    [done|].
  destruct fields as [|f2 fields].
  - cbn [fmap list_fmap csv_join app].
    rewrite (csv_lire_champ f champs 13) by by right.
    by cbn [N.eqb Pos.eqb csv_lire_depuis].
  - change (csv_join (csv_field <$> f :: f2 :: fields))
      with (csv_field f ++ 44%N :: csv_join (csv_field <$> f2 :: fields)).
    rewrite <-app_assoc. cbn [app].
    rewrite (csv_lire_champ f champs 44) by by left.
    cbn [N.eqb Pos.eqb].
    rewrite IH by done. by rewrite <-app_assoc.
Qed.

Lemma csv_lire_writerow fields r :
  fields ≠ [] →
  csv_lire (csv_writerow fields ++ r)
  = ((fields ::.) <$> csv_lire r).
Proof.
  intros Hne. unfold csv_lire, csv_writerow. case_bool_decide as Hb.
  - by subst fields.
  - rewrite <-app_assoc. by rewrite csv_lire_join.
Qed.

Lemma csv_lire_writerows (rows : list (list str)) :
  Forall (λ fields, fields ≠ []) rows →
  csv_lire (rows ≫= csv_writerow) = Some rows.
Proof.
  induction 1 as [|fields rows Hne _ IH]; [done|].
  rewrite bind_cons, csv_lire_writerow by done. by rewrite IH.
Qed.

End Csv.

Lemma lignes_csv_filter (t : tableau) :
  lignes_csv t
  = (λ l, [default [] (poids l); default [] (dlc l)])
      <$> filter (λ l, ligne_blanche l = false) t.
Proof.
  unfold lignes_csv. induction t as [|l t IH]; [done|].
  rewrite bind_cons, filter_cons, IH.
  change (bool_decide (strip (default [] (poids l)) = [])
          && bool_decide (strip (default [] (dlc l)) = []))
    with (ligne_blanche l).
  destruct (ligne_blanche l);
    [rewrite decide_False by done|rewrite decide_True by done]; done.
Qed.

(** X18. Whatever the texts of the cells (commas, double quotes, line
    breaks), the text [creer_csv_fichier] writes reads back, by the rules
    of RFC 4180, as the header followed by the rows of the table that are
    not blank in both columns, in the order of the table and with both
    texts unchanged. *)
Theorem csv_export_reads_back (w : fenetre) :
  csv_lire (creer_csv_fichier w)
  = Some ([u "Poids en kg"; u "DLC"]
          :: ((λ l, [default [] (poids l); default [] (dlc l)])
                <$> filter (λ l, ligne_blanche l = false) (w_table w))).
Proof.
  unfold creer_csv_fichier. rewrite csv_lire_writerow by done.
  rewrite csv_lire_writerows.
  - by rewrite lignes_csv_filter.
  - rewrite lignes_csv_filter. apply Forall_fmap. by apply Forall_true.
Qed.

(** X19. "Nettoyer" brings the table and the two texts back to what they
    are when the program starts, whatever the table held: one row without
    weight and with an empty DLC text. The total and the comment, which
    [tout_effacer] sets by hand, are those [mettre_a_jour_total] would
    compute; the only call deferred is the one that gives the focus back
    to the scan field (the empty row is already there); the scan field
    keeps its text; and an export made then holds the header only. *)
Theorem tout_effacer_resets (w : fenetre) :
  let w' := tout_effacer w in
  w_table w' = w_table fenetre_initiale
  ∧ w_champ_total w' = w_champ_total fenetre_initiale
  ∧ w_etiquette_commentaire w' = w_etiquette_commentaire fenetre_initiale
  ∧ affichage_a_jour w'
  ∧ w_minuteries w' = w_minuteries w ++ [Focaliser_champ_scan]
  ∧ w_champ_scan w' = w_champ_scan w
  ∧ creer_csv_fichier w' = csv_writerow [u "Poids en kg"; u "DLC"].
Proof.
  intros w'. pose proof (tout_effacer_table w) as Ht.
  pose proof (tout_effacer_a_jour w) as Ha. fold w' in Ht, Ha.
  assert (assurer_ligne_vide
            (avec_table
               (setItem_bloque 0 1 []
                  (setRowCount 1 (clearContents (w_table w)))) w)
          = avec_table [ligne_dlc_vide] w) as Hw.
  { assert (setItem_bloque 0 1 [] (setRowCount 1 (clearContents (w_table w)))
            = [ligne_dlc_vide]) as ->.
    { by destruct (w_table w) as [|l [|l' t]]. }
    by rewrite assurer_ligne_vide_spec. }
  split_and!; try done.
  - unfold w', tout_effacer. by rewrite Hw.
  - unfold w', tout_effacer. by rewrite Hw.
  - unfold creer_csv_fichier. rewrite Ht. by rewrite app_nil_r.
Qed.

(** ** The flash *)

Lemma derouler_coherent style evts :
  ∀ st derniere,
    flash_coherent style derniere st →
    bien_formee (fl_minuteries st) evts = true →
    ∃ st', derouler evts st = Some st'
           ∧ flash_coherent style
               (match last (couleurs evts) with
                | Some color => Some color
                | None => derniere
                end) st'.
Proof.
  induction evts as [|[color|] evts IH]; intros st derniere Hc Hb.
  - by exists st.
  - cbn [derouler]. cbn [bien_formee] in Hb.
    destruct (IH (flash_visuel color st) (Some color)) as (st' & Hst' & Hc').
    + destruct Hc as [Hs Hc]. split.
      * cbn [flash_visuel fl_minuteries fl_style]. by exists color.
      * right. cbn [flash_visuel fl_minuteries fl_orig_bg fl_count].
        destruct Hc as [(-> & -> & H0)|(-> & ->)].
        -- rewrite H0 in Hs |- *. by rewrite Hs.
        -- split; [done|]. f_equal. lia.
    + done.
    + exists st'. split; [done|].
      change (couleurs (Flash color :: evts)) with (color :: couleurs evts).
      rewrite last_cons. by destruct (last (couleurs evts)).
  - cbn [derouler]. cbn [bien_formee] in Hb.
    destruct Hc as [Hs Hc].
    destruct (fl_minuteries st) as [|k] eqn:Ek; [done|].
    destruct Hc as [(_ & _ & ?)|(Ho & Hn)]; [done|].
    unfold terminer_flash. rewrite Hn, Ho. cbn [mbind option_bind].
    destruct (Z.leb_spec (Z.of_nat (S k) - 1) 0) as [Hk|Hk].
    + assert (k = 0) as -> by lia. cbn [mbind option_bind fl_style fl_orig_bg
                                         fl_count].
      apply IH; [|done]. split; [done|]. by right.
    + cbn [mbind option_bind fl_style fl_orig_bg fl_count].
      apply IH; [|done]. destruct k as [|k]; [lia|].
      split; [done|]. right. cbn [fl_orig_bg fl_count fl_minuteries].
      split; [done|]. f_equal. lia.
Qed.

Lemma derouler_bien_formee evts :
  ∀ st, is_Some (derouler evts st) →
        bien_formee (fl_minuteries st) evts = true.
Proof.
  induction evts as [|[color|] evts IH]; intros st Hs; [done|..].
  - cbn [derouler] in Hs. apply IH in Hs. done.
  - cbn [derouler] in Hs. cbn [bien_formee].
    destruct (fl_minuteries st) as [|k]; [by destruct Hs|].
    destruct (terminer_flash st) as [st'|]; [|by destruct Hs].
    cbn [mbind option_bind] in Hs. by apply IH in Hs.
Qed.

(** X20. However the flashes overlap, [terminer_flash] never raises, and
    the style sheet of the central widget is the colour of the last flash
    while a timer is pending and, as soon as none is, the style sheet the
    widget had before the first flash. *)
Theorem flash_restores_style (style : str) (evts : list evenement_flash) :
  (is_Some (derouler evts (flash_initial style))
   ↔ bien_formee 0 evts = true)
  ∧ ∀ st, derouler evts (flash_initial style) = Some st →
      match fl_minuteries st with
      | O => fl_style st = style
      | S _ => ∃ color, last (couleurs evts) = Some color
                 ∧ fl_style st = u "background-color: " ++ color ++ u ";"
      end.
Proof.
  assert (flash_coherent style None (flash_initial style)) as Hinit.
  { split; [done|]. by left. }
  split.
  - split; [apply derouler_bien_formee|]. intros Hb.
    destruct (derouler_coherent style evts _ None Hinit Hb) as (st & -> & _).
    by eexists.
  - intros st Hst.
    assert (bien_formee 0 evts = true) as Hb.
    { apply (derouler_bien_formee evts (flash_initial style)).
      by rewrite Hst. }
    destruct (derouler_coherent style evts _ None Hinit Hb)
      as (st' & Hst' & Hs & _).
    rewrite Hst in Hst'. injection Hst' as <-.
    destruct (fl_minuteries st); [done|].
    destruct Hs as (color & Hl & Hs). exists color. split; [|done].
    by destruct (last (couleurs evts)).
Qed.

Lemma flash_restores_style_witness :
  fl_style
    (default (flash_initial (u "color: red;"))
       (derouler [Flash (u "#4df164"); Flash (u "#ff4d4d"); Fin_flash;
                  Fin_flash] (flash_initial (u "color: red;"))))
  = u "color: red;".
Proof.
  destruct (flash_restores_style (u "color: red;")
              [Flash (u "#4df164"); Flash (u "#ff4d4d"); Fin_flash;
               Fin_flash]) as [_ H].
  exact (H _ eq_refl).
Defined.

(** ** The zoom *)

Lemma SFltb_SFleb a b : SFltb a b = true → SFleb a b = true.
Proof. unfold SFltb, SFleb. by destruct (SFcompare a b) as [[]|]. Qed.

Lemma clamp_dans_les_bornes x :
  dans_les_bornes (py_max f_0_7 (py_min f_2_0 x)) = true.
Proof.
  unfold py_max, py_min, flt. destruct (SFltb x f_2_0) eqn:E1.
  - destruct (SFltb f_0_7 x) eqn:E2.
    + unfold dans_les_bornes. by rewrite !SFltb_SFleb.
    + reflexivity.
  - change (SFltb f_0_7 f_2_0) with true. reflexivity.
Qed.

Lemma ajuster_echelle_cases delta f :
  ajuster_echelle delta f = f
  ∨ dans_les_bornes (ajuster_echelle delta f) = true.
Proof.
  unfold ajuster_echelle. destruct (flt _ _); [by left|right].
  apply clamp_dans_les_bornes.
Qed.

(** X21. The zoom factor never leaves the interval from 0.7 to 2.0:
    whatever the sequence of steps asked for since the start of the
    program (even steps that are infinite or not a number), the factor is
    a number between the two bounds, and every call either leaves the
    factor as it is or sets it between the bounds. *)
Theorem zoom_stays_in_bounds (deltas : list float) :
  dans_les_bornes (foldl (λ f delta, ajuster_echelle delta f) f_1_0 deltas)
  = true
  ∧ ∀ delta f, ajuster_echelle delta f = f
               ∨ dans_les_bornes (ajuster_echelle delta f) = true.
Proof.
  split; [|apply ajuster_echelle_cases].
  assert (∀ f, dans_les_bornes f = true →
               dans_les_bornes
                 (foldl (λ f delta, ajuster_echelle delta f) f deltas) = true)
    as H; [|by apply H].
  induction deltas as [|delta deltas IH]; intros f Hf; [done|].
  cbn [foldl]. apply IH.
  by destruct (ajuster_echelle_cases delta f) as [->|?].
Qed.
